(** * kompose: the Kubernetes and OpenShift transformers

    A shallow embedding of [pkg/transformer/kubernetes/kubernetes.go] and
    [pkg/transformer/openshift/openshift.go]: the object builders, the two
    [Transform] loops, [Deploy] and [Undeploy].

    Conventions.
    - Go [string] is a byte sequence: Rocq [string].  Go [int]/[int32] are [Z].
    - Go [map[string]T] is [gmap string T]; a [nil] map and an empty map are
      both [∅] (the only place where Go tells them apart, [reflect.DeepEqual],
      is always used here against a one-entry map, where both give [false]).
    - A function returning [(T, error)] returns an [outcome T]; [log.Fatalf]
      (process exit) and run-time panics are outcomes of their own.
    - External collaborators (git, docker build and push, the cluster
      clients) are fields of a record that the functions take as argument.
    - Log lines other than [log.Fatalf] are not modelled. *)

From Stdlib Require Import ZArith Ascii String Sorted.
From stdpp Require Import base tactics option list gmap strings pretty.

Local Open Scope string_scope.
Local Open Scope list_scope.
Local Open Scope Z_scope.

(** ** Go's [strings] and [strconv] functions used by the transformers *)

Module strings.

(** [strings.Split(s, sep)] for a one-byte separator (both call sites pass
    one: "/" and ":").  The result always has [count sep s + 1] fields. *)
Fixpoint Split (s : string) (sep : ascii) : list string :=
  match s with
  | EmptyString => [EmptyString]
  | String c s' =>
      if Ascii.eqb c sep then EmptyString :: Split s' sep
      else match Split s' sep with
           | [] => [String c EmptyString]
           | field :: fields => String c field :: fields
           end
  end.

(** [strings.HasPrefix(s, prefix)]. *)
Fixpoint HasPrefix (s prefix : string) : bool :=
  match prefix, s with
  | EmptyString, _ => true
  | String _ _, EmptyString => false
  | String p prefix', String c s' => Ascii.eqb c p && HasPrefix s' prefix'
  end.

Fixpoint drop (n : nat) (s : string) : string :=
  match n, s with
  | O, _ => s
  | S _, EmptyString => EmptyString
  | S n', String _ s' => drop n' s'
  end.

(** [strings.Replace(s, old, new, 1)] for a non-empty [old]: the first
    occurrence of [old] is replaced. *)
Fixpoint Replace1 (s old new : string) : string :=
  match s with
  | EmptyString => EmptyString
  | String c s' =>
      if HasPrefix s old then new +:+ drop (String.length old) s
      else String c (Replace1 s' old new)
  end.

Definition rev (s : string) : string :=
  string_of_list_ascii (List.rev (list_ascii_of_string s)).

Fixpoint trimLeft (s : string) (c : ascii) : string :=
  match s with
  | EmptyString => EmptyString
  | String a s' => if Ascii.eqb a c then trimLeft s' c else s
  end.

(** [strings.TrimRight(s, cutset)] and [strings.Trim(s, cutset)] for a
    one-byte cutset. *)
Definition TrimRight (s : string) (c : ascii) : string :=
  rev (trimLeft (rev s) c).
Definition Trim (s : string) (c : ascii) : string :=
  TrimRight (trimLeft s c) c.

(** [strings.HasSuffix(s, suffix)]. *)
Definition HasSuffix (s suffix : string) : bool :=
  HasPrefix (rev s) (rev suffix).

(** [strconv.Itoa]: the decimal rendering, with a leading "-" below 0. *)
Definition Itoa (i : Z) : string := pretty i.

End strings.

(** ** Results of fallible calls *)

Inductive outcome (A : Type) : Type :=
| Ok (a : A)            (* [return a, nil] *)
| Error (err : string)  (* [return nil, err] *)
| Exit (msg : string)   (* [log.Fatalf]: the process exits *)
| Panic (msg : string). (* a run-time panic *)
Arguments Ok {A} a.
Arguments Error {A} err.
Arguments Exit {A} msg.
Arguments Panic {A} msg.

Global Instance outcome_bind : MBind outcome := λ A B k m,
  match m with
  | Ok a => k a
  | Error e => Error e
  | Exit e => Exit e
  | Panic e => Panic e
  end.

Global Instance outcome_ret : MRet outcome := λ A a, Ok a.

Global Instance outcome_fmap : FMap outcome := λ A B f m,
  match m with
  | Ok a => Ok (f a)
  | Error e => Error e
  | Exit e => Exit e
  | Panic e => Panic e
  end.

(** An external call returning [(T, error)]: it returns or fails, nothing else. *)
Inductive result (A : Type) : Type :=
| Return (a : A)
| Fail (err : string).
Arguments Return {A} a.
Arguments Fail {A} err.

Definition lift {A : Type} (r : result A) : outcome A :=
  match r with
  | Return a => Ok a
  | Fail err => Error err
  end.

(** [errors.Wrap(err, msg)]: the message of the wrapped error. *)
Definition Wrap (err msg : string) : string := msg +:+ ": " +:+ err.

(** ** The service model ([pkg/kobject], as the transformers use it) *)

Module kobject.

Record Ports := {
  HostPort : Z;
  ContainerPort : Z;
  HostIP : string;
  Protocol : string;
}.

Record VolumesEntry := {
  VolumeName : string;
  Host : string;
  Container : string;
  Mode : string;
  PVCName : string;
  VFrom : string;
}.

Record EnvVar := {
  EnvName : string;
  EnvValue : string;
}.

Record ServiceConfig := {
  ContainerName : string;
  Image : string;
  Environment : list EnvVar;
  Port : list Ports;
  Build : string;
  BuildArgs : gmap string string;
  Dockerfile : string;
  ExposeService : string;
  Restart : string;
  Replicas : Z;
  Volumes : list VolumesEntry;
  TmpFs : list string;
  CapAdd : list string;
  CapDrop : list string;
}.

(** The zero value, which a Go map lookup of an absent key returns. *)
Definition ServiceConfig_zero : ServiceConfig :=
  {| ContainerName := ""; Image := ""; Environment := []; Port := [];
     Build := ""; BuildArgs := ∅; Dockerfile := ""; ExposeService := "";
     Restart := ""; Replicas := 0; Volumes := []; TmpFs := [];
     CapAdd := []; CapDrop := [] |}.

(** [service.Image = image] on the loop's copy of the service. *)
Definition withImage (service : ServiceConfig) (image : string) : ServiceConfig :=
  {| ContainerName := ContainerName service; Image := image;
     Environment := Environment service; Port := Port service;
     Build := Build service; BuildArgs := BuildArgs service;
     Dockerfile := Dockerfile service; ExposeService := ExposeService service;
     Restart := Restart service; Replicas := Replicas service;
     Volumes := Volumes service; TmpFs := TmpFs service;
     CapAdd := CapAdd service; CapDrop := CapDrop service |}.

Record KomposeObject := {
  ServiceConfigs : gmap string ServiceConfig;
  LoadedFrom : string;
}.

(** [InputFiles] is a slice compared with [nil]: [None] is the nil slice. *)
Record ConvertOptions := {
  CreateD : bool;
  CreateRC : bool;
  CreateDS : bool;
  CreateDeploymentConfig : bool;
  Build_ : string; (* opt.Build *)
  BuildRepo : string;
  BuildBranch : string;
  EmptyVols : bool;
  InsecureRepository : bool;
  Replicas_ : Z; (* opt.Replicas *)
  InputFiles : option (list string);
  Namespace : string;
  IsDeploymentFlag : bool;
  IsDaemonSetFlag : bool;
  IsReplicationControllerFlag : bool;
  IsDeploymentConfigFlag : bool;
  IsReplicaSetFlag : bool;
  IsNamespaceFlag : bool;
}.

End kobject.
Import kobject.

(** ** Resource objects ([k8s.io/kubernetes/pkg/api] and the OpenShift APIs),
    with the fields the transformers set *)

Module api.

Definition ProtocolTCP : string := "TCP".

Record ObjectMeta := {
  Name : string;
  Labels : gmap string string;
}.

Record ContainerPort := {
  cpContainerPort : Z;
  cpProtocol : string; (* "" when the field is left out *)
  cpHostIP : string;
}.

Record VolumeMount := {
  vmName : string;
  vmReadOnly : bool;
  vmMountPath : string;
}.

Inductive VolumeSource :=
| EmptyDir (memory : bool) (* Medium: StorageMediumMemory or unset *)
| PersistentVolumeClaimSource (ClaimName : string) (ReadOnly : bool).

Record Volume := {
  volName : string;
  volSource : VolumeSource;
}.

Record Container := {
  cName : string;
  cImage : string;
  cEnv : list EnvVar;
  cPorts : list ContainerPort;
  cVolumeMounts : list VolumeMount;
}.

Record PodSpec := {
  Containers : list Container;
  PodVolumes : list Volume;
}.

Record PodTemplateSpec := {
  tMeta : ObjectMeta;
  tSpec : PodSpec;
}.

(** [intstr.IntOrString]. *)
Record IntOrString := {
  IntVal : Z;
  StrVal : string;
}.

Record ServicePort := {
  spName : string;
  spProtocol : string; (* "" when the field is left out *)
  spPort : Z;
  spTargetPort : IntOrString;
}.

Record ServiceSpec := {
  Ports : list ServicePort;
  Selector : gmap string string;
  ClusterIP : string;
}.

(** [*api.Service]. *)
Record ServiceObj := {
  svcMeta : ObjectMeta;
  svcSpec : ServiceSpec;
}.

Inductive AccessMode := ReadOnlyMany | ReadWriteOnce.

(** [runtime.Object]: the concrete types the transformers produce. *)
Inductive Object :=
| ReplicationController (meta : ObjectMeta) (replicas : Z)
    (template : option PodTemplateSpec)
| Deployment (meta : ObjectMeta) (replicas : Z) (template : PodTemplateSpec)
| DaemonSet (meta : ObjectMeta) (template : PodTemplateSpec)
| Service (svc : ServiceObj)
| PersistentVolumeClaim (meta : ObjectMeta) (size : string)
    (accessModes : list AccessMode)
| Ingress (meta : ObjectMeta) (host : string) (backendServiceName : string)
    (backendServicePort : IntOrString)
| Pod (meta : ObjectMeta) (spec : PodSpec)
| DeploymentConfig (meta : ObjectMeta) (replicas : Z)
    (selector : gmap string string) (template : PodTemplateSpec)
    (triggerContainerNames : list string) (triggerFrom : string)
| ImageStream (meta : ObjectMeta)
    (tags : gmap string (string * bool)) (* tag ↦ (DockerImage name, insecure) *)
| BuildConfig (meta : ObjectMeta) (gitRef gitURI contextDir : string)
    (dockerfilePath : string) (env : list EnvVar) (outputTo : string)
| Route (meta : ObjectMeta) (host : string) (targetPort : IntOrString)
    (toName : string).

Inductive Kind :=
| KReplicationController | KDeployment | KDaemonSet | KService
| KPersistentVolumeClaim | KIngress | KPod | KDeploymentConfig
| KImageStream | KBuildConfig | KRoute.

(** The dynamic type a type switch sees. *)
Definition kindOf (o : Object) : Kind :=
  match o with
  | ReplicationController _ _ _ => KReplicationController
  | Deployment _ _ _ => KDeployment
  | DaemonSet _ _ => KDaemonSet
  | Service _ => KService
  | PersistentVolumeClaim _ _ _ => KPersistentVolumeClaim
  | Ingress _ _ _ _ => KIngress
  | Pod _ _ => KPod
  | DeploymentConfig _ _ _ _ _ _ => KDeploymentConfig
  | ImageStream _ _ => KImageStream
  | BuildConfig _ _ _ _ _ _ _ => KBuildConfig
  | Route _ _ _ _ => KRoute
  end.

Definition metaOf (o : Object) : ObjectMeta :=
  match o with
  | Service svc => svcMeta svc
  | ReplicationController m _ _ | Deployment m _ _ | DaemonSet m _
  | PersistentVolumeClaim m _ _ | Ingress m _ _ _ | Pod m _
  | DeploymentConfig m _ _ _ _ _ | ImageStream m _
  | BuildConfig m _ _ _ _ _ _ | Route m _ _ _ => m
  end.

(** [v.(meta.Object).GetName()]. *)
Definition GetName (o : Object) : string := Name (metaOf o).

Global Instance Kind_eq_dec : EqDecision Kind.
Proof. solve_decision. Defined.

(** [int32(i)] for a Go [int]: two's complement wrap-around. *)
Definition int32 (i : Z) : Z := (i + 2 ^ 31) mod 2 ^ 32 - 2 ^ 31.

End api.
Import api.

(** ** [pkg/transformer]: labels and environment sorting *)

Module transformer.

(** Modelled from the spec: the constant [transformer.Selector], the single
    identifying label key (its value is the one the test fixtures show). *)
Definition Selector : string := "io.kompose.service".

(** Modelled from the spec: [transformer.ConfigLabels], the single-entry label
    set mapping the identifying key to the name. *)
Definition ConfigLabels (name : string) : gmap string string :=
  {[ Selector := name ]}.

(** A stable sort (insertion from the right): of two elements that compare
    equal, the one that came first stays first, as [sort.Stable] and, for
    distinct strings, [sort.Strings] leave them. *)
Section stable_sort.
Context {A : Type} (le : A → A → bool).

Fixpoint insert_sorted (x : A) (l : list A) : list A :=
  match l with
  | [] => [x]
  | y :: l' => if le x y then x :: l else y :: insert_sorted x l'
  end.

Definition stable_sort (l : list A) : list A := foldr insert_sorted [] l.
End stable_sort.

(** Modelled from the spec: [sort.Stable] on a [transformer.EnvSort], which
    orders environment variables by name ([String.leb] is Go's byte-wise
    [<=] on strings). *)
Definition EnvSort_Stable (envs : list EnvVar) : list EnvVar :=
  stable_sort (λ e1 e2, String.leb (EnvName e1) (EnvName e2)) envs.

End transformer.

(** ** External collaborators of [Transform] *)

Record Collaborators := {
  (** [transformer.GetComposeFileDir(opt.InputFiles)] *)
  GetComposeFileDir : option (list string) → result string;
  (** [transformer.BuildDockerImage(service, name, composeFileDir)]: the error *)
  BuildDockerImage : ServiceConfig → string → string → option string;
  (** [transformer.PushDockerImage(service, name)]: the error *)
  PushDockerImage : ServiceConfig → string → option string;
  (** [exec.LookPath(file)] finds the binary *)
  LookPath : string → bool;
  (** [exec.Command("git", args...)] run in directory [dir]: its output *)
  git : list string → string → result string;
  (** [os.Getenv(key)] *)
  Getenv : string → string;
}.

(** ** The cluster clients, as [Deploy] and [Undeploy] use them *)

Module cluster.

(** The control plane, over an abstract cluster state [W].  An item of a
    listing is represented by its [ObjectMeta] (the callers read its labels
    only).  [List] returns, like the Go clients, a listing together with an
    error. *)
Record Cluster (W : Type) := {
  (** [k.GetKubernetesClient()]: the default namespace, or the error *)
  GetKubernetesClient : result string;
  (** [o.getOpenShiftClient()]: the error *)
  getOpenShiftClient : option string;
  (** [client.<Kind>s(namespace).Create(t)] *)
  Create : string → Object → W → W * option string;
  (** [client.<Kind>s(namespace).List(options)], [options] holding the selector *)
  List : Kind → string → gmap string string → W → list ObjectMeta * option string;
  (** [kubectl.ReaperFor(kind, client)]: the error *)
  ReaperFor : Kind → option string;
  (** [reaper.Stop(namespace, name, timeout, nil)], [timeout] in seconds *)
  Stop : Kind → string → string → Z → W → W * option string;
  (** [client.<Kind>s(namespace).Delete(name)] *)
  Delete : Kind → string → string → W → W * option string;
}.
Arguments GetKubernetesClient {W} _.
Arguments getOpenShiftClient {W} _.
Arguments Create {W} _ _ _ _.
Arguments List {W} _ _ _ _ _.
Arguments ReaperFor {W} _ _.
Arguments Stop {W} _ _ _ _ _ _.
Arguments Delete {W} _ _ _ _ _.

(** The requests sent to the control plane, with the error each returned.
    A removal request records the listed item in whose iteration it was
    sent; the request itself names the object of the graph ([t.Name]). *)
Inductive Event :=
| EvCreate (namespace : string) (obj : Object) (err : option string)
| EvList (kind : Kind) (namespace : string) (selector : gmap string string)
    (err : option string)
| EvReaperFor (kind : Kind) (listed : ObjectMeta) (err : option string)
| EvStop (kind : Kind) (namespace name : string) (timeout : Z)
    (listed : ObjectMeta) (err : option string)
| EvDelete (kind : Kind) (namespace name : string) (listed : ObjectMeta)
    (err : option string).

Definition eventError (ev : Event) : option string :=
  match ev with
  | EvCreate _ _ err | EvList _ _ _ err | EvReaperFor _ _ err
  | EvStop _ _ _ _ _ err | EvDelete _ _ _ _ err => err
  end.

(** The state of a run of [Undeploy]: the cluster, [errorList], and the
    requests sent so far. *)
Record run (W : Type) := {
  world : W;
  errorList : list string;
  trace : list Event;
}.
Arguments world {W} _.
Arguments errorList {W} _.
Arguments trace {W} _.

(** How a case of the type switch of [Undeploy] removes an object. *)
Inductive removal :=
| ByReaperFor (* [kubectl.ReaperFor], then [Stop] with [TIMEOUT] seconds *)
| ByReaper    (* a reaper made on the spot, then [Stop] with [TIMEOUT] seconds *)
| ByDelete.   (* the client's [Delete] *)

Section removal.
Context {W : Type} (c : Cluster W) (TIMEOUT : Z).

Definition record (st : run W) (w : W) (ev : Event) : run W :=
  {| world := w;
     errorList := errorList st ++ from_option (λ err, [err]) [] (eventError ev);
     trace := trace st ++ [ev] |}.

(** [for _, l := range items { if reflect.DeepEqual(l.Labels, komposeLabel) {...} }]:
    an error inside the loop ends the loop ([break]). *)
Fixpoint removeListed (how : removal) (kind : Kind) (namespace name : string)
    (komposeLabel : gmap string string) (items : list ObjectMeta) (st : run W)
    : run W :=
  match items with
  | [] => st
  | l :: items' =>
      if bool_decide (Labels l = komposeLabel)
      then
        match how with
        | ByReaperFor =>
            match ReaperFor c kind with
            | Some err => record st (world st) (EvReaperFor kind l (Some err))
            | None =>
                let st := record st (world st) (EvReaperFor kind l None) in
                let '(w, err) := Stop c kind namespace name TIMEOUT (world st) in
                let st := record st w (EvStop kind namespace name TIMEOUT l err) in
                match err with
                | Some _ => st
                | None => removeListed how kind namespace name komposeLabel items' st
                end
            end
        | ByReaper =>
            let '(w, err) := Stop c kind namespace name TIMEOUT (world st) in
            let st := record st w (EvStop kind namespace name TIMEOUT l err) in
            match err with
            | Some _ => st
            | None => removeListed how kind namespace name komposeLabel items' st
            end
        | ByDelete =>
            let '(w, err) := Delete c kind namespace name (world st) in
            let st := record st w (EvDelete kind namespace name l err) in
            match err with
            | Some _ => st
            | None => removeListed how kind namespace name komposeLabel items' st
            end
        end
      else removeListed how kind namespace name komposeLabel items' st
  end.

(** One iteration of the loop of [Undeploy] over the graph.  [cases] is
    the type switch: for a kind it handles, how the kind is removed and
    whether a failed listing leaves the case ([break]) before the listed
    items are ranged over. *)
Definition undeployObject (cases : Kind → option (removal * bool))
    (namespace : string) (st : run W) (v : Object) : run W :=
  let selector := {[ transformer.Selector := GetName v ]} in
  let komposeLabel : gmap string string :=
    {[ transformer.Selector := GetName v ]} in
  match cases (kindOf v) with
  | None => st
  | Some (how, breakOnListError) =>
      let '(items, err) := List c (kindOf v) namespace selector (world st) in
      let st := record st (world st) (EvList (kindOf v) namespace selector err) in
      match err with
      | Some _ =>
          if breakOnListError then st
          else removeListed how (kindOf v) namespace (GetName v) komposeLabel items st
      | None =>
          removeListed how (kindOf v) namespace (GetName v) komposeLabel items st
      end
  end.

Definition undeployLoop (cases : Kind → option (removal * bool))
    (namespace : string) (objects : list Object) (st : run W) : run W :=
  foldl (undeployObject cases namespace) st objects.

(** The loop of [Deploy]: the first error ends it.  [creates] is the type
    switch: the kinds that have a case. *)
Fixpoint deployLoop (creates : Kind → bool) (namespace : string)
    (objects : list Object) (w : W) (sent : list Event)
    : W * list Event * option string :=
  match objects with
  | [] => (w, sent, None)
  | v :: rest =>
      if creates (kindOf v)
      then
        let '(w, err) := Create c namespace v w in
        let sent := sent ++ [EvCreate namespace v err] in
        match err with
        | Some e => (w, sent, Some e)
        | None => deployLoop creates namespace rest w sent
        end
      else deployLoop creates namespace rest w sent
  end.
End removal.

End cluster.
Import cluster.

(** ** [pkg/transformer/kubernetes] *)

Module kubernetes.

Record Kubernetes := { Opt : ConvertOptions }.

Definition TIMEOUT : Z := 300.
Definition PVCRequestSize : string := "100Mi".

Definition InitPodSpec (k : Kubernetes) (name image : string) : PodSpec :=
  {| Containers := [ {| cName := name; cImage := image; cEnv := [];
                        cPorts := []; cVolumeMounts := [] |} ];
     PodVolumes := [] |}.

(** The zero [api.ObjectMeta]. *)
Definition ObjectMeta_zero : ObjectMeta := {| Name := ""; Labels := ∅ |}.

Definition InitRC (k : Kubernetes) (name : string) (service : ServiceConfig)
    (replicas : Z) : Object :=
  ReplicationController
    {| Name := name; Labels := transformer.ConfigLabels name |}
    (int32 replicas)
    (Some {| tMeta := {| Name := ""; Labels := transformer.ConfigLabels name |};
             tSpec := InitPodSpec k name (Image service) |}).

Definition InitSvc (k : Kubernetes) (name : string) (service : ServiceConfig)
    : ServiceObj :=
  {| svcMeta := {| Name := name; Labels := transformer.ConfigLabels name |};
     svcSpec := {| Ports := []; Selector := transformer.ConfigLabels name;
                   ClusterIP := "" |} |}.

Definition InitD (k : Kubernetes) (name : string) (service : ServiceConfig)
    (replicas : Z) : Object :=
  Deployment
    {| Name := name; Labels := transformer.ConfigLabels name |}
    (int32 replicas)
    {| tMeta := ObjectMeta_zero; tSpec := InitPodSpec k name (Image service) |}.

Definition InitDS (k : Kubernetes) (name : string) (service : ServiceConfig)
    : Object :=
  DaemonSet
    {| Name := name; Labels := transformer.ConfigLabels name |}
    {| tMeta := ObjectMeta_zero; tSpec := InitPodSpec k name (Image service) |}.

Definition initIngress (k : Kubernetes) (name : string) (service : ServiceConfig)
    (port : Z) : Object :=
  Ingress
    {| Name := name; Labels := transformer.ConfigLabels name |}
    (if negb (String.eqb (ExposeService service) "true")
     then ExposeService service else "")
    name
    {| IntVal := port; StrVal := "" |}.

(** [resource.ParseQuantity] is applied to the constant [PVCRequestSize],
    which it parses; the claim keeps the size as written. *)
Definition CreatePVC (k : Kubernetes) (name mode : string) : outcome Object :=
  Ok (PersistentVolumeClaim
        {| Name := name; Labels := transformer.ConfigLabels name |}
        PVCRequestSize
        (if String.eqb mode "ro" then [ReadOnlyMany] else [ReadWriteOnce])).

Definition ConfigPorts (k : Kubernetes) (name : string) (service : ServiceConfig)
    : list ContainerPort :=
  foldl (λ ports port,
           if String.eqb (Protocol port) ProtocolTCP
           then ports ++ [ {| cpContainerPort := kobject.ContainerPort port;
                              cpProtocol := "";
                              cpHostIP := HostIP port |} ]
           else ports ++ [ {| cpContainerPort := kobject.ContainerPort port;
                              cpProtocol := Protocol port;
                              cpHostIP := HostIP port |} ])
        [] (Port service).

Definition ConfigServicePorts (k : Kubernetes) (name : string)
    (service : ServiceConfig) : list ServicePort :=
  foldl (λ servicePorts port,
           let hostPort :=
             if HostPort port =? 0 then kobject.ContainerPort port else HostPort port in
           let targetPort :=
             {| IntVal := kobject.ContainerPort port;
                StrVal := strings.Itoa (kobject.ContainerPort port) |} in
           if String.eqb (Protocol port) ProtocolTCP
           then servicePorts ++ [ {| spName := strings.Itoa hostPort;
                                     spProtocol := "";
                                     spPort := hostPort;
                                     spTargetPort := targetPort |} ]
           else servicePorts ++ [ {| spName := strings.Itoa hostPort;
                                     spProtocol := Protocol port;
                                     spPort := hostPort;
                                     spTargetPort := targetPort |} ])
        [] (Port service).

Definition ConfigEmptyVolumeSource (k : Kubernetes) (key : string) : VolumeSource :=
  if String.eqb key "tmpfs" then EmptyDir true else EmptyDir false.

Definition ConfigPVCVolumeSource (k : Kubernetes) (name : string) (readonly : bool)
    : VolumeSource :=
  PersistentVolumeClaimSource name readonly.

(** [fmt.Sprintf("%s-tmpfs%d", name, index)] *)
Definition ConfigTmpfs (k : Kubernetes) (name : string) (service : ServiceConfig)
    : list VolumeMount * list Volume :=
  foldl (λ '(volumeMounts, volumes) '(index, volume),
           let volumeName :=
             name +:+ "-tmpfs" +:+ strings.Itoa (Z.of_nat index) in
           (volumeMounts ++ [ {| vmName := volumeName; vmReadOnly := false;
                                 vmMountPath := volume |} ],
            volumes ++ [ {| volName := volumeName;
                            volSource := ConfigEmptyVolumeSource k "tmpfs" |} ]))
        ([], []) (imap pair (TmpFs service)).

(** The body of the loop of [ConfigVolumes], on the three result slices. *)
Definition ConfigVolumes_step (k : Kubernetes)
    (acc : list VolumeMount * list Volume * list Object) (volume : VolumesEntry)
    : outcome (list VolumeMount * list Volume * list Object) :=
  let '(volumeMounts, volumes, PVCs) := acc in
  let useEmptyVolumes := EmptyVols (Opt k) in
  let readonly :=
    (0 <? String.length (Mode volume))%nat && String.eqb (Mode volume) "ro" in
  let volumeName :=
    if String.eqb (VolumeName volume) ""
    then if useEmptyVolumes
         then strings.Replace1 (PVCName volume) "claim" "empty"
         else PVCName volume
    else VolumeName volume in
  let volmount := {| vmName := volumeName; vmReadOnly := readonly;
                     vmMountPath := kobject.Container volume |} in
  let volumeMounts := volumeMounts ++ [volmount] in
  '(volsource, PVCs) ←
    (if useEmptyVolumes
     then Ok (ConfigEmptyVolumeSource k "volume", PVCs)
     else
       let volsource := ConfigPVCVolumeSource k volumeName readonly in
       if String.eqb (VFrom volume) ""
       then match CreatePVC k volumeName (Mode volume) with
            | Ok createdPVC => Ok (volsource, PVCs ++ [createdPVC])
            | Error err => Error (Wrap err "k.CreatePVC failed")
            | Exit msg => Exit msg
            | Panic msg => Panic msg
            end
       else Ok (volsource, PVCs));
  Ok (volumeMounts,
      volumes ++ [ {| volName := volumeName; volSource := volsource |} ],
      PVCs).

Fixpoint ConfigVolumes_loop (k : Kubernetes)
    (acc : list VolumeMount * list Volume * list Object)
    (vols : list VolumesEntry)
    : outcome (list VolumeMount * list Volume * list Object) :=
  match vols with
  | [] => Ok acc
  | volume :: vols' =>
      acc' ← ConfigVolumes_step k acc volume;
      ConfigVolumes_loop k acc' vols'
  end.

Definition ConfigVolumes (k : Kubernetes) (name : string) (service : ServiceConfig)
    : outcome (list VolumeMount * list Volume * list Object) :=
  ConfigVolumes_loop k ([], [], []) (Volumes service).

Definition ConfigEnvs (k : Kubernetes) (name : string) (service : ServiceConfig)
    : list EnvVar :=
  transformer.EnvSort_Stable
    (foldl (λ envs v, envs ++ [ {| EnvName := EnvName v; EnvValue := EnvValue v |} ])
           [] (Environment service)).

Definition CreateKubernetesObjects (k : Kubernetes) (name : string)
    (service : ServiceConfig) (opt : ConvertOptions) : list Object :=
  let replica :=
    if IsReplicaSetFlag opt || (Replicas service =? 0)
    then Replicas_ opt else Replicas service in
  let objects := [] in
  let objects := if CreateD opt then objects ++ [InitD k name service replica]
                 else objects in
  let objects := if CreateDS opt then objects ++ [InitDS k name service]
                 else objects in
  let objects := if CreateRC opt then objects ++ [InitRC k name service replica]
                 else objects in
  objects.

Definition InitPod (k : Kubernetes) (name : string) (service : ServiceConfig)
    : Object :=
  Pod {| Name := name; Labels := transformer.ConfigLabels name |}
      (InitPodSpec k name (Image service)).

(** What a call [updateTemplate(p)] leaves.  The callback writes in place.
    [updated] is the template [p] points to after the call.  [aliased] is
    what the value that template was copied from shows after the call: its
    own fields are not written, but it shares the label map and the
    container and volume arrays with the copy, so that it shows the writes
    made into those.  [failure] is the error returned. *)
Record TemplateUpdate := {
  updated : PodTemplateSpec;
  aliased : PodTemplateSpec;
  failure : option string;
}.

(** [updateMeta] works in place too: here it returns the updated value.  The
    controllers hand [updateTemplate] a pointer to their own template, which
    holds what the call wrote whether it failed or not.  A Pod hands it a
    copy made of its metadata and its spec, and takes the copy back only
    after a call that did not fail. *)
Definition UpdateController (k : Kubernetes) (obj : Object)
    (updateTemplate : PodTemplateSpec → TemplateUpdate)
    (updateMeta : ObjectMeta → ObjectMeta) : Object * option string :=
  match obj with
  | ReplicationController meta replicas template =>
      let template :=
        match template with
        | None => {| tMeta := ObjectMeta_zero;
                     tSpec := {| Containers := []; PodVolumes := [] |} |}
        | Some t => t
        end in
      let u := updateTemplate template in
      match failure u with
      | Some err =>
          (ReplicationController meta replicas (Some (updated u)),
           Some (Wrap err "updateTemplate failed"))
      | None =>
          (ReplicationController (updateMeta meta) replicas (Some (updated u)), None)
      end
  | Deployment meta replicas template =>
      let u := updateTemplate template in
      match failure u with
      | Some err =>
          (Deployment meta replicas (updated u), Some (Wrap err "updateTemplate failed"))
      | None => (Deployment (updateMeta meta) replicas (updated u), None)
      end
  | DaemonSet meta template =>
      let u := updateTemplate template in
      match failure u with
      | Some err =>
          (DaemonSet meta (updated u), Some (Wrap err "updateTemplate failed"))
      | None => (DaemonSet (updateMeta meta) (updated u), None)
      end
  | DeploymentConfig meta replicas selector template names from =>
      let u := updateTemplate template in
      match failure u with
      | Some err =>
          (DeploymentConfig meta replicas selector (updated u) names from,
           Some (Wrap err "updateTemplate failed"))
      | None =>
          (DeploymentConfig (updateMeta meta) replicas selector (updated u) names from,
           None)
      end
  | Pod meta spec =>
      let p := {| tMeta := meta; tSpec := spec |} in
      let u := updateTemplate p in
      match failure u with
      | Some err =>
          (Pod (tMeta (aliased u)) (tSpec (aliased u)),
           Some (Wrap err "updateTemplate failed"))
      | None => (Pod (tMeta (updated u)) (tSpec (updated u)), None)
      end
  | BuildConfig meta gitRef gitURI contextDir dockerfilePath env outputTo =>
      (BuildConfig (updateMeta meta) gitRef gitURI contextDir dockerfilePath env
         outputTo, None)
  | _ => (obj, None)
  end.

(** *** Helpers of the package that live in its utilities file *)

(** Modelled from the spec: [SortedKeys], the service names in lexicographic
    order ("iteration order is lexicographic over names"). *)
Definition SortedKeys (komposeObject : KomposeObject) : list string :=
  transformer.stable_sort String.leb (map_to_list (ServiceConfigs komposeObject)).*1.

(** Modelled from the spec: [PortsExist], "the service declares at least one
    port". *)
Definition PortsExist (k : Kubernetes) (name : string) (service : ServiceConfig)
    : bool :=
  negb (length (Port service) =? 0)%nat.

(** Modelled from the spec: [CreateService], the addressed exposure object,
    with the port entries of [ConfigServicePorts]. *)
Definition CreateService (k : Kubernetes) (name : string) (service : ServiceConfig)
    (objects : list Object) : ServiceObj :=
  let svc := InitSvc k name service in
  {| svcMeta := svcMeta svc;
     svcSpec := {| Ports := ConfigServicePorts k name service;
                   Selector := Selector (svcSpec svc);
                   ClusterIP := ClusterIP (svcSpec svc) |} |}.

(** Modelled from the spec: [CreateHeadlessService], the headless exposure
    object: "selector only, no port entries". *)
Definition CreateHeadlessService (k : Kubernetes) (name : string)
    (service : ServiceConfig) (objects : list Object) : ServiceObj :=
  let svc := InitSvc k name service in
  {| svcMeta := svcMeta svc;
     svcSpec := {| Ports := [];
                   Selector := Selector (svcSpec svc);
                   ClusterIP := "None" |} |}.

(** Modelled from the spec: [UpdateKubernetesObjects], which completes the
    objects of one service: the pod template of every workload object gets
    the service's environment, ports, volume mounts and volumes, and one
    storage claim per mount, as [ConfigVolumes] returns them, is appended
    (the test fixture lists a service's claims after its other objects). *)
Definition UpdateKubernetesObjects (k : Kubernetes) (name : string)
    (service : ServiceConfig) (objects : list Object) : list Object :=
  let envs := ConfigEnvs k name service in
  match ConfigVolumes k name service with
  | Ok (volumesMount, volumes, pvc) =>
      let '(tmpfsMounts, tmpfsVolumes) := ConfigTmpfs k name service in
      let volumesMount := volumesMount ++ tmpfsMounts in
      let volumes := volumes ++ tmpfsVolumes in
      let objects := objects ++ pvc in
      let ports := ConfigPorts k name service in
      let fillTemplate (template : PodTemplateSpec) :=
        let containers :=
          match Containers (tSpec template) with
          | [] => []
          | c :: cs =>
              {| cName := cName c; cImage := cImage c; cEnv := envs;
                 cPorts := ports; cVolumeMounts := volumesMount |} :: cs
          end in
        {| updated :=
             {| tMeta := {| Name := Name (tMeta template);
                            Labels := transformer.ConfigLabels name |};
                tSpec := {| Containers := containers; PodVolumes := volumes |} |};
           aliased :=
             {| tMeta := tMeta template;
                tSpec := {| Containers := containers;
                            PodVolumes := PodVolumes (tSpec template) |} |};
           failure := None |} in
      let fillObjectMeta (meta : ObjectMeta) := meta in
      (λ obj, (UpdateController k obj fillTemplate fillObjectMeta).1) <$> objects
  | _ => objects
  end.

(** The objects the ordering pass moves to the front: "network-exposure-and-
    route-and-ingress objects". *)
Definition isExposure (o : Object) : bool :=
  match kindOf o with
  | KService | KRoute | KIngress => true
  | _ => false
  end.

(** Modelled from the spec: [SortServicesFirst], the ordering pass: "stable
    partition of the full object graph into two groups,
    network-exposure-and-route-and-ingress objects first, everything else
    second, preserving relative order within each group". *)
Definition SortServicesFirst (k : Kubernetes) (objs : list Object) : list Object :=
  filter (λ o, isExposure o = true) objs ++ filter (λ o, isExposure o = false) objs.

(** *** [Transform] *)

Definition podOnly (service : ServiceConfig) : bool :=
  String.eqb (Restart service) "no" || String.eqb (Restart service) "on-failure".

(** The build-and-push step at the head of the loop body. *)
Definition buildLocal (h : Collaborators) (opt : ConvertOptions) (name : string)
    (service : ServiceConfig) : outcome () :=
  if String.eqb (Build_ opt) "local" && bool_decide (InputFiles opt ≠ None)
     && negb (String.eqb (Build service) "")
  then
    if String.eqb (Image service) ""
    then Error ("image key required within build parameters in order to build and push service '"
                +:+ name +:+ "'")
    else
      composeFileDir ← lift (GetComposeFileDir h (InputFiles opt));
      match BuildDockerImage h service name composeFileDir with
      | Some err => Error (Wrap err ("Unable to build Docker image for service " +:+ name))
      | None =>
          match PushDockerImage h service name with
          | Some err => Error (Wrap err ("Unable to push Docker image for service " +:+ name))
          | None => Ok ()
          end
      end
  else Ok ().

(** One iteration of the loop of [Transform]: the objects of one service. *)
Definition transformService (k : Kubernetes) (h : Collaborators) (opt : ConvertOptions)
    (name : string) (service : ServiceConfig) : outcome (list Object) :=
  _ ← buildLocal h opt name service;
  let service :=
    if String.eqb (Image service) "" then withImage service name else service in
  objects ←
    (if podOnly service
     then
       if IsDeploymentFlag opt || IsDaemonSetFlag opt || IsReplicationControllerFlag opt
       then Error "Controller object cannot be specified with restart: 'on-failure'"
       else Ok ([] ++ [InitPod k name service])
     else
       let objects := CreateKubernetesObjects k name service opt in
       if PortsExist k name service
       then
         let svc := CreateService k name service objects in
         let objects := objects ++ [Service svc] in
         if negb (String.eqb (ExposeService service) "")
         then match Ports (svcSpec svc) with
              | port0 :: _ => Ok (objects ++ [initIngress k name service (spPort port0)])
              | [] => Panic "index out of range"
              end
         else Ok objects
       else
         let svc := CreateHeadlessService k name service objects in
         Ok (objects ++ [Service svc]));
  Ok (UpdateKubernetesObjects k name service objects).

Fixpoint transformLoop (k : Kubernetes) (h : Collaborators) (komposeObject : KomposeObject)
    (opt : ConvertOptions) (sortedKeys : list string) (allobjects : list Object)
    : outcome (list Object) :=
  match sortedKeys with
  | [] => Ok allobjects
  | name :: rest =>
      let service := default ServiceConfig_zero (ServiceConfigs komposeObject !! name) in
      objects ← transformService k h opt name service;
      transformLoop k h komposeObject opt rest (allobjects ++ objects)
  end.

Definition Transform (k : Kubernetes) (h : Collaborators) (komposeObject : KomposeObject)
    (opt : ConvertOptions) : outcome (list Object) :=
  allobjects ← transformLoop k h komposeObject opt (SortedKeys komposeObject) [];
  Ok (SortServicesFirst k allobjects).

(** *** [CheckUnsupportedKey] *)

(** A field of a service configuration as [structs] and [reflect] show it:
    its name, [IsExported], [IsZero], its length when its kind is
    [reflect.Slice], and its tag for a given tag key. *)
Record Field := {
  fieldName : string;
  IsExported : bool;
  IsZero : bool;
  sliceLen : option nat;
  Tag : string → string;
}.

(** The body of the loop over the fields: the keys found so far and the table
    of unsupported keys, which records the keys already seen. *)
Definition checkField (LoadedFrom : string) (acc : list string * gmap string bool)
    (f : Field) : list string * gmap string bool :=
  let '(keysFound, unsupportedKey) := acc in
  match unsupportedKey !! fieldName f with
  | Some false =>
      if IsExported f && negb (IsZero f)
      then
        match sliceLen f with
        | Some O => acc
        | _ => (keysFound ++ [Tag f LoadedFrom], <[fieldName f := true]> unsupportedKey)
        end
      else acc
  | _ => acc
  end.

(** The loops over the services, in the order [services] in which the range
    over the map visits them, and over their fields. *)
Definition checkServices (Fields : ServiceConfig → list Field) (LoadedFrom : string)
    (services : list ServiceConfig) (acc : list string * gmap string bool)
    : list string * gmap string bool :=
  foldl (λ acc serviceConfig, foldl (checkField LoadedFrom) acc (Fields serviceConfig))
        acc services.

(** [Fields] is [structs.New(serviceConfig).Fields()].  The table is updated in
    place in the source: here it is returned with the keys found. *)
Definition CheckUnsupportedKey (k : Kubernetes) (Fields : ServiceConfig → list Field)
    (komposeObject : KomposeObject) (unsupportedKey : gmap string bool)
    : list string * gmap string bool :=
  checkServices Fields (LoadedFrom komposeObject)
    (map_to_list (ServiceConfigs komposeObject)).*2 ([], unsupportedKey).

(** *** [Deploy] and [Undeploy] *)

(** The cases of the type switch of [Deploy]. *)
Definition creates (kind : Kind) : bool :=
  match kind with
  | KDeployment | KService | KPersistentVolumeClaim | KIngress | KPod => true
  | _ => false
  end.

(** What [Deploy] leaves: the cluster, the requests sent, and the error it
    returns. *)
Definition Deploy {W : Type} (k : Kubernetes) (h : Collaborators) (c : Cluster W)
    (komposeObject : KomposeObject) (opt : ConvertOptions) (w : W)
    : outcome (W * list Event * option string) :=
  match Transform k h komposeObject opt with
  | Error err => Ok (w, [], Some (Wrap err "k.Transform failed"))
  | Exit msg => Exit msg
  | Panic msg => Panic msg
  | Ok objects =>
      match GetKubernetesClient c with
      | Fail err => Ok (w, [], Some err)
      | Return ns =>
          let namespace := if IsNamespaceFlag opt then Namespace opt else ns in
          Ok (deployLoop c creates namespace objects w [])
      end
  end.

(** The cases of the type switch of [Undeploy]: the case of [*api.Pod] has
    no [break] after a failed listing. *)
Definition removes (kind : Kind) : option (removal * bool) :=
  match kind with
  | KDeployment => Some (ByReaperFor, true)
  | KService => Some (ByReaperFor, true)
  | KPersistentVolumeClaim => Some (ByDelete, true)
  | KIngress => Some (ByDelete, true)
  | KPod => Some (ByReaperFor, false)
  | _ => None
  end.

Definition Undeploy {W : Type} (k : Kubernetes) (h : Collaborators) (c : Cluster W)
    (komposeObject : KomposeObject) (opt : ConvertOptions) (w : W)
    : outcome (run W) :=
  let start := {| world := w; errorList := []; trace := [] |} in
  match Transform k h komposeObject opt with
  | Error err => Ok {| world := w; errorList := [] ++ [err]; trace := [] |}
  | Exit msg => Exit msg
  | Panic msg => Panic msg
  | Ok objects =>
      match GetKubernetesClient c with
      | Fail err => Ok {| world := w; errorList := [] ++ [err]; trace := [] |}
      | Return ns =>
          let namespace := if IsNamespaceFlag opt then Namespace opt else ns in
          Ok (undeployLoop c TIMEOUT removes namespace objects start)
      end
  end.

End kubernetes.

(** ** [pkg/transformer/openshift] *)

Module openshift.

(** The embedded [kubernetes.Kubernetes], whose methods [OpenShift] inherits. *)
Record OpenShift := { Kubernetes : kubernetes.Kubernetes }.

Definition TIMEOUT : Z := 300.

Definition getImageTag (image : string) : string :=
  let imageAndTag := image in
  let i := strings.Split image "/" in
  let imageAndTag :=
    if (2 <=? length i)%nat then List.nth (length i - 1) i "" else imageAndTag in
  let p := strings.Split imageAndTag ":" in
  if (length p =? 2)%nat then List.nth 1 p "" else "latest".

Definition hasGitBinary (h : Collaborators) : bool := LookPath h "git".

Definition newline : ascii := "010".

Definition getGitCurrentRemoteURL (h : Collaborators) (composeFileDir : string)
    : result string :=
  match git h ["ls-remote"; "--get-url"] composeFileDir with
  | Fail err => Fail err
  | Return out =>
      let url := strings.TrimRight out newline in
      let url := if negb (strings.HasSuffix url ".git") then url +:+ ".git" else url in
      Return url
  end.

Definition getGitCurrentBranch (h : Collaborators) (composeFileDir : string)
    : result string :=
  match git h ["rev-parse"; "--abbrev-ref"; "HEAD"] composeFileDir with
  | Fail err => Fail err
  | Return out => Return (strings.TrimRight out newline)
  end.

Definition getAbsBuildContext (h : Collaborators) (context : string) : result string :=
  match git h ["rev-parse"; "--show-prefix"] context with
  | Fail err => Fail err
  | Return out => Return (strings.Trim out newline)
  end.

Definition initImageStream (o : OpenShift) (name : string) (service : ServiceConfig)
    (opt : ConvertOptions) : Object :=
  let tag := getImageTag (Image service) in
  let importPolicy := InsecureRepository opt in
  let tags : gmap string (string * bool) :=
    if negb (String.eqb (Build service) "")
       || negb (String.eqb (Build_ opt) "build-config")
    then {[ tag := (Image service, importPolicy) ]}
    else ∅ in
  ImageStream {| Name := name; Labels := transformer.ConfigLabels name |} tags.

(** The build-argument value that stands for "take it from the environment". *)
Definition inheritMarker : string := String "000" "".

(** The build arguments are a map with pointer values; ranging over it goes
    in an unspecified order, and the names being distinct, the sorted list
    does not depend on it. *)
Definition initBuildConfig (h : Collaborators) (name : string) (service : ServiceConfig)
    (repo branch : string) : outcome Object :=
  let contextDir := getAbsBuildContext h (Build service) in
  let envList :=
    foldl (λ envList '(envName, envValue),
             let envValue :=
               if String.eqb envValue inheritMarker then Getenv h envName
               else envValue in
             envList ++ [ {| EnvName := envName; EnvValue := envValue |} ])
          [] (map_to_list (BuildArgs service)) in
  let envList := transformer.EnvSort_Stable envList in
  match contextDir with
  | Fail err =>
      Error (Wrap err (name +:+ "buildconfig cannot be created due to error in creating build context, getAbsBuildContext failed"))
  | Return contextDir =>
      Ok (BuildConfig
            {| Name := name; Labels := transformer.ConfigLabels name |}
            branch repo contextDir (Dockerfile service) envList
            (name +:+ ":" +:+ getImageTag (Image service)))
  end.

Definition initDeploymentConfig (o : OpenShift) (name : string)
    (service : ServiceConfig) (replicas : Z) : Object :=
  let containerName := [name] in
  let tag := getImageTag (Image service) in
  let containerName :=
    if negb (String.eqb (ContainerName service) "")
    then [ContainerName service] else containerName in
  DeploymentConfig
    {| Name := name; Labels := transformer.ConfigLabels name |}
    (int32 replicas)
    (transformer.ConfigLabels name)
    {| tMeta := {| Name := ""; Labels := transformer.ConfigLabels name |};
       tSpec := kubernetes.InitPodSpec (Kubernetes o) name " " |}
    containerName
    (name +:+ ":" +:+ tag).

Definition initRoute (o : OpenShift) (name : string) (service : ServiceConfig)
    (port : Z) : Object :=
  Route
    {| Name := name; Labels := transformer.ConfigLabels name |}
    (if negb (String.eqb (ExposeService service) "true")
     then ExposeService service else "")
    {| IntVal := port; StrVal := "" |}
    name.

(** The variables of [Transform] that live across iterations of its loop. *)
Record loopVars := {
  allobjects : list Object;
  buildRepo : string;
  buildBranch : string;
}.

(** The build-and-push step: here a failed build or push ends the process. *)
Definition buildLocal (h : Collaborators) (opt : ConvertOptions) (name : string)
    (service : ServiceConfig) : outcome () :=
  if String.eqb (Build_ opt) "local" && bool_decide (InputFiles opt ≠ None)
     && negb (String.eqb (Build service) "")
  then
    if String.eqb (Image service) ""
    then Error ("image key required within build parameters in order to build and push service '"
                +:+ name +:+ "'")
    else
      composeFileDir ← lift (GetComposeFileDir h (InputFiles opt));
      match BuildDockerImage h service name composeFileDir with
      | Some err =>
          Exit ("Unable to build Docker container for service " +:+ name +:+ ": " +:+ err)
      | None =>
          match PushDockerImage h service name with
          | Some err =>
              Exit ("Unable to push Docker image for service " +:+ name +:+ ": " +:+ err)
          | None => Ok ()
          end
      end
  else Ok ().

(** The BuildConfig step of the loop body.  [None] is the [continue] of the
    source: the iteration ends there and the service's objects are dropped.
    Otherwise the objects, with the BuildConfig appended, and the new values
    of [buildRepo] and [buildBranch]. *)
Definition buildConfigStep (h : Collaborators) (opt : ConvertOptions) (name : string)
    (service : ServiceConfig) (objects : list Object) (buildRepo buildBranch : string)
    : outcome (option (list Object * string * string)) :=
  if negb (String.eqb (Build service) "") && String.eqb (Build_ opt) "build-config"
  then
    match GetComposeFileDir h (InputFiles opt) with
    | Fail _ => Ok None
    | Return composeFileDir =>
        if negb (hasGitBinary h)
           && (String.eqb buildRepo "" || String.eqb buildBranch "")
        then Error "Git is not installed! Please install Git to create buildconfig, else supply source repository and branch to use for build using '--build-repo', '--build-branch' options respectively"
        else
          buildBranch ←
            (if String.eqb buildBranch ""
             then match getGitCurrentBranch h composeFileDir with
                  | Fail err =>
                      Error (Wrap err "Buildconfig cannot be created because current git branch couldn't be detected.")
                  | Return branch => Ok branch
                  end
             else Ok buildBranch);
          buildRepo ←
            (if String.eqb (BuildRepo opt) ""
             then
               (* [err] is nil here: every call above returned without one *)
               match getGitCurrentRemoteURL h composeFileDir with
               | Fail err =>
                   Error (Wrap err "Buildconfig cannot be created because git remote origin repo couldn't be detected.")
               | Return url => Ok url
               end
             else Ok buildRepo);
          match initBuildConfig h name service buildRepo buildBranch with
          | Ok bc => Ok (Some (objects ++ [bc], buildRepo, buildBranch))
          | Error err => Error (Wrap err "initBuildConfig failed")
          | Exit msg => Exit msg
          | Panic msg => Panic msg
          end
    end
  else Ok (Some (objects, buildRepo, buildBranch)).

(** One iteration of the loop of [Transform]. *)
Definition transformService (o : OpenShift) (h : Collaborators) (opt : ConvertOptions)
    (name : string) (service : ServiceConfig) (vars : loopVars) : outcome loopVars :=
  let k := Kubernetes o in
  let replica :=
    if IsReplicaSetFlag opt || (Replicas service =? 0)
    then Replicas_ opt else Replicas service in
  _ ← buildLocal h opt name service;
  let service :=
    if String.eqb (Image service) "" then withImage service name else service in
  if kubernetes.podOnly service
  then
    if IsDeploymentConfigFlag opt
    then Error "Controller object cannot be specified with restart: 'on-failure'"
    else
      let objects := [] ++ [kubernetes.InitPod k name service] in
      Ok {| allobjects :=
              allobjects vars ++ kubernetes.UpdateKubernetesObjects k name service objects;
            buildRepo := buildRepo vars; buildBranch := buildBranch vars |}
  else
    let objects := kubernetes.CreateKubernetesObjects k name service opt in
    let objects :=
      if CreateDeploymentConfig opt
      then (objects ++ [initDeploymentConfig o name service replica])
             ++ [initImageStream o name service opt]
      else objects in
    step ← buildConfigStep h opt name service objects (buildRepo vars) (buildBranch vars);
    match step with
    | None => Ok vars
    | Some (objects, buildRepo', buildBranch') =>
        objects ←
          (if kubernetes.PortsExist k name service
           then
             let svc := kubernetes.CreateService k name service objects in
             let objects := objects ++ [Service svc] in
             if negb (String.eqb (ExposeService service) "")
             then match Ports (svcSpec svc) with
                  | port0 :: _ =>
                      Ok (objects ++ [initRoute o name service (spPort port0)])
                  | [] => Panic "index out of range"
                  end
             else Ok objects
           else
             let svc := kubernetes.CreateHeadlessService k name service objects in
             Ok (objects ++ [Service svc]));
        Ok {| allobjects :=
                allobjects vars ++ kubernetes.UpdateKubernetesObjects k name service objects;
              buildRepo := buildRepo'; buildBranch := buildBranch' |}
    end.

Fixpoint transformLoop (o : OpenShift) (h : Collaborators) (komposeObject : KomposeObject)
    (opt : ConvertOptions) (sortedKeys : list string) (vars : loopVars)
    : outcome loopVars :=
  match sortedKeys with
  | [] => Ok vars
  | name :: rest =>
      let service := default ServiceConfig_zero (ServiceConfigs komposeObject !! name) in
      vars' ← transformService o h opt name service vars;
      transformLoop o h komposeObject opt rest vars'
  end.

(** The warnings of [CheckUnsupportedKey] are log lines only. *)
Definition Transform (o : OpenShift) (h : Collaborators) (komposeObject : KomposeObject)
    (opt : ConvertOptions) : outcome (list Object) :=
  vars ← transformLoop o h komposeObject opt (kubernetes.SortedKeys komposeObject)
           {| allobjects := []; buildRepo := BuildRepo opt;
              buildBranch := BuildBranch opt |};
  Ok (kubernetes.SortServicesFirst (Kubernetes o) (allobjects vars)).

(** *** [Deploy] *)

(** The table of unsupported keys of this transformer. *)
Definition unsupportedKey : gmap string bool := ∅.

(** The cases of the type switch of [Deploy]. *)
Definition creates (kind : Kind) : bool :=
  match kind with
  | KImageStream | KBuildConfig | KDeploymentConfig | KService
  | KPersistentVolumeClaim | KRoute | KPod => true
  | _ => false
  end.

Definition Deploy {W : Type} (o : OpenShift) (h : Collaborators) (c : Cluster W)
    (komposeObject : KomposeObject) (opt : ConvertOptions) (w : W)
    : outcome (W * list Event * option string) :=
  match Transform o h komposeObject opt with
  | Error err => Ok (w, [], Some (Wrap err "o.Transform failed"))
  | Exit msg => Exit msg
  | Panic msg => Panic msg
  | Ok objects =>
      match getOpenShiftClient c with
      | Some err => Ok (w, [], Some err)
      | None =>
          match GetKubernetesClient c with
          | Fail err => Ok (w, [], Some err)
          | Return ns =>
              let namespace := if IsNamespaceFlag opt then Namespace opt else ns in
              Ok (deployLoop c creates namespace objects w [])
          end
      end
  end.

(** *** [Undeploy] *)

(** The cases of the type switch of [Undeploy]. *)
Definition removes (kind : Kind) : option (removal * bool) :=
  match kind with
  | KImageStream => Some (ByDelete, true)
  | KBuildConfig => Some (ByReaper, true)
  | KDeploymentConfig => Some (ByReaper, true)
  | KService => Some (ByReaperFor, true)
  | KPersistentVolumeClaim => Some (ByDelete, true)
  | KRoute => Some (ByDelete, true)
  | KPod => Some (ByReaperFor, true)
  | _ => None
  end.

Definition Undeploy {W : Type} (o : OpenShift) (h : Collaborators) (c : Cluster W)
    (komposeObject : KomposeObject) (opt : ConvertOptions) (w : W)
    : outcome (run W) :=
  let start := {| world := w; errorList := []; trace := [] |} in
  match Transform o h komposeObject opt with
  | Error err => Ok {| world := w; errorList := [] ++ [err]; trace := [] |}
  | Exit msg => Exit msg
  | Panic msg => Panic msg
  | Ok objects =>
      match getOpenShiftClient c with
      | Some err => Ok {| world := w; errorList := [] ++ [err]; trace := [] |}
      | None =>
          match GetKubernetesClient c with
          | Fail err => Ok {| world := w; errorList := [] ++ [err]; trace := [] |}
          | Return ns =>
              let namespace := if IsNamespaceFlag opt then Namespace opt else ns in
              Ok (undeployLoop c TIMEOUT removes namespace objects start)
          end
      end
  end.

End openshift.

(** ** Sample inputs *)

Module sample.

Definition options (build : string) : ConvertOptions :=
  {| CreateD := true; CreateRC := false; CreateDS := false;
     CreateDeploymentConfig := true; Build_ := build; BuildRepo := "";
     BuildBranch := ""; EmptyVols := false; InsecureRepository := false;
     Replicas_ := 1; InputFiles := Some ["docker-compose.yml"]; Namespace := "";
     IsDeploymentFlag := false; IsDaemonSetFlag := false;
     IsReplicationControllerFlag := false; IsDeploymentConfigFlag := false;
     IsReplicaSetFlag := false; IsNamespaceFlag := false |}.

Definition service (image restart expose build : string)
    (ports : list kobject.Ports) (volumes : list VolumesEntry) : ServiceConfig :=
  {| ContainerName := ""; Image := image; Environment := []; Port := ports;
     Build := build; BuildArgs := ∅; Dockerfile := ""; ExposeService := expose;
     Restart := restart; Replicas := 0; Volumes := volumes; TmpFs := [];
     CapAdd := []; CapDrop := [] |}.

Definition port (host container : Z) : kobject.Ports :=
  {| HostPort := host; kobject.ContainerPort := container; HostIP := "";
     Protocol := "TCP" |}.

Definition volume (claim path : string) : VolumesEntry :=
  {| VolumeName := ""; Host := ""; kobject.Container := path; Mode := "";
     PVCName := claim; VFrom := "" |}.

Definition model (services : list (string * ServiceConfig)) : KomposeObject :=
  {| ServiceConfigs := list_to_map services; LoadedFrom := "compose" |}.

(** A host where git and docker work; [dirFails] makes the lookup of the
    compose file's directory fail. *)
Definition host (dirFails : bool) : Collaborators :=
  {| GetComposeFileDir := λ _, if dirFails then Fail "getwd failed" else Return "/app";
     BuildDockerImage := λ _ _ _, None;
     PushDockerImage := λ _ _, None;
     LookPath := λ _, true;
     git := λ args _, Return (String.concat " " args +:+ String "010" "");
     Getenv := λ _, "" |}.

Definition k : kubernetes.Kubernetes := {| kubernetes.Opt := options "none" |}.
Definition o : openshift.OpenShift := {| openshift.Kubernetes := k |}.

(** Options that force a controller kind on either platform. *)
Definition forcing : ConvertOptions :=
  {| CreateD := true; CreateRC := false; CreateDS := false;
     CreateDeploymentConfig := true; Build_ := "none"; BuildRepo := "";
     BuildBranch := ""; EmptyVols := false; InsecureRepository := false;
     Replicas_ := 1; InputFiles := Some ["docker-compose.yml"]; Namespace := "";
     IsDeploymentFlag := true; IsDaemonSetFlag := false;
     IsReplicationControllerFlag := false; IsDeploymentConfigFlag := true;
     IsReplicaSetFlag := false; IsNamespaceFlag := false |}.

(** Options that ask for a replication controller and a daemon set. *)
Definition controllers : ConvertOptions :=
  {| CreateD := false; CreateRC := true; CreateDS := true;
     CreateDeploymentConfig := false; Build_ := "none"; BuildRepo := "";
     BuildBranch := ""; EmptyVols := false; InsecureRepository := false;
     Replicas_ := 1; InputFiles := Some ["docker-compose.yml"]; Namespace := "";
     IsDeploymentFlag := false; IsDaemonSetFlag := true;
     IsReplicationControllerFlag := true; IsDeploymentConfigFlag := false;
     IsReplicaSetFlag := false; IsNamespaceFlag := false |}.

(** A small control plane: the live objects, by kind.  A listing returns the
    objects of the kind whose labels include the selector; a removal takes
    away the object of that kind and name; [broken] makes every listing and
    removal of that kind fail. *)
Definition live : Type := list (Kind * ObjectMeta).

Definition controlPlane (broken : list Kind) : Cluster live :=
  let failure (kind : Kind) : option string :=
    if bool_decide (kind ∈ broken) then Some "server error" else None in
  {| GetKubernetesClient := Return "default";
     getOpenShiftClient := None;
     Create := λ namespace obj w, (w ++ [(kindOf obj, metaOf obj)], None);
     List := λ kind namespace selector w,
       ((filter (λ l : Kind * ObjectMeta, l.1 = kind ∧ selector ⊆ Labels l.2) w).*2,
        failure kind);
     ReaperFor := λ kind, None;
     Stop := λ kind namespace name timeout w,
       (if bool_decide (kind ∈ broken) then w
        else filter (λ l : Kind * ObjectMeta, ¬ (l.1 = kind ∧ Name l.2 = name)) w,
        failure kind);
     Delete := λ kind namespace name w,
       (if bool_decide (kind ∈ broken) then w
        else filter (λ l : Kind * ObjectMeta, ¬ (l.1 = kind ∧ Name l.2 = name)) w,
        failure kind) |}.

(** A cluster where "web" was deployed, and where another Service carries
    the label of "web" among others. *)
Definition deployed : live :=
  [ (KService, {| Name := "web"; Labels := transformer.ConfigLabels "web" |});
    (KService, {| Name := "web-blue";
                  Labels := <["tier" := "blue"]> (transformer.ConfigLabels "web") |});
    (KDeployment, {| Name := "web"; Labels := transformer.ConfigLabels "web" |}) ].

Definition web : ServiceConfig :=
  service "nginx" "always" "true" "" [port 0 80; port 8443 443] [].
Definition worker : ServiceConfig :=
  service "busybox" "on-failure" "" "" [] [volume "worker-claim0" "/data"].
Definition db : ServiceConfig :=
  service "mariadb:10" "always" "" "" [] [volume "db-claim0" "/var/lib/mysql"].

End sample.

(** * Vocabulary of the properties *)

(** ** Image tags, port entries and storage claims, as the specification
    words them *)

Module tag_spec.

(** The number of occurrences of a byte. *)
Fixpoint count (c : ascii) (s : string) : nat :=
  match s with
  | EmptyString => 0
  | String a s' => ((if Ascii.eqb a c then 1 else 0) + count c s')%nat
  end.

(** The substring after the last occurrence of [c]; all of [s] when [c]
    does not occur: for "/", the last slash-separated segment. *)
Fixpoint afterLast (c : ascii) (s : string) : string :=
  match s with
  | EmptyString => EmptyString
  | String a s' =>
      if (0 <? count c s')%nat then afterLast c s'
      else if Ascii.eqb a c then s' else s
  end.

(** The tag as the specification words it: "the substring after the last
    colon of the last slash-separated segment when that segment contains
    exactly one colon, and latest otherwise". *)
Definition imageTag (image : string) : string :=
  let segment := afterLast "/" image in
  if (count ":" segment =? 1)%nat then afterLast ":" segment else "latest".

End tag_spec.
Import tag_spec.

Module port_spec.

(** The host port of a mapping, "defaulting to the container port when the
    declared host port is 0". *)
Definition resolvedHostPort (port : kobject.Ports) : Z :=
  if HostPort port =? 0 then kobject.ContainerPort port else HostPort port.

(** The port entry of a declared port: named by the resolved host port, the
    protocol left out when it is TCP. *)
Definition servicePortFor (port : kobject.Ports) : ServicePort :=
  {| spName := strings.Itoa (resolvedHostPort port);
     spProtocol := if String.eqb (Protocol port) "TCP" then "" else Protocol port;
     spPort := resolvedHostPort port;
     spTargetPort := {| IntVal := kobject.ContainerPort port;
                        StrVal := strings.Itoa (kobject.ContainerPort port) |} |}.

(** The storage claims of a service: none in empty-volume mode, else one per
    mount that does not use another service's claim. *)
Definition claimName (volume : VolumesEntry) : string :=
  if String.eqb (VolumeName volume) "" then PVCName volume else VolumeName volume.

Definition claimFor (volume : VolumesEntry) : Object :=
  PersistentVolumeClaim
    {| Name := claimName volume;
       Labels := transformer.ConfigLabels (claimName volume) |}
    kubernetes.PVCRequestSize
    (if String.eqb (Mode volume) "ro" then [ReadOnlyMany] else [ReadWriteOnce]).

Definition claims (k : kubernetes.Kubernetes) (service : ServiceConfig)
    : list Object :=
  if EmptyVols (kubernetes.Opt k) then []
  else claimFor <$> filter (λ volume, VFrom volume = "") (Volumes service).

End port_spec.
Import port_spec.

(** ** The two platforms and their loops *)

(** The configuration the loop reads for a key. *)
Definition configOf (komposeObject : KomposeObject) (name : string) : ServiceConfig :=
  default ServiceConfig_zero (ServiceConfigs komposeObject !! name).

(** The objects one iteration of the OpenShift loop appends. *)
Definition appends (o : openshift.OpenShift) (h : Collaborators) (opt : ConvertOptions)
    (name : string) (service : ServiceConfig) (os : list Object) : Prop :=
  ∃ vars vars',
    openshift.transformService o h opt name service vars = Ok vars'
    ∧ openshift.allobjects vars' = openshift.allobjects vars ++ os.

Inductive platform :=
| onKubernetes (k : kubernetes.Kubernetes)
| onOpenShift (o : openshift.OpenShift).

Definition Transform (p : platform) (h : Collaborators)
    (komposeObject : KomposeObject) (opt : ConvertOptions) : outcome (list Object) :=
  match p with
  | onKubernetes k => kubernetes.Transform k h komposeObject opt
  | onOpenShift o => openshift.Transform o h komposeObject opt
  end.

(** The kinds of the objects of a graph, in order. *)
Definition kinds (graph : outcome (list Object)) : outcome (list Kind) :=
  (λ objs : list Object, kindOf <$> objs) <$> graph.

(** The receiver of the inherited methods. *)
Definition receiver (p : platform) : kubernetes.Kubernetes :=
  match p with
  | onKubernetes k => k
  | onOpenShift o => openshift.Kubernetes o
  end.

(** [os] is what an iteration of the loop of [Transform], run for the service
    [name], appends to the graph. *)
Definition emits (p : platform) (h : Collaborators) (opt : ConvertOptions)
    (name : string) (service : ServiceConfig) (os : list Object) : Prop :=
  match p with
  | onKubernetes k => kubernetes.transformService k h opt name service = Ok os
  | onOpenShift o => appends o h opt name service os
  end.

(** ** Ordering and exposure *)

(** Every exposure, route or ingress object sits at a smaller index than
    every other object. *)
Definition servicesFirst (objs : list Object) : Prop :=
  ∀ i j x y,
    objs !! i = Some x → objs !! j = Some y →
    kubernetes.isExposure x = true → kubernetes.isExposure y = false →
    (i < j)%nat.

(** [objs] is the stable partition of [emitted]: the exposure, route and
    ingress objects in the order of [emitted], then the others in that
    order. *)
Definition stablePartition (emitted objs : list Object) : Prop :=
  objs = filter (λ x, kubernetes.isExposure x = true) emitted
         ++ filter (λ x, kubernetes.isExposure x = false) emitted.

Module exposure_spec.

(** The exposure object of a service: addressed when it declares a port,
    headless when it declares none. *)
Definition exposureFor (k : kubernetes.Kubernetes) (name : string)
    (service : ServiceConfig) : ServiceObj :=
  if kubernetes.PortsExist k name service
  then kubernetes.CreateService k name service []
  else kubernetes.CreateHeadlessService k name service [].

(** The ingress (Kubernetes) or route (OpenShift) of a service. *)
Definition routeFor (p : platform) (name : string) (service : ServiceConfig)
    (port : Z) : Object :=
  match p with
  | onKubernetes k => kubernetes.initIngress k name service port
  | onOpenShift o => openshift.initRoute o name service port
  end.

Definition routeKind (p : platform) : Kind :=
  match p with
  | onKubernetes _ => KIngress
  | onOpenShift _ => KRoute
  end.

(** The iteration for the service ends at the [continue] of the OpenShift
    loop: a BuildConfig is asked for and the directory of the compose file
    cannot be found. *)
Definition skipped (p : platform) (h : Collaborators) (opt : ConvertOptions)
    (service : ServiceConfig) : bool :=
  match p with
  | onKubernetes _ => false
  | onOpenShift _ =>
      negb (kubernetes.podOnly service)
      && negb (String.eqb (Build service) "")
      && String.eqb (Build_ opt) "build-config"
      && match GetComposeFileDir h (InputFiles opt) with
         | Fail _ => true
         | Return _ => false
         end
  end.

(** The exposure, route and ingress objects of a service, in emission order. *)
Definition exposuresFor (p : platform) (h : Collaborators) (opt : ConvertOptions)
    (name : string) (service : ServiceConfig) : list Object :=
  if kubernetes.podOnly service || skipped p h opt service then []
  else
    Service (exposureFor (receiver p) name service)
    :: match Port service with
       | [] => []
       | port0 :: _ =>
           if String.eqb (ExposeService service) "" then []
           else [routeFor p name service (resolvedHostPort port0)]
       end.

End exposure_spec.
Import exposure_spec.

Abbreviation exposures := (filter (λ x : Object, kubernetes.isExposure x = true)).

(** An object of the given kind that carries the name of the service. *)
Definition ofService (kind : Kind) (name : string) (x : Object) : Prop :=
  kindOf x = kind ∧ GetName x = name.

Global Instance ofService_dec kind name x : Decision (ofService kind name x).
Proof. unfold ofService. apply _. Defined.

Definition routeHost (x : Object) : option string :=
  match x with
  | Ingress _ host _ _ | Route _ host _ _ => Some host
  | _ => None
  end.

Definition routePort (x : Object) : option Z :=
  match x with
  | Ingress _ _ _ port | Route _ _ port _ => Some (IntVal port)
  | _ => None
  end.

Definition routeBackend (x : Object) : option string :=
  match x with
  | Ingress _ _ backend _ | Route _ _ _ backend => Some backend
  | _ => None
  end.

(** ** Failure *)

(** The options force a controller kind. *)
Definition forced (p : platform) (opt : ConvertOptions) : bool :=
  match p with
  | onKubernetes _ =>
      IsDeploymentFlag opt || IsDaemonSetFlag opt || IsReplicationControllerFlag opt
  | onOpenShift _ => IsDeploymentConfigFlag opt
  end.

Definition buildLocal (p : platform) (h : Collaborators) (opt : ConvertOptions)
    (name : string) (service : ServiceConfig) : outcome () :=
  match p with
  | onKubernetes _ => kubernetes.buildLocal h opt name service
  | onOpenShift _ => openshift.buildLocal h opt name service
  end.

(** The ways [Transform] ends without a graph: it returns an error, or, on
    OpenShift, a failed build or push ends the process. *)
Definition fails {A : Type} (p : platform) (r : outcome A) : Prop :=
  (∃ err, r = Error err)
  ∨ (∃ o msg, p = onOpenShift o ∧ r = Exit msg).

Definition returnsOrFails {A : Type} (p : platform) (r : outcome A) : Prop :=
  (∃ a, r = Ok a) ∨ fails p r.

(** ** Requests to the cluster *)

(** [st'] continues [st]: it sent the requests [new] after those of [st], and
    appended exactly the errors these requests returned. *)
Definition continues {W : Type} (st st' : run W) (new : list Event) : Prop :=
  trace st' = trace st ++ new
  ∧ errorList st' = errorList st ++ omap eventError new.

(** What the iteration for the object [v] of the graph may send: a listing of
    its kind by the one-entry selector of its name, and removals of its kind
    and name in the iteration of a listed item whose label set is the
    one-entry set. *)
Definition requestFor (timeout : Z) (namespace : string) (v : Object) (ev : Event)
    : Prop :=
  match ev with
  | EvCreate _ _ _ => False
  | EvList kind ns selector _ =>
      kind = kindOf v ∧ ns = namespace
      ∧ selector = {[ transformer.Selector := GetName v ]}
  | EvReaperFor kind l _ =>
      kind = kindOf v ∧ Labels l = {[ transformer.Selector := GetName v ]}
  | EvStop kind ns name t l _ =>
      kind = kindOf v ∧ ns = namespace ∧ name = GetName v ∧ t = timeout
      ∧ Labels l = {[ transformer.Selector := GetName v ]}
  | EvDelete kind ns name l _ =>
      kind = kindOf v ∧ ns = namespace ∧ name = GetName v
      ∧ Labels l = {[ transformer.Selector := GetName v ]}
  end.

Definition Undeploy {W : Type} (p : platform) (h : Collaborators) (c : Cluster W)
    (komposeObject : KomposeObject) (opt : ConvertOptions) (w : W) : outcome (run W) :=
  match p with
  | onKubernetes k => kubernetes.Undeploy k h c komposeObject opt w
  | onOpenShift o => openshift.Undeploy o h c komposeObject opt w
  end.

Definition removes (p : platform) : Kind → option (removal * bool) :=
  match p with
  | onKubernetes _ => kubernetes.removes
  | onOpenShift _ => openshift.removes
  end.

(** The clients [Undeploy] needs are there, with default namespace [ns]. *)
Definition clientsReady {W : Type} (p : platform) (c : Cluster W) (ns : string) : Prop :=
  GetKubernetesClient c = Return ns
  ∧ match p with
    | onKubernetes _ => True
    | onOpenShift _ => getOpenShiftClient c = None
    end.

Definition namespaceOf (opt : ConvertOptions) (ns : string) : string :=
  if IsNamespaceFlag opt then Namespace opt else ns.

(** A removal request names an object of the graph and was sent for a listed
    item whose label set is the single-entry set of that name. *)
Definition removesExactItem (graph : outcome (list Object)) (ev : Event) : Prop :=
  match ev with
  | EvStop kind _ name _ l _ | EvDelete kind _ name l _ =>
      Labels l = {[ transformer.Selector := name ]}
      ∧ ∃ objs v, graph = Ok objs ∧ v ∈ objs ∧ kindOf v = kind ∧ GetName v = name
  | _ => True
  end.

(** The views of a run used in the examples: the live objects left, and the
    removal requests with the listed item each was sent for. *)
Definition remaining (r : outcome (run sample.live)) : list (Kind * string) :=
  match r with
  | Ok r => (λ l : Kind * ObjectMeta, (l.1, Name l.2)) <$> world r
  | _ => []
  end.

Definition removals {W : Type} (r : outcome (run W)) : list (Kind * string * string) :=
  match r with
  | Ok r =>
      omap (λ ev, match ev with
                  | EvStop kind _ name _ l _ | EvDelete kind _ name l _ =>
                      Some (kind, name, Name l)
                  | _ => None
                  end) (trace r)
  | _ => []
  end.

Definition errors {W : Type} (r : outcome (run W)) : list string :=
  match r with
  | Ok r => errorList r
  | _ => []
  end.

(** ** Vocabulary of the further properties *)

Module pod_spec.

(** The name [ConfigVolumes] gives the volume of a mount. *)
Definition volumeNameOf (k : kubernetes.Kubernetes) (volume : VolumesEntry) : string :=
  if String.eqb (VolumeName volume) ""
  then if EmptyVols (kubernetes.Opt k)
       then strings.Replace1 (PVCName volume) "claim" "empty"
       else PVCName volume
  else VolumeName volume.

(** A mount is read-only exactly when its mode is "ro". *)
Definition readOnly (volume : VolumesEntry) : bool := String.eqb (Mode volume) "ro".

Definition mountFor (k : kubernetes.Kubernetes) (volume : VolumesEntry) : VolumeMount :=
  {| vmName := volumeNameOf k volume; vmReadOnly := readOnly volume;
     vmMountPath := kobject.Container volume |}.

Definition volumeFor (k : kubernetes.Kubernetes) (volume : VolumesEntry) : Volume :=
  {| volName := volumeNameOf k volume;
     volSource := if EmptyVols (kubernetes.Opt k) then EmptyDir false
                  else PersistentVolumeClaimSource (volumeNameOf k volume)
                         (readOnly volume) |}.

(** The container port of a declared port: the protocol left out when it is
    TCP. *)
Definition containerPortFor (port : kobject.Ports) : ContainerPort :=
  {| cpContainerPort := kobject.ContainerPort port;
     cpProtocol := if String.eqb (Protocol port) "TCP" then "" else Protocol port;
     cpHostIP := HostIP port |}.

(** The name of the tmpfs volume at an index. *)
Definition tmpfsName (name : string) (index : nat) : string :=
  name +:+ "-tmpfs" +:+ strings.Itoa (Z.of_nat index).

End pod_spec.
Import pod_spec.

(** The order of environment variables: by name. *)
Definition byName (e1 e2 : EnvVar) : Prop := String.le (EnvName e1) (EnvName e2).


(** A callback that sets the label "tier" in place, in the label map it was
    handed, and fails. *)
Definition labelThenFail (template : PodTemplateSpec) : kubernetes.TemplateUpdate :=
  let written :=
    {| tMeta := {| Name := Name (tMeta template);
                   Labels := <["tier" := "blue"]> (Labels (tMeta template)) |};
       tSpec := tSpec template |} in
  {| kubernetes.updated := written; kubernetes.aliased := written;
     kubernetes.failure := Some "no such image" |}.

Definition Deploy {W : Type} (p : platform) (h : Collaborators) (c : Cluster W)
    (komposeObject : KomposeObject) (opt : ConvertOptions) (w : W)
    : outcome (W * list Event * option string) :=
  match p with
  | onKubernetes k => kubernetes.Deploy k h c komposeObject opt w
  | onOpenShift o => openshift.Deploy o h c komposeObject opt w
  end.

(** The object has a case in the type switch of [Deploy]. *)
Definition created (p : platform) (v : Object) : Prop :=
  match p with
  | onKubernetes _ => kubernetes.creates (kindOf v) = true
  | onOpenShift _ => openshift.creates (kindOf v) = true
  end.

Global Instance created_dec p v : Decision (created p v).
Proof. destruct p; simpl; apply _. Defined.

(** The objects of the create requests, in the order of the requests. *)
Definition requested (sent : list Event) : list Object :=
  omap (λ ev, match ev with EvCreate _ obj _ => Some obj | _ => None end) sent.

(** The message [Deploy] wraps a failure of [Transform] with. *)
Definition transformFailed (p : platform) : string :=
  match p with
  | onKubernetes _ => "k.Transform failed"
  | onOpenShift _ => "o.Transform failed"
  end.

(** A control plane with room for [limit] objects: a create request beyond
    that is refused. *)
Definition rationed (limit : nat) : Cluster sample.live :=
  {| GetKubernetesClient := GetKubernetesClient (sample.controlPlane []);
     getOpenShiftClient := getOpenShiftClient (sample.controlPlane []);
     Create := λ namespace obj w,
       if decide (length w < limit)%nat
       then Create (sample.controlPlane []) namespace obj w
       else (w, Some "quota exceeded");
     List := List (sample.controlPlane []);
     ReaperFor := ReaperFor (sample.controlPlane []);
     Stop := Stop (sample.controlPlane []);
     Delete := Delete (sample.controlPlane []) |}.

(** The object has a case in the type switch of [Undeploy]. *)
Definition removed (p : platform) (v : Object) : Prop :=
  is_Some (removes p (kindOf v)).

Global Instance removed_dec p v : Decision (removed p v).
Proof. unfold removed. apply _. Defined.

(** The listings among the requests: kind, namespace and selector. *)
Definition listings (sent : list Event) : list (Kind * string * gmap string string) :=
  omap (λ ev, match ev with
              | EvList kind namespace selector _ => Some (kind, namespace, selector)
              | _ => None
              end) sent.

(** The listing the loop sends for an object of the graph. *)
Definition listingOf (namespace : string) (v : Object)
    : Kind * string * gmap string string :=
  (kindOf v, namespace, {[ transformer.Selector := GetName v ]}).

(** The errors an iteration of the loop can add: one, the case being left at
    the first error, and two where a failed listing does not leave it. *)
Definition errorBudget (cases : Kind → option (removal * bool)) (v : Object) : nat :=
  match cases (kindOf v) with
  | None => 0
  | Some (_, true) => 1
  | Some (_, false) => 2
  end.

(** The errors [Undeploy] can return for one object of the graph: none when
    its type switch has no case for the object, one when it has, and two for
    a Pod on Kubernetes. *)
Definition errorsAllowed (p : platform) (v : Object) : nat :=
  if decide (removed p v)
  then match p with
       | onKubernetes _ => if decide (kindOf v = KPod) then 2 else 1
       | onOpenShift _ => 1
       end
  else 0.

(** The graph of a sample model, and the empty graph when there is none. *)
Definition graphOf (p : platform) (komposeObject : KomposeObject)
    (opt : ConvertOptions) : list Object :=
  default [] (match Transform p (sample.host false) komposeObject opt with
              | Ok objs => Some objs
              | _ => None
              end).

(** A pod-only service, and a cluster where its Pod is live. *)
Definition job : ServiceConfig := sample.service "busybox" "on-failure" "" "" [] [].

Definition running : sample.live :=
  [ (KPod, {| Name := "job"; Labels := transformer.ConfigLabels "job" |}) ].

(** A cluster where the Service "web" was given a second label after it was
    deployed, and where another Service carries exactly the label of "web". *)
Definition relabelled : sample.live :=
  [ (KService, {| Name := "web";
                  Labels := <["tier" := "blue"]> (transformer.ConfigLabels "web") |});
    (KService, {| Name := "other"; Labels := transformer.ConfigLabels "web" |}) ].

(** The error of the clients, in the order the transformer asks for them:
    on OpenShift its own client first. *)
Definition clientError {W : Type} (p : platform) (c : Cluster W) : option string :=
  let kubernetesClient :=
    match GetKubernetesClient c with Fail err => Some err | Return _ => None end in
  match p with
  | onKubernetes _ => kubernetesClient
  | onOpenShift _ =>
      match getOpenShiftClient c with
      | Some err => Some err
      | None => kubernetesClient
      end
  end.

(** What makes a field count as used: it is exported, not zero, and not an
    empty slice. *)
Definition used (f : kubernetes.Field) : bool :=
  kubernetes.IsExported f && negb (kubernetes.IsZero f)
  && negb (bool_decide (kubernetes.sliceLen f = Some O)).

(** The keys of the table that were not seen yet. *)
Definition unseen (unsupportedKey : gmap string bool) : nat :=
  size (filter (λ entry : string * bool, entry.2 = false) unsupportedKey).

(** The fields the two loops visit, in the order of the visits. *)
Definition visited (Fields : ServiceConfig → list kubernetes.Field)
    (services : list ServiceConfig) : list kubernetes.Field :=
  services ≫= Fields.

(** A run of [n] newlines. *)
Definition newlines (n : nat) : string :=
  string_of_list_ascii (repeat openshift.newline n).

(** The one-byte string "\n". *)
Definition nl : string := String openshift.newline "".

(** The image stream tag a DeploymentConfig watches, the one a BuildConfig
    writes to, and the tags an ImageStream defines. *)
Definition triggerOf (v : Object) : option string :=
  match v with
  | DeploymentConfig _ _ _ _ _ triggerFrom => Some triggerFrom
  | _ => None
  end.

Definition outputOf (v : Object) : option string :=
  match v with
  | BuildConfig _ _ _ _ _ _ outputTo => Some outputTo
  | _ => None
  end.

Definition tagsOf (v : Object) : gmap string (string * bool) :=
  match v with
  | ImageStream _ tags => tags
  | _ => ∅
  end.

(** A service built with docker on the spot, and one built in the cluster. *)
Definition builtLocally (opt : ConvertOptions) (service : ServiceConfig) : Prop :=
  Build_ opt = "local" ∧ InputFiles opt ≠ None ∧ Build service ≠ "".

Definition builtInCluster (opt : ConvertOptions) (service : ServiceConfig) : Prop :=
  Build service ≠ "" ∧ Build_ opt = "build-config".

(** The git repository and reference a BuildConfig builds from. *)
Definition sourceOf (v : Object) : option (string * string) :=
  match v with
  | BuildConfig _ gitRef gitURI _ _ _ _ => Some (gitURI, gitRef)
  | _ => None
  end.

(** A service with a build context and an image name. *)
Definition built : ServiceConfig :=
  sample.service "registry.io/team/api:2" "always" "" "./api" [sample.port 0 8080] [].

(** * Properties *)

(** ** The helpers on concrete inputs *)

Example Split_slash :
  strings.Split "registry.io:5000/team/app" "/" = ["registry.io:5000"; "team"; "app"].
Proof. reflexivity. Qed.

Example Split_empty : strings.Split "" ":" = [""].
Proof. reflexivity. Qed.

Example Replace1_claim :
  strings.Replace1 "db-claim0" "claim" "empty" = "db-empty0".
Proof. reflexivity. Qed.

Example TrimRight_newline :
  strings.TrimRight ("master" +:+ String "010" (String "010" "")) "010" = "master".
Proof. reflexivity. Qed.

Example Itoa_examples :
  strings.Itoa 80 = "80" ∧ strings.Itoa 0 = "0" ∧ strings.Itoa (-7) = "-7".
Proof. by vm_compute. Qed.

Example SortedKeys_example :
  kubernetes.SortedKeys
    (sample.model [("worker", sample.worker); ("web", sample.web); ("db", sample.db);
                   ("Web", sample.web)])
  = ["Web"; "db"; "web"; "worker"].
Proof. vm_compute. reflexivity. Qed.

Example EnvSort_example :
  transformer.EnvSort_Stable
    [ {| EnvName := "B"; EnvValue := "1" |}; {| EnvName := "A"; EnvValue := "2" |};
      {| EnvName := "B"; EnvValue := "3" |} ]
  = [ {| EnvName := "A"; EnvValue := "2" |}; {| EnvName := "B"; EnvValue := "1" |};
      {| EnvName := "B"; EnvValue := "3" |} ].
Proof. by vm_compute. Qed.

Example getImageTag_examples :
  openshift.getImageTag "myregistryhost:5000/fedora/httpd:version1.0" = "version1.0"
  ∧ openshift.getImageTag "myregistryhost:5000/fedora/httpd" = "latest"
  ∧ openshift.getImageTag "myregistryhost/fedora/httpd:version1.0" = "version1.0"
  ∧ openshift.getImageTag "fedora/httpd" = "latest"
  ∧ openshift.getImageTag "httpd" = "latest".
Proof. by vm_compute. Qed.

(** ** The examples of the specification *)

(** One service "web", image "nginx", one port (container 80, no host port),
    restart "always": one controller with the default replica count and one
    addressed Service with a port entry named "80" and target port 80. *)
Example web_example :
  (λ objs : list Object,
     (λ x, match x with
           | Service svc =>
               (KService, 0,
                (λ e, (spName e, spPort e, IntVal (spTargetPort e)))
                <$> Ports (svcSpec svc))
           | Deployment _ replicas _ => (KDeployment, replicas, [])
           | _ => (kindOf x, 0, [])
           end) <$> objs)
  <$> Transform (onKubernetes sample.k) (sample.host false)
        (sample.model [("web", sample.service "nginx" "always" "" ""
                                 [sample.port 0 80] [])])
        (sample.options "none")
  = Ok [(KService, 0, [("80", 80, 80)]); (KDeployment, 1, [])].
Proof. vm_compute. reflexivity. Qed.

(** One service "worker", no ports, restart "on-failure": one bare pod. *)
Example worker_example :
  kinds (Transform (onKubernetes sample.k) (sample.host false)
           (sample.model [("worker", sample.service "busybox" "on-failure" "" ""
                                       [] [])])
           (sample.options "none"))
  = Ok [KPod].
Proof. vm_compute. reflexivity. Qed.

(** ** Image tags *)

Lemma Split_length (c : ascii) (s : string) :
  length (strings.Split s c) = S (count c s).
Proof.
  induction s as [|a s IH]; simpl; [done|].
  destruct (Ascii.eqb a c); simpl; [by rewrite IH|].
  destruct (strings.Split s c); simpl in *; lia.
Qed.

Lemma Split_no_separator (c : ascii) (s : string) :
  count c s = 0%nat → strings.Split s c = [s].
Proof.
  induction s as [|a s IH]; simpl; [done|].
  destruct (Ascii.eqb a c); simpl; [done|].
  intros Hc. by rewrite IH.
Qed.

Lemma afterLast_no_separator (c : ascii) (s : string) :
  count c s = 0%nat → afterLast c s = s.
Proof.
  destruct s as [|a s]; simpl; [done|].
  destruct (Ascii.eqb a c); simpl; [done|].
  intros ->. done.
Qed.

Lemma Split_last (c : ascii) (s : string) :
  List.nth (length (strings.Split s c) - 1) (strings.Split s c) "" = afterLast c s.
Proof.
  induction s as [|a s IH]; simpl; [done|].
  pose proof (Split_length c s) as Hlen.
  destruct (count c s) as [|n] eqn:Hcount.
  - rewrite (Split_no_separator c s Hcount). simpl.
    by destruct (Ascii.eqb a c).
  - simpl. rewrite <- IH. clear IH.
    destruct (strings.Split s c) as [|f [|g fs]]; simpl in Hlen; [lia..|].
    by destruct (Ascii.eqb a c).
Qed.

Lemma Split_second (c : ascii) (s : string) :
  count c s = 1%nat → List.nth 1 (strings.Split s c) "" = afterLast c s.
Proof.
  intros Hone. rewrite <- Split_last, Split_length, Hone. done.
Qed.

Lemma getImageTag_segment (image : string) :
  (if (2 <=? length (strings.Split image "/"))%nat
   then List.nth (length (strings.Split image "/") - 1) (strings.Split image "/") ""
   else image) = afterLast "/" image.
Proof.
  rewrite Split_last, Split_length.
  destruct (count "/" image) eqn:Hcount; simpl; [|done].
  by rewrite afterLast_no_separator.
Qed.

(** C5: [getImageTag] returns the substring after the last colon of the last
    slash-separated segment of the image reference when that segment has
    exactly one colon, and "latest" otherwise; so "latest" for
    "registry.io:5000/team/app", "1.2" for "team/app:1.2", "latest" for "app";
    and the output target of a BuildConfig, whenever [initBuildConfig] builds
    one, is the service name, ":", and that tag. *)
Theorem getImageTag_spec :
  (∀ image, openshift.getImageTag image = imageTag image)
  ∧ openshift.getImageTag "registry.io:5000/team/app" = "latest"
  ∧ openshift.getImageTag "team/app:1.2" = "1.2"
  ∧ openshift.getImageTag "app" = "latest"
  ∧ (∀ h name service repo branch bc,
       openshift.initBuildConfig h name service repo branch = Ok bc →
       ∃ meta contextDir env,
         bc = BuildConfig meta branch repo contextDir (Dockerfile service) env
                (name +:+ ":" +:+ imageTag (Image service))).
Proof.
  assert (Hspec : ∀ image, openshift.getImageTag image = imageTag image).
  { intros image. unfold openshift.getImageTag, imageTag.
    rewrite getImageTag_segment, Split_length.
    destruct (count ":" (afterLast "/" image)) as [|[|n]] eqn:Hcount; simpl; try done.
    by apply Split_second. }
  split; [done|]. repeat split; try by vm_compute.
  intros h name service repo branch bc. unfold openshift.initBuildConfig.
  destruct (openshift.getAbsBuildContext h (Build service)); [|done].
  intros [= <-]. rewrite Hspec. eauto.
Qed.

(** ** Builders *)

Lemma foldl_snoc {A B : Type} (f : list B → A → list B) (g : A → B) (l : list A) :
  (∀ acc x, f acc x = acc ++ [g x]) →
  ∀ acc, foldl f acc l = acc ++ map g l.
Proof.
  intros Hf. induction l as [|x l IH]; intros acc; simpl.
  - by rewrite app_nil_r.
  - by rewrite Hf, IH, <- app_assoc.
Qed.

Lemma ConfigServicePorts_map k name service :
  kubernetes.ConfigServicePorts k name service = servicePortFor <$> Port service.
Proof.
  unfold kubernetes.ConfigServicePorts.
  rewrite (foldl_snoc _ servicePortFor); [done|].
  intros acc port. unfold servicePortFor, resolvedHostPort, ProtocolTCP.
  by destruct (String.eqb (Protocol port) "TCP").
Qed.

Lemma ConfigVolumes_loop_claims k vols mounts volumes PVCs :
  ∃ mounts' volumes',
    kubernetes.ConfigVolumes_loop k (mounts, volumes, PVCs) vols
    = Ok (mounts', volumes',
          PVCs ++ (if EmptyVols (kubernetes.Opt k) then []
                   else claimFor <$> filter (λ volume, VFrom volume = "") vols)).
Proof.
  revert mounts volumes PVCs.
  induction vols as [|volume vols IH]; intros mounts volumes PVCs; simpl.
  { exists mounts, volumes. destruct (EmptyVols _); by rewrite app_nil_r. }
  unfold kubernetes.ConfigVolumes_step, kubernetes.CreatePVC.
  rewrite filter_cons.
  destruct (EmptyVols (kubernetes.Opt k)) eqn:Hempty; simpl.
  { edestruct IH as (m' & v' & ->). eauto. }
  destruct (String.eqb (VFrom volume) "") eqn:Hfrom; simpl.
  - apply String.eqb_eq in Hfrom. rewrite decide_True by done.
    edestruct IH as (m' & v' & ->).
    do 2 eexists. f_equal. f_equal. rewrite <- app_assoc. done.
  - apply String.eqb_neq in Hfrom. rewrite decide_False by done.
    edestruct IH as (m' & v' & ->). eauto.
Qed.

Lemma ConfigVolumes_claims k name service :
  ∃ mounts volumes,
    kubernetes.ConfigVolumes k name service = Ok (mounts, volumes, claims k service).
Proof.
  unfold kubernetes.ConfigVolumes, claims.
  destruct (ConfigVolumes_loop_claims k (Volumes service) [] [] [])
    as (m & v & ->). eauto.
Qed.

Lemma fmap_fixed {A : Type} (f : A → A) (l : list A) :
  Forall (λ x, f x = x) l → f <$> l = l.
Proof. induction 1 as [|x l Hx _ IH]; [done|]. rewrite fmap_cons. by f_equal. Qed.

Lemma UpdateController_kind k obj updateTemplate updateMeta :
  kindOf (kubernetes.UpdateController k obj updateTemplate updateMeta).1 = kindOf obj.
Proof.
  destruct obj; simpl; try done;
    repeat (match goal with |- context [updateTemplate ?t] =>
              destruct (updateTemplate t) as [? ? []] end); done.
Qed.

Lemma UpdateController_exposure k obj updateTemplate updateMeta :
  kubernetes.isExposure obj = true ∨ kindOf obj = KPersistentVolumeClaim →
  (kubernetes.UpdateController k obj updateTemplate updateMeta).1 = obj.
Proof. destruct obj; simpl; intros [?|?]; done. Qed.

Lemma claims_kind k service :
  Forall (λ o, kindOf o = KPersistentVolumeClaim) (claims k service).
Proof.
  unfold claims. destruct (EmptyVols _); [constructor|].
  apply Forall_fmap, Forall_forall. done.
Qed.

(** The completion pass maps the objects one by one, keeping their kinds and
    leaving exposure objects and claims as they are, and appends the claims. *)
Lemma UpdateKubernetesObjects_shape k name service objects :
  ∃ upd : Object → Object,
    (∀ o, kindOf (upd o) = kindOf o)
    ∧ (∀ o, kubernetes.isExposure o = true → upd o = o)
    ∧ (∀ meta spec, ∃ spec',
         upd (Pod meta spec)
         = Pod {| Name := Name meta; Labels := transformer.ConfigLabels name |} spec')
    ∧ kubernetes.UpdateKubernetesObjects k name service objects
      = (upd <$> objects) ++ claims k service.
Proof.
  unfold kubernetes.UpdateKubernetesObjects.
  destruct (ConfigVolumes_claims k name service) as (mounts & volumes & ->).
  destruct (kubernetes.ConfigTmpfs k name service) as [tmpfsMounts tmpfsVolumes].
  match goal with |- context [fmap ?f (objects ++ _)] => exists f end.
  split; [intros o; apply UpdateController_kind|].
  split; [intros o Ho; apply UpdateController_exposure; by left|].
  split; [intros meta spec; simpl; eauto|].
  rewrite fmap_app. f_equal. apply fmap_fixed.
  eapply Forall_impl; [apply claims_kind|].
  intros o Ho. simpl. apply UpdateController_exposure. by right.
Qed.

(** ** The loops of [Transform] *)

Lemma insert_sorted_Permutation {A : Type} (le : A → A → bool) x l :
  transformer.insert_sorted le x l ≡ₚ x :: l.
Proof.
  induction l as [|y l IH]; simpl; [done|].
  destruct (le x y); [done|]. by rewrite IH, Permutation_swap.
Qed.

Lemma stable_sort_Permutation {A : Type} (le : A → A → bool) l :
  transformer.stable_sort le l ≡ₚ l.
Proof.
  induction l as [|x l IH]; simpl; [done|].
  by rewrite insert_sorted_Permutation, IH.
Qed.

Lemma SortedKeys_NoDup komposeObject : NoDup (kubernetes.SortedKeys komposeObject).
Proof.
  unfold kubernetes.SortedKeys. rewrite stable_sort_Permutation.
  apply NoDup_fst_map_to_list.
Qed.

Lemma SortedKeys_elem komposeObject name :
  name ∈ kubernetes.SortedKeys komposeObject
  ↔ is_Some (ServiceConfigs komposeObject !! name).
Proof.
  unfold kubernetes.SortedKeys. rewrite stable_sort_Permutation.
  rewrite list_elem_of_fmap. split.
  - intros ([n service] & -> & Hin). apply elem_of_map_to_list in Hin. eauto.
  - intros [service Hservice]. exists (name, service). split; [done|].
    by apply elem_of_map_to_list.
Qed.

Lemma kubernetes_transformLoop_Ok k h komposeObject opt keys acc objs :
  kubernetes.transformLoop k h komposeObject opt keys acc = Ok objs →
  ∃ oss,
    Forall2 (λ name os,
               kubernetes.transformService k h opt name (configOf komposeObject name)
               = Ok os) keys oss
    ∧ objs = acc ++ concat oss.
Proof.
  revert acc. induction keys as [|name keys IH]; intros acc; simpl.
  - intros [= <-]. exists []. split; [constructor|]. by rewrite app_nil_r.
  - fold (configOf komposeObject name).
    destruct (kubernetes.transformService k h opt name _) as [os| | |] eqn:Hos;
      simpl; try done.
    intros (oss & Hall & ->)%IH. exists (os :: oss). split; [by constructor|].
    simpl. by rewrite app_assoc.
Qed.

Lemma kubernetes_Transform_Ok k h komposeObject opt objs :
  kubernetes.Transform k h komposeObject opt = Ok objs →
  ∃ oss,
    Forall2 (λ name os,
               kubernetes.transformService k h opt name (configOf komposeObject name)
               = Ok os) (kubernetes.SortedKeys komposeObject) oss
    ∧ objs = kubernetes.SortServicesFirst k (concat oss).
Proof.
  unfold kubernetes.Transform.
  destruct (kubernetes.transformLoop _ _ _ _ _ _) as [all| | |] eqn:Hloop;
    simpl; try done.
  apply kubernetes_transformLoop_Ok in Hloop as (oss & Hall & ->).
  intros [= <-]. eauto.
Qed.

Lemma openshift_transformService_appends o h opt name service vars vars' :
  openshift.transformService o h opt name service vars = Ok vars' →
  ∃ os, openshift.allobjects vars' = openshift.allobjects vars ++ os.
Proof.
  unfold openshift.transformService.
  destruct (openshift.buildLocal h opt name service); simpl; try done.
  destruct (kubernetes.podOnly _).
  { destruct (IsDeploymentConfigFlag opt); [done|]. intros [= <-]. simpl. eauto. }
  destruct (openshift.buildConfigStep _ _ _ _ _ _ _) as [[[[objects r] b]|]| | |];
    simpl; try done.
  2:{ intros [= <-]. exists []. by rewrite app_nil_r. }
  match goal with |- context [mbind _ ?m] => destruct m; simpl; try done end.
  intros [= <-]. simpl. eauto.
Qed.

Lemma openshift_transformLoop_Ok o h komposeObject opt keys vars vars' :
  openshift.transformLoop o h komposeObject opt keys vars = Ok vars' →
  ∃ oss,
    Forall2 (λ name os, appends o h opt name (configOf komposeObject name) os)
            keys oss
    ∧ openshift.allobjects vars' = openshift.allobjects vars ++ concat oss.
Proof.
  revert vars. induction keys as [|name keys IH]; intros vars; simpl.
  - intros [= <-]. exists []. split; [constructor|]. by rewrite app_nil_r.
  - fold (configOf komposeObject name).
    destruct (openshift.transformService o h opt name _ vars) as [vars1| | |] eqn:Hos;
      simpl; try done.
    destruct (openshift_transformService_appends _ _ _ _ _ _ _ Hos) as [os Hos'].
    intros (oss & Hall & ->)%IH. exists (os :: oss). split.
    + constructor; [|done]. by exists vars, vars1.
    + simpl. by rewrite Hos', app_assoc.
Qed.

Lemma openshift_Transform_Ok o h komposeObject opt objs :
  openshift.Transform o h komposeObject opt = Ok objs →
  ∃ oss,
    Forall2 (λ name os, appends o h opt name (configOf komposeObject name) os)
            (kubernetes.SortedKeys komposeObject) oss
    ∧ objs = kubernetes.SortServicesFirst (openshift.Kubernetes o) (concat oss).
Proof.
  unfold openshift.Transform.
  destruct (openshift.transformLoop _ _ _ _ _ _) as [vars| | |] eqn:Hloop;
    simpl; try done.
  apply openshift_transformLoop_Ok in Hloop as (oss & Hall & Hobjs).
  simpl in Hobjs. intros [= <-]. rewrite Hobjs. eauto.
Qed.

(** *** Both platforms at once *)

Lemma Transform_Ok p h komposeObject opt objs :
  Transform p h komposeObject opt = Ok objs →
  ∃ oss,
    Forall2 (λ name os, emits p h opt name (configOf komposeObject name) os)
            (kubernetes.SortedKeys komposeObject) oss
    ∧ objs = kubernetes.SortServicesFirst (receiver p) (concat oss).
Proof.
  destruct p as [k|o]; simpl.
  - apply kubernetes_Transform_Ok.
  - apply openshift_Transform_Ok.
Qed.

(** ** The ordering pass *)

Lemma SortServicesFirst_servicesFirst k emitted :
  servicesFirst (kubernetes.SortServicesFirst k emitted).
Proof.
  unfold kubernetes.SortServicesFirst. intros i j x y Hx Hy Hex Hey.
  apply lookup_app_Some in Hx as [Hx|[_ Hx]].
  2:{ apply list_elem_of_lookup_2, list_elem_of_filter in Hx as [Hx _]. congruence. }
  apply lookup_app_Some in Hy as [Hy|[Hj _]].
  { apply list_elem_of_lookup_2, list_elem_of_filter in Hy as [Hy _]. congruence. }
  apply lookup_lt_Some in Hx. lia.
Qed.

(** C3: in every graph [Transform] returns, on either platform, the exposure,
    route and ingress objects come before all other objects, and each of the
    two groups keeps the order in which the loop emitted its objects: the
    graph is the stable partition of the concatenation, in key order, of the
    objects emitted for each service. *)
Theorem Transform_stable_partition p h komposeObject opt objs :
  Transform p h komposeObject opt = Ok objs →
  servicesFirst objs
  ∧ ∃ oss,
      Forall2 (λ name os, emits p h opt name (configOf komposeObject name) os)
              (kubernetes.SortedKeys komposeObject) oss
      ∧ stablePartition (concat oss) objs.
Proof.
  intros (oss & Hall & ->)%Transform_Ok.
  split; [apply SortServicesFirst_servicesFirst|]. by exists oss.
Qed.

(** On OpenShift, for a model with an exposed service and a pod-only one. *)
Lemma Transform_stable_partition_witness :
  ∃ objs,
    Transform (onOpenShift sample.o) (sample.host false)
      (sample.model [("worker", sample.worker); ("web", sample.web)])
      (sample.options "none") = Ok objs
    ∧ servicesFirst objs.
Proof.
  assert ({objs | Transform (onOpenShift sample.o) (sample.host false)
                    (sample.model [("worker", sample.worker); ("web", sample.web)])
                    (sample.options "none") = Ok objs}) as [objs Hobjs].
  { eexists. vm_compute. reflexivity. }
  exists objs. split; [exact Hobjs|].
  exact (proj1 (Transform_stable_partition _ _ _ _ _ Hobjs)).
Defined.

Example Transform_order_example :
  kinds (Transform (onOpenShift sample.o) (sample.host false)
           (sample.model [("worker", sample.worker); ("web", sample.web)])
           (sample.options "none"))
  = Ok [KService; KRoute; KDeployment; KDeploymentConfig; KImageStream; KPod;
        KPersistentVolumeClaim].
Proof. vm_compute. reflexivity. Qed.

(** ** The exposure objects of one service *)

Lemma exposures_update (upd : Object → Object) (l : list Object) :
  (∀ x, kindOf (upd x) = kindOf x) →
  (∀ x, kubernetes.isExposure x = true → upd x = x) →
  exposures (upd <$> l) = exposures l.
Proof.
  intros Hkind Hid. induction l as [|x l IH]; [done|].
  rewrite fmap_cons, !filter_cons, IH.
  assert (kubernetes.isExposure (upd x) = kubernetes.isExposure x) as ->.
  { unfold kubernetes.isExposure. by rewrite Hkind. }
  destruct (decide (kubernetes.isExposure x = true)) as [Hx|Hx]; [|done].
  by rewrite Hid.
Qed.

Lemma exposures_none (l : list Object) :
  Forall (λ x, kubernetes.isExposure x = false) l → exposures l = [].
Proof.
  induction 1 as [|x l Hx _ IH]; [done|].
  rewrite filter_cons, IH, decide_False; [done|congruence].
Qed.

Lemma exposures_claims k service : exposures (claims k service) = [].
Proof.
  apply exposures_none. eapply Forall_impl; [apply claims_kind|].
  intros x Hx. unfold kubernetes.isExposure. by rewrite Hx.
Qed.

Lemma exposures_UpdateKubernetesObjects k name service objects :
  exposures (kubernetes.UpdateKubernetesObjects k name service objects)
  = exposures objects.
Proof.
  destruct (UpdateKubernetesObjects_shape k name service objects)
    as (upd & Hkind & Hid & _ & ->).
  by rewrite filter_app, exposures_claims, app_nil_r, exposures_update.
Qed.

Lemma exposures_CreateKubernetesObjects k name service opt :
  exposures (kubernetes.CreateKubernetesObjects k name service opt) = [].
Proof.
  unfold kubernetes.CreateKubernetesObjects.
  by destruct (CreateD opt), (CreateDS opt), (CreateRC opt).
Qed.

Lemma ConfigServicePorts_head k name service port0 ports :
  Port service = port0 :: ports →
  ∃ rest, kubernetes.ConfigServicePorts k name service
          = servicePortFor port0 :: rest.
Proof. intros Hports. rewrite ConfigServicePorts_map, Hports. simpl. eauto. Qed.

Lemma kubernetes_emits_exposures k h opt name service os :
  kubernetes.transformService k h opt name service = Ok os →
  exposures os = exposuresFor (onKubernetes k) h opt name service.
Proof.
  unfold kubernetes.transformService, exposuresFor, exposureFor.
  destruct (kubernetes.buildLocal h opt name service); simpl; try done.
  set (service' := if String.eqb (Image service) "" then _ else _).
  assert (Restart service' = Restart service ∧ Port service' = Port service
          ∧ ExposeService service' = ExposeService service) as (HR & HP & HE).
  { subst service'. by destruct (String.eqb (Image service) ""). }
  unfold kubernetes.podOnly, kubernetes.PortsExist, kubernetes.CreateService,
    kubernetes.CreateHeadlessService, kubernetes.InitSvc, kubernetes.initIngress.
  rewrite ConfigServicePorts_map, HR, HP, HE, orb_false_r.
  destruct (String.eqb (Restart service) "no" || String.eqb (Restart service) "on-failure").
  { destruct (_ || _ || _); simpl; [done|]. intros [= <-].
    by rewrite exposures_UpdateKubernetesObjects. }
  rewrite !ConfigServicePorts_map.
  destruct (Port service) as [|port0 ports]; simpl.
  - intros [= <-]. rewrite exposures_UpdateKubernetesObjects, filter_app.
    by rewrite exposures_CreateKubernetesObjects.
  - destruct (String.eqb (ExposeService service) ""); simpl;
      intros [= <-]; rewrite exposures_UpdateKubernetesObjects, !filter_app;
      by rewrite exposures_CreateKubernetesObjects.
Qed.

Lemma buildConfigStep_cases h opt name service objects repo branch :
  match openshift.buildConfigStep h opt name service objects repo branch with
  | Ok None =>
      negb (String.eqb (Build service) "") && String.eqb (Build_ opt) "build-config"
      && match GetComposeFileDir h (InputFiles opt) with
         | Fail _ => true
         | Return _ => false
         end = true
  | Ok (Some (objects', _, _)) =>
      negb (String.eqb (Build service) "") && String.eqb (Build_ opt) "build-config"
      && match GetComposeFileDir h (InputFiles opt) with
         | Fail _ => true
         | Return _ => false
         end = false
      ∧ ∃ extra, objects' = objects ++ extra
                 ∧ Forall (λ x, kindOf x = KBuildConfig) extra
  | _ => True
  end.
Proof.
  unfold openshift.buildConfigStep.
  destruct (negb (String.eqb (Build service) "") && String.eqb (Build_ opt) "build-config");
    simpl.
  2:{ split; [done|]. exists []. by rewrite app_nil_r. }
  destruct (GetComposeFileDir h (InputFiles opt)) as [dir|err]; [|done].
  destruct (negb _ && _); [done|].
  destruct (if String.eqb branch "" then _ else _) as [branch'| | |]; simpl; try done.
  destruct (if String.eqb (BuildRepo opt) "" then _ else _) as [repo'| | |];
    simpl; try done.
  unfold openshift.initBuildConfig.
  destruct (openshift.getAbsBuildContext h (Build service)); [|done].
  split; [done|]. eexists [_]. split; [done|]. by constructor.
Qed.

Lemma openshift_emits_exposures o h opt name service os :
  appends o h opt name service os →
  exposures os = exposuresFor (onOpenShift o) h opt name service.
Proof.
  intros (vars & vars' & Hrun & Hos). revert Hrun.
  unfold openshift.transformService, exposuresFor, exposureFor, skipped.
  destruct (openshift.buildLocal h opt name service); simpl; try done.
  set (service' := if String.eqb (Image service) "" then _ else _).
  assert (Restart service' = Restart service ∧ Port service' = Port service
          ∧ ExposeService service' = ExposeService service
          ∧ Build service' = Build service) as (HR & HP & HE & HB).
  { subst service'. by destruct (String.eqb (Image service) ""). }
  unfold kubernetes.podOnly, kubernetes.PortsExist, kubernetes.CreateService,
    kubernetes.CreateHeadlessService, kubernetes.InitSvc, openshift.initRoute.
  rewrite !ConfigServicePorts_map, HR, HP, HE.
  destruct (String.eqb (Restart service) "no" || String.eqb (Restart service) "on-failure");
    simpl.
  { destruct (IsDeploymentConfigFlag opt); [done|]. intros [= <-].
    simpl in Hos. apply app_inv_head in Hos as <-.
    by rewrite exposures_UpdateKubernetesObjects. }
  set (objects0 := if CreateDeploymentConfig opt then _ else _).
  assert (exposures objects0 = []) as Hbefore.
  { subst objects0. destruct (CreateDeploymentConfig opt);
      by rewrite ?filter_app, exposures_CreateKubernetesObjects. }
  clearbody objects0.
  match goal with |- context [openshift.buildConfigStep ?a ?b ?c ?d ?e ?f ?g] =>
    pose proof (buildConfigStep_cases a b c d e f g) as Hstep;
    destruct (openshift.buildConfigStep a b c d e f g) as [[[[objects r] b']|]| | |]
  end; try done.
  2:{ rewrite HB in Hstep. rewrite Hstep. intros [= <-].
      rewrite <- (app_nil_r (openshift.allobjects vars)) in Hos at 1.
      by apply app_inv_head in Hos as <-. }
  destruct Hstep as (Hskip & extra & -> & Hextra). rewrite HB in Hskip. rewrite Hskip.
  assert (exposures (objects0 ++ extra) = []) as Hall.
  { rewrite filter_app, Hbefore, exposures_none; [done|].
    eapply Forall_impl; [done|]. intros x Hx. unfold kubernetes.isExposure.
    by rewrite Hx. }
  generalize dependent (objects0 ++ extra). intros objects Hall.
  destruct (Port service) as [|port0 ports].
  - intros [= <-]. simpl in Hos. apply app_inv_head in Hos as <-.
    by rewrite exposures_UpdateKubernetesObjects, filter_app, Hall.
  - cbn [negb length Nat.eqb fmap list_fmap mbind outcome_bind Ports svcSpec].
    destruct (String.eqb (ExposeService service) "");
      cbn [negb mbind outcome_bind]; intros [= <-]; simpl in Hos;
      apply app_inv_head in Hos as <-;
      by rewrite exposures_UpdateKubernetesObjects, !filter_app, Hall.
Qed.

Lemma emits_exposures p h opt name service os :
  emits p h opt name service os →
  exposures os = exposuresFor p h opt name service.
Proof.
  destruct p as [k|o]; simpl.
  - apply kubernetes_emits_exposures.
  - apply openshift_emits_exposures.
Qed.

(** ** The exposure part of the graph *)

Lemma exposures_SortServicesFirst k objs :
  exposures (kubernetes.SortServicesFirst k objs) = exposures objs.
Proof.
  unfold kubernetes.SortServicesFirst. rewrite filter_app.
  rewrite (exposures_none (filter (λ x, kubernetes.isExposure x = false) objs)).
  - rewrite app_nil_r. induction objs as [|x objs IH]; [done|].
    rewrite !filter_cons. destruct (decide _) as [Hx|Hx]; [|done].
    by rewrite filter_cons, decide_True, IH.
  - apply Forall_forall. by intros x [Hx _]%list_elem_of_filter.
Qed.

Lemma exposures_concat (oss : list (list Object)) :
  exposures (concat oss) = concat (exposures <$> oss).
Proof.
  induction oss as [|os oss IH]; [done|]. simpl. by rewrite filter_app, IH.
Qed.

(** The exposure, route and ingress objects of the graph are those of the
    services, in key order. *)
Lemma Transform_exposures p h komposeObject opt objs :
  Transform p h komposeObject opt = Ok objs →
  exposures objs
  = concat ((λ name, exposuresFor p h opt name (configOf komposeObject name))
            <$> kubernetes.SortedKeys komposeObject).
Proof.
  intros (oss & Hall & ->)%Transform_Ok.
  rewrite exposures_SortServicesFirst, exposures_concat. f_equal.
  induction Hall as [|name os keys oss Hos _ IH]; [done|].
  rewrite !fmap_cons, IH. f_equal. by apply emits_exposures.
Qed.

Lemma filter_concat_nil {A B : Type} (Q : B → Prop) `{!∀ x, Decision (Q x)}
    (f : A → list B) (keys : list A) :
  Forall (λ n, filter Q (f n) = []) keys →
  filter Q (concat (f <$> keys)) = [].
Proof.
  induction 1 as [|n keys Hn _ IH]; [done|].
  rewrite fmap_cons. simpl. by rewrite filter_app, Hn, IH.
Qed.

Lemma filter_concat_unique {A B : Type} (Q : B → Prop) `{!∀ x, Decision (Q x)}
    (f : A → list B) (keys : list A) (a : A) :
  NoDup keys → a ∈ keys →
  (∀ n, n ≠ a → filter Q (f n) = []) →
  filter Q (concat (f <$> keys)) = filter Q (f a).
Proof.
  intros Hnodup Ha Hother.
  induction Hnodup as [|n keys Hn Hnodup IH]; [by apply elem_of_nil in Ha|].
  rewrite fmap_cons. simpl. rewrite filter_app.
  apply elem_of_cons in Ha as [->|Ha].
  - rewrite filter_concat_nil; [by rewrite app_nil_r|].
    apply Forall_forall. intros m Hm. apply Hother. by intros ->.
  - rewrite IH by done. rewrite Hother; [done|]. by intros ->.
Qed.

Lemma filter_ofService_exposures kind name (l : list Object) :
  kind = KService ∨ kind = KIngress ∨ kind = KRoute →
  filter (ofService kind name) l = filter (ofService kind name) (exposures l).
Proof.
  intros Hkind. induction l as [|x l IH]; [done|].
  rewrite !filter_cons.
  destruct (decide (ofService kind name x)) as [Hx|Hx].
  - rewrite decide_True.
    + rewrite filter_cons, decide_True; [by rewrite IH|done].
    + unfold kubernetes.isExposure. destruct Hx as [-> _].
      by destruct Hkind as [->|[->| ->]].
  - destruct (decide _); [|done]. by rewrite filter_cons, decide_False.
Qed.

Lemma exposuresFor_names p h opt name service :
  Forall (λ x, GetName x = name) (exposuresFor p h opt name service).
Proof.
  unfold exposuresFor, exposureFor.
  destruct (_ || _); [constructor|]. constructor.
  { by destruct (kubernetes.PortsExist _ _ _). }
  destruct (Port service); [constructor|].
  destruct (String.eqb _ _); [constructor|].
  constructor; [|constructor]. by destruct p.
Qed.

(** The objects of a kind of exposure that carry the name of a service are
    those among the exposure objects of that service. *)
Lemma Transform_ofService p h komposeObject opt objs kind name service :
  Transform p h komposeObject opt = Ok objs →
  ServiceConfigs komposeObject !! name = Some service →
  kind = KService ∨ kind = KIngress ∨ kind = KRoute →
  filter (ofService kind name) objs
  = filter (ofService kind name) (exposuresFor p h opt name service).
Proof.
  intros Hobjs Hservice Hkind.
  rewrite filter_ofService_exposures, (Transform_exposures _ _ _ _ _ Hobjs) by done.
  rewrite (filter_concat_unique _ _ _ name).
  - unfold configOf. by rewrite Hservice.
  - apply SortedKeys_NoDup.
  - apply SortedKeys_elem. eauto.
  - intros n Hne. induction (exposuresFor_names p h opt n (configOf komposeObject n))
      as [|x l Hx _ IH]; [done|].
    rewrite filter_cons, IH, decide_False; [done|].
    intros [_ Hname]. congruence.
Qed.

(** C1: for a service whose restart policy is neither "no" nor "on-failure"
    (and whose iteration is not cut short by the [continue] of the OpenShift
    loop, which cannot happen on Kubernetes), the graph holds exactly one
    Service object with the name of the service.  Without declared ports
    it is headless and has no port entry; with declared ports it has one
    entry per declared port, in order, each named by the resolved host port
    (the container port when the host port is 0) and without protocol when
    the protocol is TCP. *)
Theorem exposure_object_ports p h komposeObject opt objs name service :
  Transform p h komposeObject opt = Ok objs →
  ServiceConfigs komposeObject !! name = Some service →
  kubernetes.podOnly service = false →
  skipped p h opt service = false →
  ∃ svc,
    filter (ofService KService name) objs = [Service svc]
    ∧ (Port service = [] →
       ClusterIP (svcSpec svc) = "None" ∧ Ports (svcSpec svc) = [])
    ∧ (Port service ≠ [] →
       ClusterIP (svcSpec svc) = ""
       ∧ length (Ports (svcSpec svc)) = length (Port service)
       ∧ Forall2 (λ port entry,
                    let hostPort :=
                      if HostPort port =? 0 then kobject.ContainerPort port
                      else HostPort port in
                    spName entry = strings.Itoa hostPort
                    ∧ spPort entry = hostPort
                    ∧ IntVal (spTargetPort entry) = kobject.ContainerPort port
                    ∧ spProtocol entry
                      = if String.eqb (Protocol port) "TCP" then ""
                        else Protocol port)
                 (Port service) (Ports (svcSpec svc))).
Proof.
  intros Hobjs Hservice Hpod Hskip.
  exists (exposureFor (receiver p) name service).
  rewrite (Transform_ofService _ _ _ _ _ _ _ _ Hobjs Hservice) by auto.
  unfold exposuresFor. rewrite Hpod, Hskip. simpl.
  split.
  { rewrite filter_cons, decide_True.
    2:{ split; [done|]. unfold exposureFor. by destruct (kubernetes.PortsExist _ _ _). }
    f_equal. destruct (Port service); [done|].
    destruct (String.eqb _ _); [done|].
    rewrite filter_cons, decide_False; [done|]. intros [Hkind _]. by destruct p. }
  unfold exposureFor, kubernetes.PortsExist, kubernetes.CreateService,
    kubernetes.CreateHeadlessService.
  split.
  - intros ->. done.
  - intros Hports. destruct (Port service) as [|port0 ports] eqn:Hp; [done|].
    simpl. rewrite ConfigServicePorts_map, Hp.
    split; [done|]. split; [by rewrite length_fmap|].
    apply Forall2_fmap_r, Forall_Forall2_diag, Forall_forall. done.
Qed.

(** On Kubernetes: the service "web" declares the ports 80 (no host port) and
    443 (host port 8443). *)
Lemma exposure_object_ports_witness :
  ∃ objs svc,
    Transform (onKubernetes sample.k) (sample.host false)
      (sample.model [("web", sample.web); ("db", sample.db)])
      (sample.options "none") = Ok objs
    ∧ filter (ofService KService "web") objs = [Service svc]
    ∧ ClusterIP (svcSpec svc) = ""
    ∧ length (Ports (svcSpec svc)) = 2%nat.
Proof.
  assert ({objs | Transform (onKubernetes sample.k) (sample.host false)
                    (sample.model [("web", sample.web); ("db", sample.db)])
                    (sample.options "none") = Ok objs}) as [objs Hobjs].
  { eexists. vm_compute. reflexivity. }
  exists objs.
  destruct (exposure_object_ports (onKubernetes sample.k) (sample.host false)
              (sample.model [("web", sample.web); ("db", sample.db)])
              (sample.options "none") objs "web" sample.web Hobjs)
    as (svc & Hsvc & _ & Hports).
  - vm_compute. reflexivity.
  - reflexivity.
  - reflexivity.
  - exists svc. split; [exact Hobjs|]. split; [exact Hsvc|].
    destruct Hports as (Hip & Hlen & _); [discriminate|].
    split; [exact Hip|exact Hlen].
Defined.

(** ** Routes and ingresses *)

(** C4, amended: for a service whose "expose" value is not empty, whose
    restart policy is neither "no" nor "on-failure" and which declares at
    least one port (and whose iteration is not cut short by the [continue] of
    the OpenShift loop), the graph holds exactly one ingress (Kubernetes) or
    route (OpenShift) with the name of the service; it points at the Service
    of that name and at the port of its first port entry, and its host is
    empty when the value is "true" and the value itself otherwise. *)
Theorem route_for_exposed_service p h komposeObject opt objs name service :
  Transform p h komposeObject opt = Ok objs →
  ServiceConfigs komposeObject !! name = Some service →
  ExposeService service ≠ "" →
  kubernetes.podOnly service = false →
  Port service ≠ [] →
  skipped p h opt service = false →
  ∃ route svc entry entries,
    filter (ofService (routeKind p) name) objs = [route]
    ∧ filter (ofService KService name) objs = [Service svc]
    ∧ Ports (svcSpec svc) = entry :: entries
    ∧ routeBackend route = Some name
    ∧ routePort route = Some (spPort entry)
    ∧ routeHost route
      = Some (if String.eqb (ExposeService service) "true" then ""
              else ExposeService service).
Proof.
  intros Hobjs Hservice Hexpose Hpod Hports Hskip.
  destruct (Port service) as [|port0 ports] eqn:Hp; [done|].
  apply String.eqb_neq in Hexpose.
  exists (routeFor p name service (resolvedHostPort port0)),
    (exposureFor (receiver p) name service),
    (servicePortFor port0), (servicePortFor <$> ports).
  rewrite !(Transform_ofService _ _ _ _ _ _ _ _ Hobjs Hservice)
    by (destruct p; auto).
  unfold exposuresFor. rewrite Hpod, Hskip, Hp, Hexpose. simpl.
  assert (GetName (Service (exposureFor (receiver p) name service)) = name) as Hname.
  { unfold exposureFor. by destruct (kubernetes.PortsExist _ _ _). }
  repeat split.
  - rewrite filter_cons, decide_False by (intros [Hkind _]; by destruct p).
    rewrite filter_cons, decide_True by (by destruct p). done.
  - rewrite filter_cons, decide_True by done.
    rewrite filter_cons, decide_False by (intros [Hkind _]; by destruct p). done.
  - unfold exposureFor, kubernetes.PortsExist, kubernetes.CreateService.
    rewrite Hp. simpl. by rewrite ConfigServicePorts_map, Hp.
  - by destruct p.
  - by destruct p.
  - destruct p; simpl; by destruct (String.eqb (ExposeService service) "true").
Qed.

Lemma route_for_exposed_service_witness :
  ∃ objs route,
    Transform (onOpenShift sample.o) (sample.host false)
      (sample.model [("web", sample.web); ("db", sample.db)])
      (sample.options "none") = Ok objs
    ∧ filter (ofService KRoute "web") objs = [route]
    ∧ routeBackend route = Some "web"
    ∧ routeHost route = Some "".
Proof.
  assert ({objs | Transform (onOpenShift sample.o) (sample.host false)
                    (sample.model [("web", sample.web); ("db", sample.db)])
                    (sample.options "none") = Ok objs}) as [objs Hobjs].
  { eexists. vm_compute. reflexivity. }
  exists objs.
  destruct (route_for_exposed_service (onOpenShift sample.o) (sample.host false)
              (sample.model [("web", sample.web); ("db", sample.db)])
              (sample.options "none") objs "web" sample.web Hobjs)
    as (route & svc & entry & entries & Hroute & _ & _ & Hbackend & _ & Hhost).
  - vm_compute. reflexivity.
  - discriminate.
  - reflexivity.
  - discriminate.
  - reflexivity.
  - exists route. split; [exact Hobjs|]. split; [exact Hroute|].
    split; [exact Hbackend|exact Hhost].
Defined.

(** The ingress of "web" on Kubernetes: it points at the port 80 of the first
    port entry, and has no host. *)
Example ingress_example :
  (λ objs : list Object,
     (λ x, (routeBackend x, routePort x, routeHost x))
     <$> filter (ofService KIngress "web") objs)
  <$> Transform (onKubernetes sample.k) (sample.host false)
        (sample.model [("web", sample.web); ("db", sample.db)])
        (sample.options "none")
  = Ok [(Some "web", Some 80, Some "")].
Proof. vm_compute. reflexivity. Qed.

(** C4 as stated fails: an exposed service with restart policy "on-failure"
    gets a bare pod and no ingress, and an exposed service without ports gets
    its headless Service and no ingress. *)
Lemma exposed_service_without_route :
  kinds (Transform (onKubernetes sample.k) (sample.host false)
           (sample.model
              [("job", sample.service "busybox" "on-failure" "true" ""
                         [sample.port 0 80] [])])
           (sample.options "none")) = Ok [KPod]
  ∧ kinds (Transform (onKubernetes sample.k) (sample.host false)
             (sample.model
                [("dns", sample.service "coredns" "always" "dns.example.com" ""
                           [] [])])
             (sample.options "none")) = Ok [KService; KDeployment].
Proof. split; vm_compute; reflexivity. Qed.

(** ** Pod-only services *)

Lemma claims_withImage k service name :
  claims k (if String.eqb (Image service) "" then withImage service name else service)
  = claims k service.
Proof. by destruct (String.eqb (Image service) ""). Qed.

Lemma UpdateKubernetesObjects_pod k name service service' :
  ∃ spec,
    kubernetes.UpdateKubernetesObjects k name service
      ([] ++ [kubernetes.InitPod k name service'])
    = Pod {| Name := name; Labels := transformer.ConfigLabels name |} spec
      :: claims k service.
Proof.
  destruct (UpdateKubernetesObjects_shape k name service
              ([] ++ [kubernetes.InitPod k name service']))
    as (upd & _ & _ & Hpod & ->).
  simpl. unfold kubernetes.InitPod.
  destruct (Hpod {| Name := name; Labels := transformer.ConfigLabels name |}
              (kubernetes.InitPodSpec k name (Image service'))) as [spec ->].
  by exists spec.
Qed.

(** C2, amended: for a service with restart policy "no" or "on-failure" and
    no forced controller kind, what [Transform] emits, on either platform, is
    one bare Pod, carrying the name and the label of the service, followed by
    the storage claims of the service and by nothing else: no controller, no
    Service, no route or ingress.  The iteration does emit that whenever its
    build-and-push step succeeds. *)
Theorem pod_only_service p h opt name service :
  kubernetes.podOnly service = true →
  forced p opt = false →
  (∀ os, emits p h opt name service os →
         ∃ spec,
           os = Pod {| Name := name; Labels := transformer.ConfigLabels name |} spec
                :: claims (receiver p) service)
  ∧ (buildLocal p h opt name service = Ok () →
     ∃ os, emits p h opt name service os).
Proof.
  intros Hpod Hforced.
  assert (kubernetes.podOnly
            (if String.eqb (Image service) "" then withImage service name else service)
          = true) as Hpod'.
  { by destruct (String.eqb (Image service) ""). }
  destruct p as [k|o]; simpl in *.
  - unfold kubernetes.transformService. split.
    + intros os. destruct (kubernetes.buildLocal h opt name service); simpl; try done.
      rewrite Hpod', Hforced. simpl. intros [= <-].
      rewrite <- (claims_withImage k service name).
      apply UpdateKubernetesObjects_pod.
    + intros ->. simpl. rewrite Hpod', Hforced. simpl. eauto.
  - unfold appends, openshift.transformService. split.
    + intros os (vars & vars' & Hrun & Hos). revert Hrun.
      destruct (openshift.buildLocal h opt name service); simpl; try done.
      rewrite Hpod', Hforced. intros [= <-]. simpl in Hos.
      apply app_inv_head in Hos as <-.
      rewrite <- (claims_withImage (openshift.Kubernetes o) service name).
      apply UpdateKubernetesObjects_pod.
    + intros ->. simpl. rewrite Hpod', Hforced.
      eexists _, {| openshift.allobjects := []; openshift.buildRepo := "";
                    openshift.buildBranch := "" |}, _.
      split; [done|]. simpl. done.
Qed.

Lemma pod_only_service_witness :
  ∃ os spec,
    emits (onKubernetes sample.k) (sample.host false) (sample.options "none")
      "worker" sample.worker os
    ∧ os = [Pod {| Name := "worker"; Labels := transformer.ConfigLabels "worker" |} spec;
            claimFor (sample.volume "worker-claim0" "/data")].
Proof.
  destruct (pod_only_service (onKubernetes sample.k) (sample.host false)
              (sample.options "none") "worker" sample.worker)
    as [Hshape [os Hos]]; [reflexivity..|].
  destruct (Hshape os Hos) as [spec Hspec].
  exists os, spec. split; [exact Hos|exact Hspec].
Defined.

(** C2 as stated fails: a service with restart policy "on-failure" and a
    volume gets, on both platforms, a Pod and a storage claim. *)
Lemma pod_only_service_with_volume :
  kinds (Transform (onKubernetes sample.k) (sample.host false)
           (sample.model [("worker", sample.worker)]) (sample.options "none"))
  = Ok [KPod; KPersistentVolumeClaim]
  ∧ kinds (Transform (onOpenShift sample.o) (sample.host false)
             (sample.model [("worker", sample.worker)]) (sample.options "none"))
    = Ok [KPod; KPersistentVolumeClaim].
Proof. split; vm_compute; reflexivity. Qed.

(** ** Failing transforms *)

Lemma buildLocal_returnsOrFails p h opt name service :
  returnsOrFails p (buildLocal p h opt name service).
Proof.
  unfold returnsOrFails, fails.
  destruct p as [k|o]; simpl;
    unfold kubernetes.buildLocal, openshift.buildLocal;
    (destruct (_ && _ && _); [|by eauto]);
    (destruct (String.eqb (Image service) ""); [by eauto|]);
    (destruct (GetComposeFileDir h (InputFiles opt)); simpl; [|by eauto]);
    (destruct (BuildDockerImage h service name a); [by eauto 10|]);
    (destruct (PushDockerImage h service name); by eauto 10).
Qed.

Lemma kubernetes_transformService_returnsOrFails k h opt name service :
  returnsOrFails (onKubernetes k) (kubernetes.transformService k h opt name service).
Proof.
  unfold kubernetes.transformService.
  destruct (buildLocal_returnsOrFails (onKubernetes k) h opt name service)
    as [[[] Hb]|[[err Hb]|(o & msg & [=] & _)]]; simpl in Hb; rewrite Hb; simpl.
  2:{ right. left. eauto. }
  set (service' := if String.eqb (Image service) "" then _ else _).
  destruct (kubernetes.podOnly service').
  { destruct (_ || _ || _); simpl; [right; left; eauto|left; eauto]. }
  unfold kubernetes.PortsExist, kubernetes.CreateService.
  destruct (Port service') as [|port0 ports] eqn:Hp; simpl; [left; eauto|].
  rewrite ConfigServicePorts_map, Hp. simpl.
  destruct (String.eqb (ExposeService service') ""); simpl; left; eauto.
Qed.

Lemma openshift_transformService_returnsOrFails o h opt name service vars :
  returnsOrFails (onOpenShift o)
    (openshift.transformService o h opt name service vars).
Proof.
  unfold openshift.transformService.
  destruct (buildLocal_returnsOrFails (onOpenShift o) h opt name service)
    as [[[] Hb]|Hb]; simpl in Hb.
  2:{ right. destruct Hb as [[err ->]|(o' & msg & _ & ->)]; simpl.
      - left. eauto.
      - right. eauto. }
  rewrite Hb. simpl.
  set (service' := if String.eqb (Image service) "" then _ else _).
  destruct (kubernetes.podOnly service').
  { destruct (IsDeploymentConfigFlag opt); [right; left; eauto|left; eauto]. }
  match goal with |- context [openshift.buildConfigStep ?a ?b ?c ?d ?e ?f ?g] =>
    assert (returnsOrFails (onOpenShift o) (openshift.buildConfigStep a b c d e f g))
      as Hstep;
    [|destruct (openshift.buildConfigStep a b c d e f g) as [[[[objects r] b']|]| | |]]
  end.
  { unfold openshift.buildConfigStep, returnsOrFails, fails.
    destruct (_ && _); [|by eauto].
    destruct (GetComposeFileDir h (InputFiles opt)); [|by eauto].
    destruct (_ && _); [by eauto|].
    destruct (String.eqb (openshift.buildBranch vars) "");
      [destruct (openshift.getGitCurrentBranch h a); simpl; [|by eauto]|simpl];
      (destruct (String.eqb (BuildRepo opt) "");
       [destruct (openshift.getGitCurrentRemoteURL h a); simpl; [|by eauto]|simpl]);
      unfold openshift.initBuildConfig;
      destruct (openshift.getAbsBuildContext h (Build service')); by eauto. }
  - simpl. unfold kubernetes.PortsExist, kubernetes.CreateService.
    destruct (Port service') as [|port0 ports] eqn:Hp; simpl; [left; eauto|].
    rewrite ConfigServicePorts_map, Hp. simpl.
    destruct (String.eqb (ExposeService service') ""); simpl; left; eauto.
  - left. simpl. eauto.
  - right. left. simpl. eauto.
  - right. right. simpl. eauto.
  - destruct Hstep as [[? [=]]|[[? [=]]|(? & ? & _ & [=])]].
Qed.

Lemma kubernetes_rejects k h opt name service :
  kubernetes.podOnly service = true → forced (onKubernetes k) opt = true →
  ∃ err, kubernetes.transformService k h opt name service = Error err.
Proof.
  intros Hpod Hforced. unfold kubernetes.transformService.
  destruct (buildLocal_returnsOrFails (onKubernetes k) h opt name service)
    as [[[] Hb]|[[err Hb]|(o & msg & [=] & _)]]; simpl in Hb; rewrite Hb; simpl.
  2:{ eauto. }
  assert (kubernetes.podOnly
            (if String.eqb (Image service) "" then withImage service name else service)
          = true) as ->.
  { by destruct (String.eqb (Image service) ""). }
  simpl in Hforced. rewrite Hforced. simpl. eauto.
Qed.

Lemma openshift_rejects o h opt name service vars :
  kubernetes.podOnly service = true → forced (onOpenShift o) opt = true →
  fails (onOpenShift o) (openshift.transformService o h opt name service vars).
Proof.
  intros Hpod Hforced. unfold openshift.transformService.
  destruct (buildLocal_returnsOrFails (onOpenShift o) h opt name service)
    as [[[] Hb]|Hb]; simpl in Hb.
  2:{ destruct Hb as [[err ->]|(o' & msg & _ & ->)]; simpl.
      - left. eauto.
      - right. eauto. }
  rewrite Hb. simpl.
  assert (kubernetes.podOnly
            (if String.eqb (Image service) "" then withImage service name else service)
          = true) as ->.
  { by destruct (String.eqb (Image service) ""). }
  simpl in Hforced. rewrite Hforced. left. eauto.
Qed.

Lemma kubernetes_transformLoop_fails k h komposeObject opt keys name acc :
  name ∈ keys →
  (∃ err, kubernetes.transformService k h opt name (configOf komposeObject name)
          = Error err) →
  ∃ err, kubernetes.transformLoop k h komposeObject opt keys acc = Error err.
Proof.
  intros Hin Hname. revert acc.
  induction keys as [|n keys IH]; intros acc; [by apply elem_of_nil in Hin|].
  simpl. fold (configOf komposeObject n).
  destruct (kubernetes_transformService_returnsOrFails k h opt n
              (configOf komposeObject n))
    as [[os Hn]|[[err Hn]|(o & msg & [=] & _)]]; rewrite Hn; simpl; [|eauto].
  apply elem_of_cons in Hin as [->|Hin]; [|by apply IH].
  destruct Hname as [err Herr]. congruence.
Qed.

Lemma openshift_transformLoop_fails o h komposeObject opt keys name vars :
  name ∈ keys →
  (∀ vars, fails (onOpenShift o)
             (openshift.transformService o h opt name (configOf komposeObject name)
                vars)) →
  fails (onOpenShift o) (openshift.transformLoop o h komposeObject opt keys vars).
Proof.
  intros Hin Hname. revert vars.
  induction keys as [|n keys IH]; intros vars; [by apply elem_of_nil in Hin|].
  simpl. fold (configOf komposeObject n).
  destruct (openshift_transformService_returnsOrFails o h opt n
              (configOf komposeObject n) vars)
    as [[vars' Hn]|Hn].
  - apply elem_of_cons in Hin as [->|Hin].
    + destruct (Hname vars) as [[err Herr]|(o' & msg & _ & Herr)]; congruence.
    + rewrite Hn. simpl. by apply IH.
  - destruct Hn as [[err ->]|(o' & msg & _ & ->)]; simpl.
    + left. eauto.
    + right. eauto.
Qed.

(** C6: when a service has restart policy "no" or "on-failure" and the options
    force a controller kind (deployment, daemon set or replication controller
    on Kubernetes; deployment config on OpenShift), [Transform] returns no
    graph: it returns an error (or, on OpenShift, a failed build or push of a
    service handled before has already ended the process). *)
Theorem forced_controller_rejected p h komposeObject opt name service :
  ServiceConfigs komposeObject !! name = Some service →
  kubernetes.podOnly service = true →
  forced p opt = true →
  fails p (Transform p h komposeObject opt)
  ∧ ∀ objs, Transform p h komposeObject opt ≠ Ok objs.
Proof.
  intros Hservice Hpod Hforced.
  assert (fails p (Transform p h komposeObject opt)) as Hfails.
  { assert (name ∈ kubernetes.SortedKeys komposeObject) as Hin.
    { apply SortedKeys_elem. eauto. }
    assert (configOf komposeObject name = service) as Hcfg.
    { unfold configOf. by rewrite Hservice. }
    destruct p as [k|o]; simpl.
    - unfold kubernetes.Transform.
      destruct (kubernetes_transformLoop_fails k h komposeObject opt
                  (kubernetes.SortedKeys komposeObject) name [] Hin) as [err ->].
      + rewrite Hcfg. by apply kubernetes_rejects.
      + left. simpl. eauto.
    - unfold openshift.Transform.
      destruct (openshift_transformLoop_fails o h komposeObject opt
                  (kubernetes.SortedKeys komposeObject) name
                  {| openshift.allobjects := [];
                     openshift.buildRepo := BuildRepo opt;
                     openshift.buildBranch := BuildBranch opt |} Hin)
        as [[err ->]|(o' & msg & _ & ->)].
      + intros vars. rewrite Hcfg. by apply openshift_rejects.
      + left. simpl. eauto.
      + right. simpl. eauto. }
  split; [done|]. intros objs Hobjs.
  destruct Hfails as [[err Herr]|(o & msg & _ & Herr)]; congruence.
Qed.

Lemma forced_controller_rejected_witness :
  ∃ err,
    Transform (onKubernetes sample.k) (sample.host false)
      (sample.model [("web", sample.web); ("worker", sample.worker)])
      sample.forcing = Error err.
Proof.
  destruct (forced_controller_rejected (onKubernetes sample.k) (sample.host false)
              (sample.model [("web", sample.web); ("worker", sample.worker)])
              sample.forcing "worker" sample.worker)
    as [[[err Herr]|(o & msg & Hp & _)] _].
  - vm_compute. reflexivity.
  - reflexivity.
  - reflexivity.
  - exists err. exact Herr.
  - discriminate Hp.
Defined.

(** ** Partial graphs *)

(** On Kubernetes a graph is returned only when every iteration of the loop
    returned its objects: a failed build, push or builder leaves no graph. *)
Lemma kubernetes_no_partial_graph k h komposeObject opt objs name :
  kubernetes.Transform k h komposeObject opt = Ok objs →
  is_Some (ServiceConfigs komposeObject !! name) →
  ∃ os, kubernetes.transformService k h opt name (configOf komposeObject name) = Ok os.
Proof.
  intros (oss & Hall & _)%kubernetes_Transform_Ok Hname%SortedKeys_elem.
  apply list_elem_of_lookup in Hname as [i Hi].
  destruct (Forall2_lookup_l _ _ _ _ _ Hall Hi) as (os & _ & Hos). eauto.
Qed.

(** C9 fails on the OpenShift path.  The service "api" asks for a BuildConfig
    and the directory of the compose file cannot be found: the loop logs a
    warning and goes on to the next service, and [Transform] returns a graph
    with the objects of "db" and none of "api". *)
Theorem openshift_partial_graph :
  GetComposeFileDir (sample.host true) (InputFiles (sample.options "build-config"))
  = Fail "getwd failed"
  ∧ kinds (Transform (onOpenShift sample.o) (sample.host true)
             (sample.model
                [("api", sample.service "api:1" "always" "" "./api"
                           [sample.port 0 8080] []);
                 ("db", sample.db)])
             (sample.options "build-config"))
    = Ok [KService; KDeployment; KDeploymentConfig; KImageStream;
          KPersistentVolumeClaim]
  ∧ (λ objs : list Object, GetName <$> objs)
      <$> Transform (onOpenShift sample.o) (sample.host true)
            (sample.model
               [("api", sample.service "api:1" "always" "" "./api"
                          [sample.port 0 8080] []);
                ("db", sample.db)])
            (sample.options "build-config")
    = Ok ["db"; "db"; "db"; "db"; "db-claim0"].
Proof. repeat split; vm_compute; reflexivity. Qed.

(** The same failure on the build-and-push path of the same loop is returned
    as an error. *)
Example openshift_local_build_error :
  Transform (onOpenShift sample.o) (sample.host true)
    (sample.model
       [("api", sample.service "api:1" "always" "" "./api" [sample.port 0 8080] []);
        ("db", sample.db)])
    (sample.options "local")
  = Error "getwd failed".
Proof. vm_compute. reflexivity. Qed.

(** ** The requests of [Undeploy] and [Deploy] *)

Section requests.
Context {W : Type} (c : Cluster W) (timeout : Z).

Lemma continues_refl (st : run W) : continues st st [].
Proof. split; simpl; by rewrite app_nil_r. Qed.

Lemma continues_trans (st1 st2 st3 : run W) new1 new2 :
  continues st1 st2 new1 → continues st2 st3 new2 →
  continues st1 st3 (new1 ++ new2).
Proof.
  intros [Ht1 He1] [Ht2 He2]. split.
  - by rewrite Ht2, Ht1, app_assoc.
  - by rewrite He2, He1, omap_app, app_assoc.
Qed.

Lemma continues_record (st : run W) w ev : continues st (record st w ev) [ev].
Proof. split; simpl; [done|]. by destruct (eventError ev). Qed.

Lemma removeListed_continues how namespace v items st :
  ∃ new,
    continues st
      (removeListed c timeout how (kindOf v) namespace (GetName v)
         {[ transformer.Selector := GetName v ]} items st) new
    ∧ Forall (requestFor timeout namespace v) new.
Proof.
  revert st. induction items as [|l items IH]; intros st; simpl.
  { exists []. split; [apply continues_refl|constructor]. }
  case_bool_decide as Hl; [|apply IH].
  destruct how.
  - destruct (ReaperFor c (kindOf v)) as [err|].
    { eexists [_]. split; [apply continues_record|]. by repeat constructor. }
    destruct (Stop c (kindOf v) namespace (GetName v) timeout _) as [w [err|]].
    + eexists [_; _]. split.
      * eapply (continues_trans _ _ _ [_] [_]); apply continues_record.
      * by repeat constructor.
    + edestruct IH as (new & Hnew & Hall).
      eexists (_ :: _ :: new). split.
      * eapply (continues_trans _ _ _ [_; _]); [|exact Hnew].
        eapply (continues_trans _ _ _ [_] [_]); apply continues_record.
      * by repeat constructor.
  - destruct (Stop c (kindOf v) namespace (GetName v) timeout _) as [w [err|]].
    + eexists [_]. split; [apply continues_record|]. by repeat constructor.
    + edestruct IH as (new & Hnew & Hall).
      eexists (_ :: new). split.
      * eapply (continues_trans _ _ _ [_]); [apply continues_record|exact Hnew].
      * by repeat constructor.
  - destruct (Delete c (kindOf v) namespace (GetName v) _) as [w [err|]].
    + eexists [_]. split; [apply continues_record|]. by repeat constructor.
    + edestruct IH as (new & Hnew & Hall).
      eexists (_ :: new). split.
      * eapply (continues_trans _ _ _ [_]); [apply continues_record|exact Hnew].
      * by repeat constructor.
Qed.

(** An iteration of the loop over the graph sends only requests for its
    object, and, when the type switch has a case for the object, the listing
    comes first. *)
Lemma undeployObject_continues cases namespace st v :
  ∃ new,
    continues st (undeployObject c timeout cases namespace st v) new
    ∧ Forall (requestFor timeout namespace v) new
    ∧ (is_Some (cases (kindOf v)) →
       ∃ err rest,
         new = EvList (kindOf v) namespace {[ transformer.Selector := GetName v ]} err
               :: rest).
Proof.
  unfold undeployObject.
  destruct (cases (kindOf v)) as [[how breakOnListError]|].
  2:{ exists []. split; [apply continues_refl|]. split; [constructor|].
      by intros [? [=]]. }
  destruct (List c (kindOf v) namespace _ (world st)) as [items err].
  set (st1 := record st (world st) _).
  assert (continues st st1 [EvList (kindOf v) namespace
                              {[ transformer.Selector := GetName v ]} err]) as H1.
  { apply continues_record. }
  assert (∃ new, continues st
            (removeListed c timeout how (kindOf v) namespace (GetName v)
               {[ transformer.Selector := GetName v ]} items st1)
            (EvList (kindOf v) namespace {[ transformer.Selector := GetName v ]} err
             :: new)
          ∧ Forall (requestFor timeout namespace v) new) as (new & Hnew & Hall).
  { destruct (removeListed_continues how namespace v items st1)
      as (new & Hnew & Hall).
    exists new. split; [|done].
    by apply (continues_trans _ _ _ [_] new H1). }
  destruct err as [err|]; [destruct breakOnListError|].
  - eexists [_]. split; [exact H1|]. split; [by repeat constructor|eauto].
  - eexists (_ :: new). split; [exact Hnew|].
    split; [by repeat constructor|eauto].
  - eexists (_ :: new). split; [exact Hnew|].
    split; [by repeat constructor|eauto].
Qed.

(** The loop visits every object of the graph, whatever failed before. *)
Lemma undeployLoop_continues cases namespace objects st :
  ∃ new,
    continues st (undeployLoop c timeout cases namespace objects st) new
    ∧ Forall (λ ev, ∃ v, v ∈ objects ∧ requestFor timeout namespace v ev) new
    ∧ ∀ v, v ∈ objects → is_Some (cases (kindOf v)) →
           ∃ err,
             EvList (kindOf v) namespace {[ transformer.Selector := GetName v ]} err
             ∈ new.
Proof.
  unfold undeployLoop. revert st.
  induction objects as [|v objects IH]; intros st; simpl.
  { exists []. split; [apply continues_refl|]. split; [constructor|].
    by intros v ?%elem_of_nil. }
  destruct (undeployObject_continues cases namespace st v)
    as (new1 & Hnew1 & Hall1 & Hlist).
  destruct (IH (undeployObject c timeout cases namespace st v))
    as (new2 & Hnew2 & Hall2 & Hlists).
  exists (new1 ++ new2). split; [by eapply continues_trans|]. split.
  - apply Forall_app. split.
    + eapply Forall_impl; [exact Hall1|]. intros ev Hev. exists v.
      split; [by left|done].
    + eapply Forall_impl; [exact Hall2|]. intros ev (v' & Hv' & Hev). exists v'.
      split; [by right|done].
  - intros v' [->|Hv']%elem_of_cons Hcase.
    + destruct (Hlist Hcase) as (err & rest & ->). exists err.
      apply elem_of_app. left. by left.
    + destruct (Hlists v' Hv' Hcase) as [err Herr]. exists err.
      apply elem_of_app. by right.
Qed.

(** Listed items whose label set is not the expected one are passed over. *)
Lemma removeListed_exact how kind namespace name komposeLabel items st :
  removeListed c timeout how kind namespace name komposeLabel items st
  = removeListed c timeout how kind namespace name komposeLabel
      (filter (λ l, Labels l = komposeLabel) items) st.
Proof.
  revert st. induction items as [|l items IH]; intros st; [done|].
  rewrite filter_cons. simpl.
  destruct (decide (Labels l = komposeLabel)) as [Hl|Hl].
  - simpl. rewrite !bool_decide_eq_true_2 by done.
    destruct how.
    + destruct (ReaperFor c kind); [done|].
      destruct (Stop c kind namespace name timeout _) as [w [err|]]; [done|apply IH].
    + destruct (Stop c kind namespace name timeout _) as [w [err|]]; [done|apply IH].
    + destruct (Delete c kind namespace name _) as [w [err|]]; [done|apply IH].
  - rewrite bool_decide_eq_false_2 by done. apply IH.
Qed.



End requests.

(** *** [Undeploy] on both platforms *)

Lemma Undeploy_cases {W : Type} p h (c : Cluster W) komposeObject opt w r :
  Undeploy p h c komposeObject opt w = Ok r →
  trace r = []
  ∨ ∃ objs ns,
      Transform p h komposeObject opt = Ok objs
      ∧ clientsReady p c ns
      ∧ r = undeployLoop c 300 (removes p) (namespaceOf opt ns) objs
              {| world := w; errorList := []; trace := [] |}.
Proof.
  destruct p as [k|o]; simpl;
    unfold kubernetes.Undeploy, openshift.Undeploy, clientsReady.
  - destruct (kubernetes.Transform k h komposeObject opt) as [objs| | |]; try done.
    2:{ intros [= <-]. by left. }
    destruct (GetKubernetesClient c) as [ns|err].
    2:{ intros [= <-]. by left. }
    intros [= <-]. right. by exists objs, ns.
  - destruct (openshift.Transform o h komposeObject opt) as [objs| | |]; try done.
    2:{ intros [= <-]. by left. }
    destruct (getOpenShiftClient c) as [err|].
    { intros [= <-]. by left. }
    destruct (GetKubernetesClient c) as [ns|err].
    2:{ intros [= <-]. by left. }
    intros [= <-]. right. by exists objs, ns.
Qed.

Lemma Undeploy_ready {W : Type} p h (c : Cluster W) komposeObject opt w objs ns :
  Transform p h komposeObject opt = Ok objs →
  clientsReady p c ns →
  Undeploy p h c komposeObject opt w
  = Ok (undeployLoop c 300 (removes p) (namespaceOf opt ns) objs
          {| world := w; errorList := []; trace := [] |}).
Proof.
  intros Hobjs [Hk Ho]. destruct p as [k|o]; simpl in *;
    unfold kubernetes.Undeploy, openshift.Undeploy.
  - by rewrite Hobjs, Hk.
  - by rewrite Hobjs, Ho, Hk.
Qed.

(** X23: every removal request of [Undeploy] (a reaper's [Stop] or a client's
    [Delete]) is sent in the iteration of a listed item whose label set is
    equal, as a whole map, to the single-entry map from the selector key to
    the name of an object of the recomputed graph; the request names that
    object of the graph, not the listed item.  The items of a listing whose
    label set is anything else, for instance that entry among others, are
    passed over: the loop over the listing does what it does on the listing
    without them. *)
Theorem Undeploy_exact_labels {W : Type} p h (c : Cluster W) komposeObject opt w r :
  Undeploy p h c komposeObject opt w = Ok r →
  Forall (removesExactItem (Transform p h komposeObject opt)) (trace r)
  ∧ ∀ how kind namespace name items st,
      removeListed c 300 how kind namespace name
        {[ transformer.Selector := name ]} items st
      = removeListed c 300 how kind namespace name
          {[ transformer.Selector := name ]}
          (filter (λ l, Labels l = {[ transformer.Selector := name ]}) items) st.
Proof.
  intros Hr. split; [|intros; apply removeListed_exact].
  apply Undeploy_cases in Hr as [->|(objs & ns & Hobjs & _ & ->)]; [constructor|].
  destruct (undeployLoop_continues c 300 (removes p) (namespaceOf opt ns) objs
              {| world := w; errorList := []; trace := [] |})
    as (new & [-> _] & Hall & _).
  simpl. eapply Forall_impl; [exact Hall|].
  intros ev (v & Hv & Hev). unfold removesExactItem.
  destruct ev; simpl in Hev; try done.
  - destruct Hev as (-> & _ & -> & _ & Hl). split; [done|]. by exists objs, v.
  - destruct Hev as (-> & _ & -> & Hl). split; [done|]. by exists objs, v.
Qed.

Lemma Undeploy_exact_labels_witness :
  ∃ r,
    Undeploy (onKubernetes sample.k) (sample.host false) (sample.controlPlane [])
      (sample.model [("web", sample.web)]) (sample.options "none") sample.deployed
    = Ok r
    ∧ Forall (removesExactItem
                (Transform (onKubernetes sample.k) (sample.host false)
                   (sample.model [("web", sample.web)]) (sample.options "none")))
        (trace r).
Proof.
  assert ({r | Undeploy (onKubernetes sample.k) (sample.host false)
                 (sample.controlPlane []) (sample.model [("web", sample.web)])
                 (sample.options "none") sample.deployed = Ok r}) as [r Hr].
  { eexists. vm_compute. reflexivity. }
  exists r. split; [exact Hr|].
  exact (proj1 (Undeploy_exact_labels _ _ _ _ _ _ _ Hr)).
Defined.

(** The Service "web-blue" carries the label of "web" among others: the
    listing by selector returns it, and it stays. *)
Example Undeploy_superset_example :
  (List (sample.controlPlane []) KService "default"
     (transformer.ConfigLabels "web") sample.deployed).1
  = [ {| Name := "web"; Labels := transformer.ConfigLabels "web" |};
      {| Name := "web-blue";
         Labels := <["tier" := "blue"]> (transformer.ConfigLabels "web") |} ]
  ∧ removals (Undeploy (onKubernetes sample.k) (sample.host false)
                (sample.controlPlane []) (sample.model [("web", sample.web)])
                (sample.options "none") sample.deployed)
    = [(KService, "web", "web"); (KDeployment, "web", "web")]
  ∧ remaining (Undeploy (onKubernetes sample.k) (sample.host false)
                 (sample.controlPlane []) (sample.model [("web", sample.web)])
                 (sample.options "none") sample.deployed)
    = [(KService, "web-blue")].
Proof. repeat split; vm_compute; reflexivity. Qed.

(** C7 fails on both paths.  The live Service "web" carries the label of
    "web" among others, and the live Service "other" carries exactly that
    label.  The listing by selector returns both; the loop passes over "web"
    and, in the iteration of "other", whose label set is the expected one,
    sends the removal of the object named like the object of the graph:
    "web", whose labels merely include the entry, is removed, and "other"
    stays. *)
Theorem Undeploy_removes_relabelled :
  (List (sample.controlPlane []) KService "default"
     (transformer.ConfigLabels "web") relabelled).1
  = [ {| Name := "web";
         Labels := <["tier" := "blue"]> (transformer.ConfigLabels "web") |};
      {| Name := "other"; Labels := transformer.ConfigLabels "web" |} ]
  ∧ removals (Undeploy (onKubernetes sample.k) (sample.host false) (sample.controlPlane [])
                (sample.model [("web", sample.web)]) (sample.options "none")
                relabelled)
    = [(KService, "web", "other")]
  ∧ remaining (Undeploy (onKubernetes sample.k) (sample.host false) (sample.controlPlane [])
                 (sample.model [("web", sample.web)]) (sample.options "none")
                 relabelled)
    = [(KService, "other")]
  ∧ errors (Undeploy (onKubernetes sample.k) (sample.host false) (sample.controlPlane [])
              (sample.model [("web", sample.web)]) (sample.options "none")
              relabelled)
    = []
  ∧ removals (Undeploy (onOpenShift sample.o) (sample.host false) (sample.controlPlane [])
                (sample.model [("web", sample.web)]) (sample.options "none")
                relabelled)
    = [(KService, "web", "other")]
  ∧ remaining (Undeploy (onOpenShift sample.o) (sample.host false) (sample.controlPlane [])
                 (sample.model [("web", sample.web)]) (sample.options "none")
                 relabelled)
    = [(KService, "other")]
  ∧ errors (Undeploy (onOpenShift sample.o) (sample.host false) (sample.controlPlane [])
              (sample.model [("web", sample.web)]) (sample.options "none")
              relabelled)
    = [].
Proof. repeat split; vm_compute; reflexivity. Qed.



(** The listing of Services fails: its error is collected, and the loop goes
    on to the Ingress and to the Deployment, which it removes. *)
Example Undeploy_continues_example :
  errors (Undeploy (onKubernetes sample.k) (sample.host false)
            (sample.controlPlane [KService]) (sample.model [("web", sample.web)])
            (sample.options "none") sample.deployed)
  = ["server error"]
  ∧ removals (Undeploy (onKubernetes sample.k) (sample.host false)
                (sample.controlPlane [KService]) (sample.model [("web", sample.web)])
                (sample.options "none") sample.deployed)
    = [(KDeployment, "web", "web")]
  ∧ errors (Undeploy (onKubernetes sample.k) (sample.host false)
              (sample.controlPlane []) (sample.model [("web", sample.web)])
              (sample.options "none") [])
    = [].
Proof. repeat split; vm_compute; reflexivity. Qed.

(** *** [Deploy] on Kubernetes *)

Lemma deployLoop_filter {W : Type} (c : Cluster W) creates namespace
    (P : Object → Prop) `{!∀ v, Decision (P v)} objects w sent :
  (∀ v, ¬ P v → creates (kindOf v) = false) →
  deployLoop c creates namespace objects w sent
  = deployLoop c creates namespace (filter P objects) w sent.
Proof.
  intros HP. revert w sent.
  induction objects as [|v objects IH]; intros w sent; [done|].
  rewrite filter_cons. destruct (decide (P v)) as [Hv|Hv]; simpl.
  - destruct (creates (kindOf v)); [|apply IH].
    destruct (Create c namespace v w) as [w' [err|]]; [done|apply IH].
  - rewrite (HP v Hv). apply IH.
Qed.

Lemma deployLoop_sent {W : Type} (c : Cluster W) creates namespace objects w sent :
  ∃ new,
    (deployLoop c creates namespace objects w sent).1.2 = sent ++ new
    ∧ Forall (λ ev, ∃ obj err,
                ev = EvCreate namespace obj err
                ∧ obj ∈ objects ∧ creates (kindOf obj) = true) new.
Proof.
  revert w sent. induction objects as [|v objects IH]; intros w sent; simpl.
  { exists []. split; [by rewrite app_nil_r|constructor]. }
  assert (∀ new,
            Forall (λ ev, ∃ obj err, ev = EvCreate namespace obj err
                          ∧ obj ∈ objects ∧ creates (kindOf obj) = true) new →
            Forall (λ ev, ∃ obj err, ev = EvCreate namespace obj err
                          ∧ obj ∈ v :: objects ∧ creates (kindOf obj) = true) new)
    as Hweaken.
  { intros new Hnew. eapply Forall_impl; [exact Hnew|].
    intros ev (obj & err & -> & Hin & Hc).
    exists obj, err. split; [done|]. split; [by right|done]. }
  destruct (creates (kindOf v)) eqn:Hv.
  2:{ destruct (IH w sent) as (new & -> & Hall). exists new. auto. }
  destruct (Create c namespace v w) as [w' [err|]]; simpl.
  - eexists [_]. split; [done|]. constructor; [|constructor].
    exists v, (Some err). split; [done|]. split; [by left|done].
  - destruct (IH w' (sent ++ [EvCreate namespace v None])) as (new & -> & Hall).
    eexists (_ :: new). split; [by rewrite <- app_assoc|].
    constructor; [|auto].
    exists v, None. split; [done|]. split; [by left|done].
Qed.

Lemma kubernetes_emits_controllers k h opt name service os :
  kubernetes.transformService k h opt name service = Ok os →
  kubernetes.podOnly service = false →
  (CreateRC opt = true → ∃ x, x ∈ os ∧ kindOf x = KReplicationController)
  ∧ (CreateDS opt = true → ∃ x, x ∈ os ∧ kindOf x = KDaemonSet).
Proof.
  unfold kubernetes.transformService.
  destruct (kubernetes.buildLocal h opt name service); simpl; try done.
  set (service' := if String.eqb (Image service) "" then _ else _).
  assert (kubernetes.podOnly service' = kubernetes.podOnly service) as ->.
  { subst service'. by destruct (String.eqb (Image service) ""). }
  intros Hos Hpod. rewrite Hpod in Hos.
  assert (∃ rest,
            os = kubernetes.UpdateKubernetesObjects k name service'
                   (kubernetes.CreateKubernetesObjects k name service' opt ++ rest))
    as (rest & ->).
  { revert Hos. destruct (kubernetes.PortsExist k name service'); simpl.
    - destruct (negb _); simpl.
      + destruct (kubernetes.ConfigServicePorts k name service'); simpl; [done|].
        intros [= <-]. eexists. by rewrite <- app_assoc.
      + intros [= <-]. by eexists.
    - intros [= <-]. by eexists. }
  destruct (UpdateKubernetesObjects_shape k name service'
              (kubernetes.CreateKubernetesObjects k name service' opt ++ rest))
    as (upd & Hkind & _ & _ & ->).
  unfold kubernetes.CreateKubernetesObjects.
  split; intros ->.
  - eexists (upd (kubernetes.InitRC k name service' _)). split; [|by rewrite Hkind].
    apply elem_of_app. left. apply list_elem_of_fmap_2.
    apply elem_of_app. left. apply elem_of_app. right. by left.
  - eexists (upd (kubernetes.InitDS k name service')). split; [|by rewrite Hkind].
    apply elem_of_app. left. apply list_elem_of_fmap_2.
    apply elem_of_app. left. destruct (CreateRC opt).
    + apply elem_of_app. left. apply elem_of_app. right. by left.
    + apply elem_of_app. right. by left.
Qed.

Lemma SortServicesFirst_elem k objs x :
  x ∈ kubernetes.SortServicesFirst k objs ↔ x ∈ objs.
Proof.
  unfold kubernetes.SortServicesFirst.
  rewrite elem_of_app, !list_elem_of_filter. split.
  - by intros [[_ Hx]|[_ Hx]].
  - intros Hx. destruct (kubernetes.isExposure x); [by left|by right].
Qed.

Lemma elem_of_concat {A : Type} (x : A) (l : list A) (ls : list (list A)) :
  l ∈ ls → x ∈ l → x ∈ concat ls.
Proof.
  induction 1 as [l ls|l l' ls _ IH]; intros Hx; simpl; apply elem_of_app.
  - by left.
  - right. by apply IH.
Qed.

(** C10: the loop of [Deploy] on Kubernetes sends a create request only for
    Deployment, Service, PersistentVolumeClaim, Ingress and Pod objects of the
    graph.  A ReplicationController or DaemonSet of the graph (the graph has
    one for every service that is not pod-only when the options ask for that
    controller) is passed over: no request, no error; [Deploy] does what it
    does on the graph without these objects. *)
Theorem Deploy_skips_controllers {W : Type} k h (c : Cluster W) komposeObject opt w
    objs ns :
  kubernetes.Transform k h komposeObject opt = Ok objs →
  GetKubernetesClient c = Return ns →
  ∃ w' sent err,
    kubernetes.Deploy k h c komposeObject opt w = Ok (w', sent, err)
    ∧ Forall (λ ev, ∃ obj e,
                ev = EvCreate (namespaceOf opt ns) obj e
                ∧ obj ∈ objs
                ∧ kindOf obj ∈ [KDeployment; KService; KPersistentVolumeClaim;
                                KIngress; KPod]) sent
    ∧ (w', sent, err)
      = deployLoop c kubernetes.creates (namespaceOf opt ns)
          (filter (λ v, kindOf v ≠ KReplicationController ∧ kindOf v ≠ KDaemonSet)
             objs) w []
    ∧ ∀ name service,
        ServiceConfigs komposeObject !! name = Some service →
        kubernetes.podOnly service = false →
        (CreateRC opt = true → ∃ x, x ∈ objs ∧ kindOf x = KReplicationController)
        ∧ (CreateDS opt = true → ∃ x, x ∈ objs ∧ kindOf x = KDaemonSet).
Proof.
  intros Hobjs Hns. unfold kubernetes.Deploy. rewrite Hobjs, Hns.
  fold (namespaceOf opt ns).
  destruct (deployLoop c kubernetes.creates (namespaceOf opt ns) objs w [])
    as [[w' sent] err] eqn:Hloop.
  exists w', sent, err. split; [done|]. split; [|split].
  - destruct (deployLoop_sent c kubernetes.creates (namespaceOf opt ns) objs w [])
      as (new & Hsent & Hall).
    rewrite Hloop in Hsent. simpl in Hsent. subst sent.
    eapply Forall_impl; [exact Hall|].
    intros ev (obj & e & -> & Hin & Hcreates). exists obj, e.
    split; [done|]. split; [done|].
    destruct (kindOf obj); simpl in Hcreates; try done; set_solver.
  - rewrite <- Hloop. apply deployLoop_filter.
    intros v Hv. destruct (kindOf v) eqn:Hkind; try done; exfalso; apply Hv; done.
  - intros name service Hservice Hpod.
    destruct (kubernetes_no_partial_graph k h komposeObject opt objs name Hobjs)
      as [os Hos]; [eauto|].
    assert (configOf komposeObject name = service) as Hcfg.
    { unfold configOf. by rewrite Hservice. }
    rewrite Hcfg in Hos.
    destruct (kubernetes_emits_controllers k h opt name service os Hos Hpod)
      as [HRC HDS].
    apply kubernetes_Transform_Ok in Hobjs as (oss & Hall & ->).
    assert (os ∈ oss) as Hin.
    { assert (name ∈ kubernetes.SortedKeys komposeObject) as Hname.
      { apply SortedKeys_elem. eauto. }
      apply list_elem_of_lookup in Hname as [i Hi].
      destruct (Forall2_lookup_l _ _ _ _ _ Hall Hi) as (os' & Hos' & Hemit).
      rewrite Hcfg in Hemit. assert (os' = os) as -> by congruence.
      by eapply list_elem_of_lookup_2. }
    split; intros Hopt.
    + destruct (HRC Hopt) as (x & Hx & Hkind). exists x. split; [|done].
      apply SortServicesFirst_elem. by apply (elem_of_concat x os).
    + destruct (HDS Hopt) as (x & Hx & Hkind). exists x. split; [|done].
      apply SortServicesFirst_elem. by apply (elem_of_concat x os).
Qed.

Lemma Deploy_skips_controllers_witness :
  ∃ w' sent err,
    kubernetes.Deploy sample.k (sample.host false) (sample.controlPlane [])
      (sample.model [("web", sample.web)]) sample.controllers [] = Ok (w', sent, err)
    ∧ Forall (λ ev, ∃ obj e,
                ev = EvCreate "default" obj e
                ∧ kindOf obj ∈ [KDeployment; KService; KPersistentVolumeClaim;
                                KIngress; KPod]) sent.
Proof.
  destruct (Deploy_skips_controllers sample.k (sample.host false)
              (sample.controlPlane []) (sample.model [("web", sample.web)])
              sample.controllers []
              (default [] (match kubernetes.Transform sample.k (sample.host false)
                                   (sample.model [("web", sample.web)])
                                   sample.controllers with
                           | Ok objs => Some objs
                           | _ => None
                           end))
              "default")
    as (w' & sent & err & Hdeploy & Hsent & _).
  - vm_compute. reflexivity.
  - reflexivity.
  - exists w', sent, err. split; [exact Hdeploy|].
    eapply Forall_impl; [exact Hsent|].
    intros ev (obj & e & Hev & _ & Hkind). exists obj, e. split; [exact Hev|exact Hkind].
Defined.

(** The graph of "web" with a daemon set and a replication controller asked
    for: [Deploy] creates the Service and the Ingress, and returns no error. *)
Example Deploy_controllers_example :
  kinds (Transform (onKubernetes sample.k) (sample.host false)
           (sample.model [("web", sample.web)]) sample.controllers)
  = Ok [KService; KIngress; KDaemonSet; KReplicationController]
  ∧ match kubernetes.Deploy sample.k (sample.host false) (sample.controlPlane [])
            (sample.model [("web", sample.web)]) sample.controllers [] with
    | Ok (w', sent, err) =>
        ((λ l : Kind * ObjectMeta, (l.1, Name l.2)) <$> w', length sent, err)
        = ([(KService, "web"); (KIngress, "web")], 2%nat, None)
    | _ => False
    end.
Proof. split; vm_compute; reflexivity. Qed.

(** * Further properties *)

(** ** Ports, volumes and environment of a pod *)

Lemma readonly_mode (volume : VolumesEntry) :
  (0 <? String.length (Mode volume))%nat && String.eqb (Mode volume) "ro"
  = readOnly volume.
Proof.
  unfold readOnly. destruct (String.eqb (Mode volume) "ro") eqn:Hmode.
  - apply String.eqb_eq in Hmode as ->. done.
  - by rewrite andb_false_r.
Qed.

Lemma ConfigVolumes_loop_maps k vols mounts volumes PVCs :
  kubernetes.ConfigVolumes_loop k (mounts, volumes, PVCs) vols
  = Ok (mounts ++ (mountFor k <$> vols), volumes ++ (volumeFor k <$> vols),
        PVCs ++ (if EmptyVols (kubernetes.Opt k) then []
                 else claimFor <$> filter (λ volume, VFrom volume = "") vols)).
Proof.
  revert mounts volumes PVCs.
  induction vols as [|volume vols IH]; intros mounts volumes PVCs.
  { simpl. destruct (EmptyVols _); by rewrite !app_nil_r. }
  rewrite !fmap_cons, filter_cons.
  cbn [kubernetes.ConfigVolumes_loop]. unfold kubernetes.ConfigVolumes_step.
  rewrite readonly_mode. fold (volumeNameOf k volume). fold (mountFor k volume).
  assert (∀ src, (if EmptyVols (kubernetes.Opt k) then EmptyDir false
                  else PersistentVolumeClaimSource (volumeNameOf k volume)
                         (readOnly volume)) = src →
                 {| volName := volumeNameOf k volume; volSource := src |}
                 = volumeFor k volume) as Hvol.
  { by intros src <-. }
  assert (EmptyVols (kubernetes.Opt k) = false →
          kubernetes.CreatePVC k (volumeNameOf k volume) (Mode volume)
          = Ok (claimFor volume)) as Hpvc.
  { intros Hempty. unfold kubernetes.CreatePVC, claimFor, volumeNameOf, claimName.
    by rewrite Hempty. }
  unfold kubernetes.ConfigEmptyVolumeSource, kubernetes.ConfigPVCVolumeSource.
  destruct (EmptyVols (kubernetes.Opt k)) eqn:Hempty.
  { simpl. rewrite (Hvol _ eq_refl), IH. by rewrite <- !app_assoc. }
  rewrite Hpvc by done.
  destruct (String.eqb (VFrom volume) "") eqn:Hfrom; simpl;
    rewrite (Hvol _ eq_refl), IH.
  - apply String.eqb_eq in Hfrom. rewrite decide_True by done.
    by rewrite <- !app_assoc.
  - apply String.eqb_neq in Hfrom. rewrite decide_False by done.
    by rewrite <- !app_assoc.
Qed.

(** X1: [ConfigVolumes] never fails.  It returns one mount and one volume per
    declared volume, in order, the mount and the volume at an index carrying
    the same name; a mount is read-only exactly when the mode is "ro".  In
    empty-volume mode every volume is an empty directory and no claim is
    made; otherwise every volume refers to the claim of its own name, and a
    claim is made for every volume that names no other service, under the
    name of that volume. *)
Theorem ConfigVolumes_mounts k name service :
  ∃ mounts volumes PVCs,
    kubernetes.ConfigVolumes k name service = Ok (mounts, volumes, PVCs)
    ∧ length mounts = length (Volumes service)
    ∧ vmName <$> mounts = volName <$> volumes
    ∧ vmMountPath <$> mounts = kobject.Container <$> Volumes service
    ∧ vmReadOnly <$> mounts
      = (λ volume, bool_decide (Mode volume = "ro")) <$> Volumes service
    ∧ (if EmptyVols (kubernetes.Opt k)
       then PVCs = [] ∧ Forall (λ vol, volSource vol = EmptyDir false) volumes
       else Forall (λ vol, ∃ ro, volSource vol
                                 = PersistentVolumeClaimSource (volName vol) ro)
              volumes
            ∧ GetName <$> PVCs
              = volName <$> (volumeFor k
                             <$> filter (λ volume, VFrom volume = "") (Volumes service))
            ∧ Forall (λ pvc, kindOf pvc = KPersistentVolumeClaim
                             ∧ GetName pvc ∈ volName <$> volumes) PVCs).
Proof.
  unfold kubernetes.ConfigVolumes. rewrite ConfigVolumes_loop_maps. simpl.
  do 3 eexists. split; [done|].
  split; [by rewrite length_fmap|].
  split; [by rewrite <- !list_fmap_compose|].
  split; [by rewrite <- !list_fmap_compose|].
  split.
  { rewrite <- !list_fmap_compose. apply list_fmap_ext. intros i volume _. simpl.
    unfold readOnly. destruct (String.eqb (Mode volume) "ro") eqn:Hmode.
    - apply String.eqb_eq in Hmode. by rewrite bool_decide_eq_true_2.
    - apply String.eqb_neq in Hmode. by rewrite bool_decide_eq_false_2. }
  assert (EmptyVols (kubernetes.Opt k) = false →
          ∀ volume, volumeNameOf k volume = claimName volume) as Hname.
  { intros Hempty volume. unfold volumeNameOf, claimName. by rewrite Hempty. }
  unfold volumeFor.
  destruct (EmptyVols (kubernetes.Opt k)) eqn:Hempty.
  { split; [done|]. apply Forall_fmap, Forall_forall. done. }
  split; [|split].
  - apply Forall_fmap, Forall_forall. intros volume _. simpl. eauto.
  - rewrite <- !list_fmap_compose. apply list_fmap_ext. intros i volume _. simpl.
    by rewrite Hname.
  - apply Forall_fmap, Forall_forall. intros volume [_ Hin]%list_elem_of_filter.
    split; [done|]. simpl. rewrite <- list_fmap_compose.
    apply list_elem_of_fmap. exists volume. split; [|done]. simpl. by rewrite Hname.
Qed.

Lemma ConfigPorts_map k name service :
  kubernetes.ConfigPorts k name service = containerPortFor <$> Port service.
Proof.
  unfold kubernetes.ConfigPorts. rewrite (foldl_snoc _ containerPortFor); [done|].
  intros acc port. unfold containerPortFor, ProtocolTCP.
  by destruct (String.eqb (Protocol port) "TCP").
Qed.

(** X2: [ConfigPorts] returns one container port per declared port, in order,
    with its container port and host IP, the protocol left out when it is
    TCP; and the Service port entry that [ConfigServicePorts] returns at the
    same index targets that container port, with the same protocol. *)
Theorem ConfigPorts_entries k name service :
  Forall2 (λ port entry,
             cpContainerPort entry = kobject.ContainerPort port
             ∧ cpHostIP entry = HostIP port
             ∧ cpProtocol entry
               = if String.eqb (Protocol port) "TCP" then "" else Protocol port)
          (Port service) (kubernetes.ConfigPorts k name service)
  ∧ Forall2 (λ entry servicePort,
               IntVal (spTargetPort servicePort) = cpContainerPort entry
               ∧ StrVal (spTargetPort servicePort)
                 = strings.Itoa (cpContainerPort entry)
               ∧ spProtocol servicePort = cpProtocol entry)
            (kubernetes.ConfigPorts k name service)
            (kubernetes.ConfigServicePorts k name service).
Proof.
  rewrite ConfigPorts_map, ConfigServicePorts_map. split.
  - apply Forall2_fmap_r, Forall_Forall2_diag, Forall_forall. done.
  - apply Forall2_fmap, Forall_Forall2_diag, Forall_forall. done.
Qed.

Lemma foldl_snoc2 {A B C : Type} (f : list B * list C → A → list B * list C)
    (g : A → B) (h : A → C) (l : list A) :
  (∀ bs cs x, f (bs, cs) x = (bs ++ [g x], cs ++ [h x])) →
  ∀ bs cs, foldl f (bs, cs) l = (bs ++ map g l, cs ++ map h l).
Proof.
  intros Hf. induction l as [|x l IH]; intros bs cs; simpl.
  - by rewrite !app_nil_r.
  - by rewrite Hf, IH, <- !app_assoc.
Qed.

Lemma imap_pair_fst {A B : Type} (g : nat → B) (l : list A) :
  (λ ix : B * A, ix.1) <$> imap (λ i x, (g i, x)) l = g <$> seq 0 (length l).
Proof.
  revert g. induction l as [|x l IH]; intros g; [done|].
  simpl. f_equal. rewrite <- fmap_S_seq, <- list_fmap_compose.
  apply (IH (g ∘ S)).
Qed.

Lemma imap_pair_snd {A B : Type} (g : nat → B) (l : list A) :
  (λ ix : B * A, ix.2) <$> imap (λ i x, (g i, x)) l = l.
Proof.
  revert g. induction l as [|x l IH]; intros g; [done|].
  simpl. f_equal. apply (IH (g ∘ S)).
Qed.

Lemma tmpfsName_inj name : Inj (=) (=) (tmpfsName name).
Proof.
  intros i j Hij. unfold tmpfsName, strings.Itoa in Hij.
  apply (inj (String.app name)), (inj (String.app "-tmpfs")) in Hij.
  apply (inj pretty) in Hij. lia.
Qed.

(** X3: [ConfigTmpfs] returns one mount and one volume per tmpfs path, in
    order: the mount at an index has that path and the name of the volume at
    the index, which is the service name, "-tmpfs" and the index; these names
    are pairwise distinct, and every volume is a memory-backed empty
    directory. *)
Theorem ConfigTmpfs_names k name service :
  vmMountPath <$> (kubernetes.ConfigTmpfs k name service).1 = TmpFs service
  ∧ vmName <$> (kubernetes.ConfigTmpfs k name service).1
    = volName <$> (kubernetes.ConfigTmpfs k name service).2
  ∧ volName <$> (kubernetes.ConfigTmpfs k name service).2
    = tmpfsName name <$> seq 0 (length (TmpFs service))
  ∧ NoDup (volName <$> (kubernetes.ConfigTmpfs k name service).2)
  ∧ Forall (λ vol, volSource vol = EmptyDir true)
      (kubernetes.ConfigTmpfs k name service).2.
Proof.
  unfold kubernetes.ConfigTmpfs.
  rewrite (foldl_snoc2 _
             (λ iv : nat * string,
                {| vmName := tmpfsName name iv.1; vmReadOnly := false;
                   vmMountPath := iv.2 |})
             (λ iv : nat * string,
                {| volName := tmpfsName name iv.1; volSource := EmptyDir true |})).
  2:{ by intros bs cs [index volume]. }
  simpl.
  assert (volName <$> map (λ iv : nat * string,
                             {| volName := tmpfsName name iv.1;
                                volSource := EmptyDir true |})
                        (imap pair (TmpFs service))
          = tmpfsName name <$> seq 0 (length (TmpFs service))) as Hnames.
  { assert ((λ iv : nat * string, iv.1) <$> imap pair (TmpFs service)
            = seq 0 (length (TmpFs service))) as <-.
    { etrans; [apply (imap_pair_fst (λ i, i))|apply list_fmap_id]. }
    change (map ?f ?l) with (f <$> l). by rewrite <- !list_fmap_compose. }
  split; [|split; [|split; [|split]]].
  - change (map ?f ?l) with (f <$> l). rewrite <- list_fmap_compose.
    apply (imap_pair_snd (λ i, i)).
  - change (map ?f ?l) with (f <$> l). by rewrite <- !list_fmap_compose.
  - exact Hnames.
  - rewrite Hnames. apply NoDup_fmap_2; [apply tmpfsName_inj|apply NoDup_seq].
  - change (map ?f ?l) with (f <$> l). apply Forall_fmap, Forall_forall. done.
Qed.

Global Instance byName_transitive : Transitive byName.
Proof. intros e1 e2 e3. unfold byName. apply transitivity. Qed.

Lemma insert_sorted_Sorted {A : Type} (le : A → A → bool) (R : relation A) x l :
  (∀ a b, le a b = true → R a b) →
  (∀ a b, le a b = false → R b a) →
  Sorted R l → Sorted R (transformer.insert_sorted le x l).
Proof.
  intros Htrue Hfalse. induction 1 as [|y l Hl IH Hy]; simpl.
  { by repeat constructor. }
  destruct (le x y) eqn:Hxy.
  - constructor; [by constructor|]. constructor. by apply Htrue.
  - constructor; [done|].
    destruct Hy as [|z l Hyz]; simpl.
    + constructor. by apply Hfalse.
    + destruct (le x z); constructor; [by apply Hfalse|done].
Qed.

Lemma stable_sort_Sorted {A : Type} (le : A → A → bool) (R : relation A) l :
  (∀ a b, le a b = true → R a b) →
  (∀ a b, le a b = false → R b a) →
  Sorted R (transformer.stable_sort le l).
Proof.
  intros Htrue Hfalse. induction l as [|x l IH]; simpl; [constructor|].
  by apply insert_sorted_Sorted.
Qed.

(** The sort is stable: the elements with a given key keep their order. *)
Lemma insert_sorted_filter {A K : Type} `{!EqDecision K} (le : A → A → bool)
    (key : A → K) (n : K) x l :
  (∀ a b, key a = key b → le a b = true) →
  filter (λ a, key a = n) (transformer.insert_sorted le x l)
  = filter (λ a, key a = n) (x :: l).
Proof.
  intros Hkey. induction l as [|y l IH]; simpl; [done|].
  destruct (le x y) eqn:Hxy; [done|].
  rewrite filter_cons, IH, !filter_cons.
  destruct (decide (key y = n)) as [Hy|Hy], (decide (key x = n)) as [Hx|Hx];
    try done.
  rewrite (Hkey x y) in Hxy by congruence. done.
Qed.

Lemma stable_sort_filter {A K : Type} `{!EqDecision K} (le : A → A → bool)
    (key : A → K) (n : K) l :
  (∀ a b, key a = key b → le a b = true) →
  filter (λ a, key a = n) (transformer.stable_sort le l)
  = filter (λ a, key a = n) l.
Proof.
  intros Hkey. induction l as [|x l IH]; simpl; [done|].
  by rewrite insert_sorted_filter, !filter_cons, IH.
Qed.

Lemma String_leb_refl (s : string) : String.leb s s = true.
Proof. apply Is_true_true. apply (reflexivity (R:=String.le)). Qed.

Lemma String_leb_false (s1 s2 : string) :
  String.leb s1 s2 = false → String.leb s2 s1 = true.
Proof. destruct (String.leb_total s1 s2) as [->| ->]; done. Qed.

(** X4: [ConfigEnvs] returns the environment variables of the service, each as
    often as it is declared, ordered by name; variables of the same name keep
    the order in which they are declared. *)
Theorem ConfigEnvs_sorted k name service :
  kubernetes.ConfigEnvs k name service ≡ₚ Environment service
  ∧ StronglySorted byName (kubernetes.ConfigEnvs k name service)
  ∧ ∀ n, filter (λ e, EnvName e = n) (kubernetes.ConfigEnvs k name service)
         = filter (λ e, EnvName e = n) (Environment service).
Proof.
  unfold kubernetes.ConfigEnvs, transformer.EnvSort_Stable.
  rewrite (foldl_snoc _ (λ v, v)).
  2:{ by intros acc [n v]. }
  simpl. rewrite map_id.
  split; [apply stable_sort_Permutation|]. split.
  - apply Sorted_StronglySorted; [exact byName_transitive|].
    apply stable_sort_Sorted; unfold byName, String.le.
    + intros a b ->. done.
    + intros a b Hab. rewrite String_leb_false; done.
  - intros n. apply stable_sort_filter.
    intros a b ->. apply String_leb_refl.
Qed.

(** ** [UpdateController] *)


(** The label written before the failure is on the Pod, whose label map the
    copy shares, as it is on the template of a Deployment. *)
Example UpdateController_failure_example :
  kubernetes.UpdateController sample.k
    (Pod {| Name := "job"; Labels := {[ "app" := "job" ]} |}
       {| Containers := []; PodVolumes := [] |})
    labelThenFail (λ meta, meta)
  = (Pod {| Name := "job"; Labels := <["tier" := "blue"]> {[ "app" := "job" ]} |}
       {| Containers := []; PodVolumes := [] |},
     Some "updateTemplate failed: no such image").
Proof. reflexivity. Qed.

(** ** More on [Deploy] *)

Lemma deployLoop_run {W : Type} (c : Cluster W) creates namespace objects w sent :
  ∃ new,
    (deployLoop c creates namespace objects w sent).1.2 = sent ++ new
    ∧ Forall (λ ev, ∃ obj err, ev = EvCreate namespace obj err) new
    ∧ match (deployLoop c creates namespace objects w sent).2 with
      | None =>
          requested new = filter (λ v, creates (kindOf v) = true) objects
          ∧ Forall (λ ev, eventError ev = None) new
      | Some e =>
          ∃ new0 obj,
            new = new0 ++ [EvCreate namespace obj (Some e)]
            ∧ Forall (λ ev, eventError ev = None) new0
            ∧ requested new
              `prefix_of` filter (λ v, creates (kindOf v) = true) objects
      end.
Proof.
  revert w sent. induction objects as [|v objects IH]; intros w sent; simpl.
  { exists []. rewrite app_nil_r. repeat split; constructor. }
  rewrite filter_cons.
  destruct (creates (kindOf v)) eqn:Hv.
  2:{ rewrite decide_False by done. apply IH. }
  rewrite decide_True by done.
  destruct (Create c namespace v w) as [w' [err|]]; simpl.
  - exists [EvCreate namespace v (Some err)]. split; [done|].
    split; [repeat constructor; eauto|].
    exists [], v. split; [done|]. split; [constructor|].
    simpl. by apply prefix_cons, prefix_nil.
  - destruct (IH w' (sent ++ [EvCreate namespace v None])) as (new & Hsent & Hall & Hnew).
    exists (EvCreate namespace v None :: new).
    split; [by rewrite Hsent, <- app_assoc|].
    split; [constructor; eauto|].
    destruct (deployLoop c creates namespace objects w' _).2 as [e|].
    + destruct Hnew as (new0 & obj & -> & Hall0 & Hprefix).
      exists (EvCreate namespace v None :: new0), obj.
      split; [done|]. split; [by constructor|]. simpl. by apply prefix_cons.
    + destruct Hnew as [Hreq Hnone]. split; [simpl; by rewrite Hreq|].
      by constructor.
Qed.

Lemma Deploy_cases {W : Type} p h (c : Cluster W) komposeObject opt w w' sent err :
  Deploy p h c komposeObject opt w = Ok (w', sent, err) →
  (w' = w ∧ sent = [] ∧ is_Some err
   ∧ ((∃ e, Transform p h komposeObject opt = Error e
            ∧ err = Some (transformFailed p +:+ ": " +:+ e))
      ∨ ((∃ objs, Transform p h komposeObject opt = Ok objs)
         ∧ clientError p c = err)))
  ∨ ∃ objs ns,
      Transform p h komposeObject opt = Ok objs
      ∧ clientsReady p c ns
      ∧ (w', sent, err)
        = deployLoop c (match p with
                        | onKubernetes _ => kubernetes.creates
                        | onOpenShift _ => openshift.creates
                        end) (namespaceOf opt ns) objs w [].
Proof.
  destruct p as [k|o]; simpl;
    unfold kubernetes.Deploy, openshift.Deploy, clientsReady, clientError.
  - destruct (kubernetes.Transform k h komposeObject opt) as [objs|e| |]; try done.
    2:{ intros [= <- <- <-]. left. repeat split; eauto. }
    destruct (GetKubernetesClient c) as [ns|e].
    2:{ intros [= <- <- <-]. left. repeat split; eauto. }
    intros [= Hloop]. right. exists objs, ns.
    split; [done|]. split; [done|]. symmetry. exact Hloop.
  - destruct (openshift.Transform o h komposeObject opt) as [objs|e| |]; try done.
    2:{ intros [= <- <- <-]. left. repeat split; eauto. }
    destruct (getOpenShiftClient c) as [e|].
    { intros [= <- <- <-]. left. repeat split; eauto. }
    destruct (GetKubernetesClient c) as [ns|e].
    2:{ intros [= <- <- <-]. left. repeat split; eauto. }
    intros [= Hloop]. right. exists objs, ns.
    split; [done|]. split; [done|]. symmetry. exact Hloop.
Qed.

(** X6: a [Deploy] that returns no error has transformed the model and sent
    one create request, which succeeded, for every object of the graph that
    its type switch has a case for, in the order of the graph, and nothing
    else. *)
Theorem Deploy_success {W : Type} p h (c : Cluster W) komposeObject opt w w' sent :
  Deploy p h c komposeObject opt w = Ok (w', sent, None) →
  ∃ objs,
    Transform p h komposeObject opt = Ok objs
    ∧ requested sent = filter (created p) objs
    ∧ length sent = length (filter (created p) objs)
    ∧ Forall (λ ev, eventError ev = None) sent.
Proof.
  intros [(_ & _ & [e [=]] & _)|(objs & ns & Hobjs & _ & Hloop)]%Deploy_cases.
  exists objs. split; [done|].
  match type of Hloop with
  | _ = deployLoop c ?creates ?namespace objs w [] =>
      destruct (deployLoop_run c creates namespace objs w [])
        as (new & Hsent & Hall & Hnew)
  end.
  rewrite <- Hloop in Hsent, Hnew. simpl in Hsent, Hnew. subst sent.
  destruct Hnew as [Hreq Hnone].
  assert (length (requested new) = length new) as Hlen.
  { clear -Hall. induction Hall as [|ev new (obj & err & ->) _ IH]; [done|].
    simpl. by rewrite IH. }
  assert (filter (created p) objs
          = filter (λ v, (match p with
                          | onKubernetes _ => kubernetes.creates
                          | onOpenShift _ => openshift.creates
                          end) (kindOf v) = true) objs) as ->.
  { by destruct p. }
  rewrite <- Hreq, Hlen. done.
Qed.

Lemma Deploy_success_witness :
  ∃ w' sent objs,
    Deploy (onKubernetes sample.k) (sample.host false) (sample.controlPlane [])
      (sample.model [("web", sample.web)]) sample.controllers [] = Ok (w', sent, None)
    ∧ Transform (onKubernetes sample.k) (sample.host false)
        (sample.model [("web", sample.web)]) sample.controllers = Ok objs
    ∧ requested sent = filter (created (onKubernetes sample.k)) objs.
Proof.
  assert ({x | Deploy (onKubernetes sample.k) (sample.host false)
                 (sample.controlPlane []) (sample.model [("web", sample.web)])
                 sample.controllers [] = Ok (x.1, x.2, None)}) as [[w' sent] H].
  { eexists (_, _). vm_compute. reflexivity. }
  destruct (Deploy_success _ _ _ _ _ _ _ _ H) as (objs & Hobjs & Hreq & _).
  exists w', sent, objs. split; [exact H|]. split; [exact Hobjs|exact Hreq].
Defined.

(** X7: a [Deploy] that returns an error either sent nothing and left the
    cluster as it was, or stopped at the first create request that failed.
    In the first case [Transform] returned an error, which is returned under
    the transformer's prefix, or it returned a graph and a client could not
    be made, the error of the client being returned.  In the second the
    error is the one of the last request sent, every request before it
    succeeded, and the objects requested are the first of the objects of
    the graph that the type switch has a case for, in their order. *)
Theorem Deploy_first_error {W : Type} p h (c : Cluster W) komposeObject opt w w' sent e :
  Deploy p h c komposeObject opt w = Ok (w', sent, Some e) →
  (sent = [] ∧ w' = w
   ∧ (∀ e0, Transform p h komposeObject opt = Error e0 →
            e = transformFailed p +:+ ": " +:+ e0)
   ∧ ((∃ e0, Transform p h komposeObject opt = Error e0)
      ∨ ((∃ objs, Transform p h komposeObject opt = Ok objs)
         ∧ clientError p c = Some e)))
  ∨ ∃ objs sent0 namespace obj,
      Transform p h komposeObject opt = Ok objs
      ∧ sent = sent0 ++ [EvCreate namespace obj (Some e)]
      ∧ Forall (λ ev, eventError ev = None) sent0
      ∧ requested sent `prefix_of` filter (created p) objs.
Proof.
  intros [(-> & -> & _ & Hwhy)|(objs & ns & Hobjs & _ & Hloop)]%Deploy_cases.
  { left. split; [done|]. split; [done|]. split.
    - intros e0 He0.
      destruct Hwhy as [(e1 & He1 & [= ->])|[[objs Hobjs] _]]; congruence.
    - destruct Hwhy as [(e1 & He1 & _)|[Hobjs Hclient]]; [left; eauto|by right]. }
  right. exists objs.
  match type of Hloop with
  | _ = deployLoop c ?creates ?namespace objs w [] =>
      destruct (deployLoop_run c creates namespace objs w [])
        as (new & Hsent & _ & Hnew);
      assert (filter (created p) objs
              = filter (λ v, creates (kindOf v) = true) objs) as ->
  end.
  { by destruct p. }
  rewrite <- Hloop in Hsent, Hnew. simpl in Hsent, Hnew. subst sent.
  destruct Hnew as (new0 & obj & -> & Hnone & Hprefix).
  by eexists new0, _, obj.
Qed.

Lemma Deploy_first_error_witness :
  ∃ w' objs sent0 obj,
    Deploy (onOpenShift sample.o) (sample.host false) (rationed 2)
      (sample.model [("web", sample.web)]) (sample.options "none") []
    = Ok (w', sent0 ++ [EvCreate "default" obj (Some "quota exceeded")],
          Some "quota exceeded")
    ∧ Transform (onOpenShift sample.o) (sample.host false)
        (sample.model [("web", sample.web)]) (sample.options "none") = Ok objs
    ∧ length sent0 = 2%nat
    ∧ requested (sent0 ++ [EvCreate "default" obj (Some "quota exceeded")])
      `prefix_of` filter (created (onOpenShift sample.o)) objs.
Proof.
  assert ({x | Deploy (onOpenShift sample.o) (sample.host false) (rationed 2)
                 (sample.model [("web", sample.web)]) (sample.options "none") []
               = Ok (x.1.1, x.1.2 ++ [EvCreate "default" x.2 (Some "quota exceeded")],
                     Some "quota exceeded")
               ∧ length x.1.2 = 2%nat}) as [[[w' sent0] obj] [H Hlen]].
  { eexists (_, [_; _], _). vm_compute. split; reflexivity. }
  cbn [fst snd] in H, Hlen.
  destruct (Deploy_first_error (onOpenShift sample.o) _ _ _ _ _ _ _ _ H)
    as [(Hnil & _)|(objs & sent1 & namespace & obj1 & Hobjs & _ & _ & Hprefix)].
  { by destruct sent0. }
  exists w', objs, sent0, obj.
  split; [exact H|]. split; [exact Hobjs|]. split; [exact Hlen|exact Hprefix].
Defined.

(** ** More on [Undeploy] *)

Section more_requests.
Context {W : Type} (c : Cluster W) (timeout : Z).

Lemma removeListed_requests how namespace v items st :
  ∃ new,
    continues st
      (removeListed c timeout how (kindOf v) namespace (GetName v)
         {[ transformer.Selector := GetName v ]} items st) new
    ∧ Forall (requestFor timeout namespace v) new
    ∧ listings new = []
    ∧ (length (omap eventError new) ≤ 1)%nat.
Proof.
  revert st. induction items as [|l items IH]; intros st; simpl.
  { exists []. split; [apply continues_refl|]. split; [constructor|].
    split; [done|simpl; lia]. }
  case_bool_decide as Hl; [|apply IH].
  destruct how.
  - destruct (ReaperFor c (kindOf v)) as [err|].
    { eexists [_]. split; [apply continues_record|].
      split; [by repeat constructor|]. split; [done|simpl; lia]. }
    destruct (Stop c (kindOf v) namespace (GetName v) timeout _) as [w [err|]].
    + eexists [_; _]. split.
      * eapply (continues_trans _ _ _ [_] [_]); apply continues_record.
      * split; [by repeat constructor|]. split; [done|simpl; lia].
    + edestruct IH as (new & Hnew & Hall & Hlist & Hlen).
      eexists (_ :: _ :: new). split.
      * eapply (continues_trans _ _ _ [_; _]); [|exact Hnew].
        eapply (continues_trans _ _ _ [_] [_]); apply continues_record.
      * split; [by repeat constructor|]. split; [exact Hlist|exact Hlen].
  - destruct (Stop c (kindOf v) namespace (GetName v) timeout _) as [w [err|]].
    + eexists [_]. split; [apply continues_record|].
      split; [by repeat constructor|]. split; [done|simpl; lia].
    + edestruct IH as (new & Hnew & Hall & Hlist & Hlen).
      eexists (_ :: new). split.
      * eapply (continues_trans _ _ _ [_]); [apply continues_record|exact Hnew].
      * split; [by repeat constructor|]. split; [exact Hlist|exact Hlen].
  - destruct (Delete c (kindOf v) namespace (GetName v) _) as [w [err|]].
    + eexists [_]. split; [apply continues_record|].
      split; [by repeat constructor|]. split; [done|simpl; lia].
    + edestruct IH as (new & Hnew & Hall & Hlist & Hlen).
      eexists (_ :: new). split.
      * eapply (continues_trans _ _ _ [_]); [apply continues_record|exact Hnew].
      * split; [by repeat constructor|]. split; [exact Hlist|exact Hlen].
Qed.

Lemma undeployObject_requests cases namespace st v :
  ∃ new,
    continues st (undeployObject c timeout cases namespace st v) new
    ∧ Forall (requestFor timeout namespace v) new
    ∧ (cases (kindOf v) = None → new = [])
    ∧ listings new = match cases (kindOf v) with
                     | Some _ => [listingOf namespace v]
                     | None => []
                     end
    ∧ (length (omap eventError new) ≤ errorBudget cases v)%nat.
Proof.
  unfold undeployObject, errorBudget.
  destruct (cases (kindOf v)) as [[how breakOnListError]|].
  2:{ exists []. split; [apply continues_refl|]. split; [constructor|].
      split; [done|]. split; [done|simpl; lia]. }
  destruct (List c (kindOf v) namespace _ (world st)) as [items err].
  set (st1 := record st (world st) _).
  assert (continues st st1 [EvList (kindOf v) namespace
                              {[ transformer.Selector := GetName v ]} err]) as H1.
  { apply continues_record. }
  destruct (removeListed_requests how namespace v items st1)
    as (new & Hnew & Hall & Hlist & Hlen).
  pose proof (continues_trans _ _ _ [_] new H1 Hnew) as Hboth.
  destruct err as [err|]; [destruct breakOnListError|].
  - eexists [_]. split; [exact H1|]. split; [by repeat constructor|].
    split; [done|]. split; [done|simpl; lia].
  - eexists (_ :: new). split; [exact Hboth|].
    split; [by repeat constructor|]. split; [done|].
    split; [simpl; rewrite Hlist; done|exact (le_n_S _ _ Hlen)].
  - eexists (_ :: new). split; [exact Hboth|].
    split; [by repeat constructor|]. split; [done|].
    split; [simpl; rewrite Hlist; done|].
    destruct breakOnListError; [exact Hlen|exact (le_S _ _ Hlen)].
Qed.

Lemma undeployLoop_requests cases namespace objects st :
  ∃ new,
    continues st (undeployLoop c timeout cases namespace objects st) new
    ∧ Forall (λ ev, ∃ v, v ∈ objects ∧ is_Some (cases (kindOf v))
                         ∧ requestFor timeout namespace v ev) new
    ∧ listings new
      = listingOf namespace <$> filter (λ v, is_Some (cases (kindOf v))) objects
    ∧ (length (omap eventError new) ≤ sum_list (errorBudget cases <$> objects))%nat.
Proof.
  unfold undeployLoop. revert st.
  induction objects as [|v objects IH]; intros st; simpl.
  { exists []. split; [apply continues_refl|]. split; [constructor|].
    split; [done|simpl; lia]. }
  destruct (undeployObject_requests cases namespace st v)
    as (new1 & H1 & Hall1 & Hnone & Hlist1 & Hlen1).
  destruct (IH (undeployObject c timeout cases namespace st v))
    as (new2 & H2 & Hall2 & Hlist2 & Hlen2).
  exists (new1 ++ new2). split; [by eapply continues_trans|].
  split; [|split].
  - apply Forall_app. split.
    + destruct (cases (kindOf v)) as [case|] eqn:Hcase.
      * eapply Forall_impl; [exact Hall1|]. intros ev Hev. exists v.
        split; [left|]. rewrite Hcase. eauto.
      * rewrite Hnone by done. constructor.
    + eapply Forall_impl; [exact Hall2|]. intros ev (v' & Hv' & Hev).
      exists v'. split; [by right|done].
  - unfold listings in *. rewrite omap_app, Hlist1, Hlist2, filter_cons.
    destruct (cases (kindOf v)) as [case|].
    + rewrite decide_True by eauto. done.
    + rewrite decide_False by (by intros [? [=]]). done.
  - rewrite omap_app, length_app. exact (Nat.add_le_mono _ _ _ _ Hlen1 Hlen2).
Qed.

(** The requests of the loop, object by object. *)
Lemma undeployLoop_segments cases namespace objects st :
  ∃ segments,
    continues st (undeployLoop c timeout cases namespace objects st) (concat segments)
    ∧ Forall2 (λ v sent,
                 Forall (requestFor timeout namespace v) sent
                 ∧ (length (omap eventError sent) ≤ errorBudget cases v)%nat
                 ∧ (cases (kindOf v) = None → sent = []))
        objects segments.
Proof.
  unfold undeployLoop. revert st.
  induction objects as [|v objects IH]; intros st; cbn [foldl].
  { exists []. split; [apply continues_refl|constructor]. }
  destruct (undeployObject_requests cases namespace st v)
    as (new1 & H1 & Hall1 & Hnone1 & _ & Hlen1).
  destruct (IH (undeployObject c timeout cases namespace st v))
    as (segments & H2 & Hall2).
  exists (new1 :: segments). split; [by eapply continues_trans|].
  by constructor.
Qed.

End more_requests.

Lemma omap_concat {A B : Type} (f : A → option B) (ls : list (list A)) :
  omap f (concat ls) = concat ((λ l : list A, omap f l) <$> ls).
Proof.
  induction ls as [|l ls IH]; [done|].
  cbn [concat]. rewrite omap_app, IH. done.
Qed.

Lemma errorBudget_allowed p v : errorBudget (removes p) v = errorsAllowed p v.
Proof.
  unfold errorsAllowed. destruct (decide (removed p v)) as [Hyes|Hno].
  - unfold errorBudget. unfold removed in Hyes. destruct p as [k|o]; simpl in *.
    + destruct (decide (kindOf v = KPod)) as [->|Hpod]; [done|].
      destruct (kindOf v); simpl in *; try done; by destruct Hyes.
    + destruct (kindOf v); simpl in *; try done; by destruct Hyes.
  - unfold errorBudget. unfold removed in Hno.
    destruct (removes p (kindOf v)); [|done]. destruct Hno. eauto.
Qed.

Lemma errorBudget_sum p objs :
  (sum_list (errorBudget (removes p) <$> objs)
   ≤ length (filter (removed p) objs)
     + match p with
       | onKubernetes _ => length (filter (λ v, kindOf v = KPod) objs)
       | onOpenShift _ => 0
       end)%nat.
Proof.
  induction objs as [|v objs IH]; [by destruct p|].
  assert (errorBudget (removes p) v
          ≤ (if decide (removed p v) then 1 else 0)
            + match p with
              | onKubernetes _ => if decide (kindOf v = KPod) then 1 else 0
              | onOpenShift _ => 0
              end)%nat as Hv.
  { destruct (decide (removed p v)) as [_|Hno].
    - unfold errorBudget. destruct p as [k|o]; simpl.
      + destruct (decide (kindOf v = KPod)) as [->|Hpod]; [simpl; lia|].
        destruct (kindOf v); simpl; try lia. done.
      + destruct (kindOf v); simpl; lia.
    - unfold errorBudget. unfold removed in Hno.
      destruct (removes p (kindOf v)); [|lia]. destruct Hno. eauto. }
  rewrite fmap_cons, !filter_cons. simpl sum_list.
  destruct p as [k|o]; simpl in *.
  - destruct (decide (removed (onKubernetes k) v));
      destruct (decide (kindOf v = KPod)); simpl; lia.
  - destruct (decide (removed (onOpenShift o) v)); simpl; lia.
Qed.

(** X8: with a graph and its clients, [Undeploy] lists every object of the
    graph that its type switch has a case for exactly once, in the order of
    the graph, in the resolved namespace and by the one-entry selector of
    the object's name, whatever the requests before returned; it sends no
    other listing. *)
Theorem Undeploy_listings {W : Type} p h (c : Cluster W) komposeObject opt w objs ns :
  Transform p h komposeObject opt = Ok objs →
  clientsReady p c ns →
  ∃ r,
    Undeploy p h c komposeObject opt w = Ok r
    ∧ listings (trace r)
      = listingOf (namespaceOf opt ns) <$> filter (removed p) objs.
Proof.
  intros Hobjs Hready. eexists. split; [by apply Undeploy_ready|].
  destruct (undeployLoop_requests c 300 (removes p) (namespaceOf opt ns) objs
              {| world := w; errorList := []; trace := [] |})
    as (new & [Htrace _] & _ & Hlist & _).
  simpl in Htrace. rewrite Htrace. exact Hlist.
Qed.

(** X9: with a graph and its clients, every request of [Undeploy] is sent
    for an object of the graph that its type switch has a case for: it is
    never a create request, it names the kind of that object and the
    resolved namespace, and a reaper's [Stop] names the object and carries
    the timeout of 300 seconds. *)
Theorem Undeploy_requests {W : Type} p h (c : Cluster W) komposeObject opt w objs ns :
  Transform p h komposeObject opt = Ok objs →
  clientsReady p c ns →
  ∃ r,
    Undeploy p h c komposeObject opt w = Ok r
    ∧ Forall (λ ev, ∃ v, v ∈ objs ∧ removed p v
                         ∧ requestFor 300 (namespaceOf opt ns) v ev) (trace r).
Proof.
  intros Hobjs Hready. eexists. split; [by apply Undeploy_ready|].
  destruct (undeployLoop_requests c 300 (removes p) (namespaceOf opt ns) objs
              {| world := w; errorList := []; trace := [] |})
    as (new & [Htrace _] & Hall & _).
  simpl in Htrace. rewrite Htrace. exact Hall.
Qed.

(** X10: with a graph and its clients, the requests of [Undeploy] are the
    requests for the first object of the graph, then those for the second,
    and so on, and the errors it returns are the errors of these requests in
    that order.  Among the requests for one object at most one failed when
    the type switch has a case for the object, a case being left at its
    first error, and there is no request, hence no error, for any other
    object; on Kubernetes the case of a Pod goes on to the listed items
    after a failed listing, and two of its requests may have failed.  So the
    errors are at most as many as the objects the type switch has a case
    for, and the Pods on Kubernetes. *)
Theorem Undeploy_error_bound {W : Type} p h (c : Cluster W) komposeObject opt w
    objs ns :
  Transform p h komposeObject opt = Ok objs →
  clientsReady p c ns →
  ∃ r (segments : list (list Event)),
    Undeploy p h c komposeObject opt w = Ok r
    ∧ trace r = concat segments
    ∧ errorList r = concat ((λ sent : list Event, omap eventError sent) <$> segments)
    ∧ Forall2 (λ (v : Object) (sent : list Event),
                 Forall (requestFor 300 (namespaceOf opt ns) v) sent
                 ∧ (length (omap eventError sent) ≤ errorsAllowed p v)%nat
                 ∧ (¬ removed p v → sent = []))
        objs segments
    ∧ (length (errorList r)
       ≤ length (filter (removed p) objs)
         + match p with
           | onKubernetes _ => length (filter (λ v, kindOf v = KPod) objs)
           | onOpenShift _ => 0
           end)%nat.
Proof.
  intros Hobjs Hready.
  destruct (undeployLoop_segments c 300 (removes p) (namespaceOf opt ns) objs
              {| world := w; errorList := []; trace := [] |})
    as (segments & [Htrace Herrors] & Hall).
  destruct (undeployLoop_requests c 300 (removes p) (namespaceOf opt ns) objs
              {| world := w; errorList := []; trace := [] |})
    as (new & [Htrace' Herrors'] & _ & _ & Hlen).
  simpl in Htrace, Herrors, Htrace', Herrors'.
  eexists _, segments. split; [by apply Undeploy_ready|].
  split; [exact Htrace|]. split; [by rewrite Herrors, omap_concat|].
  split; [|rewrite Herrors'; etrans; [exact Hlen|apply errorBudget_sum]].
  eapply Forall2_impl; [exact Hall|].
  intros v sent (Hsent & Hbound & Hnone). rewrite errorBudget_allowed in Hbound.
  split; [done|]. split; [done|]. intros Hno. apply Hnone.
  unfold removed in Hno. destruct (removes p (kindOf v)); [|done].
  destruct Hno. eauto.
Qed.

Lemma Undeploy_listings_witness :
  ∃ r,
    Undeploy (onOpenShift sample.o) (sample.host false)
      (sample.controlPlane [KService]) (sample.model [("web", sample.web)])
      (sample.options "none") sample.deployed = Ok r
    ∧ listings (trace r)
      = listingOf "default"
        <$> filter (removed (onOpenShift sample.o))
              (graphOf (onOpenShift sample.o) (sample.model [("web", sample.web)])
                 (sample.options "none")).
Proof.
  apply (Undeploy_listings (onOpenShift sample.o) (sample.host false)
           (sample.controlPlane [KService]) (sample.model [("web", sample.web)])
           (sample.options "none") sample.deployed
           (graphOf (onOpenShift sample.o) (sample.model [("web", sample.web)])
              (sample.options "none"))
           "default").
  - vm_compute. reflexivity.
  - split; reflexivity.
Defined.

Lemma Undeploy_requests_witness :
  ∃ r,
    Undeploy (onKubernetes sample.k) (sample.host false)
      (sample.controlPlane []) (sample.model [("web", sample.web)])
      sample.controllers sample.deployed = Ok r
    ∧ Forall (λ ev, ∃ v,
                v ∈ graphOf (onKubernetes sample.k)
                      (sample.model [("web", sample.web)]) sample.controllers
                ∧ removed (onKubernetes sample.k) v
                ∧ requestFor 300 "default" v ev) (trace r).
Proof.
  apply (Undeploy_requests (onKubernetes sample.k) (sample.host false)
           (sample.controlPlane []) (sample.model [("web", sample.web)])
           sample.controllers sample.deployed
           (graphOf (onKubernetes sample.k) (sample.model [("web", sample.web)])
              sample.controllers)
           "default").
  - vm_compute. reflexivity.
  - split; [reflexivity|exact I].
Defined.

Lemma Undeploy_error_bound_witness :
  ∃ r (segments : list (list Event)),
    Undeploy (onKubernetes sample.k) (sample.host false)
      (sample.controlPlane [KPod]) (sample.model [("job", job)])
      (sample.options "none") running = Ok r
    ∧ trace r = concat segments
    ∧ errorList r = concat ((λ sent : list Event, omap eventError sent) <$> segments)
    ∧ Forall2 (λ (v : Object) (sent : list Event),
                 (length (omap eventError sent)
                  ≤ errorsAllowed (onKubernetes sample.k) v)%nat)
        (graphOf (onKubernetes sample.k) (sample.model [("job", job)])
           (sample.options "none"))
        segments
    ∧ (length (errorList r) ≤ 1 + 1)%nat.
Proof.
  destruct (Undeploy_error_bound (onKubernetes sample.k) (sample.host false)
              (sample.controlPlane [KPod]) (sample.model [("job", job)])
              (sample.options "none") running
              (graphOf (onKubernetes sample.k) (sample.model [("job", job)])
                 (sample.options "none"))
              "default")
    as (r & segments & Hr & Htrace & Herrors & Hall & Hlen).
  - vm_compute. reflexivity.
  - split; [reflexivity|exact I].
  - exists r, segments. split; [exact Hr|]. split; [exact Htrace|].
    split; [exact Herrors|]. split; [|exact Hlen].
    eapply Forall2_impl; [exact Hall|]. intros v sent (_ & Hbound & _). exact Hbound.
Defined.

(** The listing of Pods fails and still returns the Pod: on Kubernetes the
    loop goes on to it and collects the error of its removal too; on
    OpenShift the case is left after the failed listing. *)
Example Undeploy_pod_errors :
  errors (Undeploy (onKubernetes sample.k) (sample.host false)
            (sample.controlPlane [KPod]) (sample.model [("job", job)])
            (sample.options "none") running)
  = ["server error"; "server error"]
  ∧ errors (Undeploy (onOpenShift sample.o) (sample.host false)
              (sample.controlPlane [KPod]) (sample.model [("job", job)])
              (sample.options "none") running)
    = ["server error"].
Proof. split; vm_compute; reflexivity. Qed.

(** ** Ending before any request *)

(** X11: without a graph or without a client neither [Deploy] nor
    [Undeploy] sends a request or touches the cluster.  An error of
    [Transform] is returned by [Deploy] under the prefix of the transformer
    and by [Undeploy] as it is, alone in the list; the error of a client is
    returned as it is by both. *)
Theorem ends_before_any_request {W : Type} p h (c : Cluster W) komposeObject opt w e :
  Transform p h komposeObject opt = Error e
  ∨ ((∃ objs, Transform p h komposeObject opt = Ok objs) ∧ clientError p c = Some e) →
  ∃ e',
    Deploy p h c komposeObject opt w = Ok (w, [], Some e')
    ∧ Undeploy p h c komposeObject opt w
      = Ok {| world := w; errorList := [e]; trace := [] |}
    ∧ e' = match Transform p h komposeObject opt with
           | Error _ => transformFailed p +:+ ": " +:+ e
           | _ => e
           end.
Proof.
  unfold clientError.
  destruct p as [k|o]; simpl;
    unfold kubernetes.Deploy, kubernetes.Undeploy, openshift.Deploy, openshift.Undeploy.
  - intros [->|[[objs ->] Hclient]]; [by eexists|].
    destruct (GetKubernetesClient c) as [ns|err]; [done|].
    injection Hclient as ->. by eexists.
  - intros [->|[[objs ->] Hclient]]; [by eexists|].
    destruct (getOpenShiftClient c) as [err|].
    { injection Hclient as ->. by eexists. }
    destruct (GetKubernetesClient c) as [ns|err]; [done|].
    injection Hclient as ->. by eexists.
Qed.

Lemma ends_before_any_request_witness :
  ∃ e',
    Deploy (onKubernetes sample.k) (sample.host false) (sample.controlPlane [])
      (sample.model [("job", job)]) sample.forcing running
    = Ok (running, [], Some e')
    ∧ Undeploy (onKubernetes sample.k) (sample.host false) (sample.controlPlane [])
        (sample.model [("job", job)]) sample.forcing running
      = Ok {| world := running;
              errorList :=
                ["Controller object cannot be specified with restart: 'on-failure'"];
              trace := [] |}
    ∧ e' = "k.Transform failed: Controller object cannot be specified with restart: 'on-failure'".
Proof.
  apply (ends_before_any_request (onKubernetes sample.k) (sample.host false)
           (sample.controlPlane []) (sample.model [("job", job)]) sample.forcing
           running).
  left. vm_compute. reflexivity.
Defined.

(** ** [CheckUnsupportedKey] *)

Lemma checkServices_visited Fields LoadedFrom services acc :
  kubernetes.checkServices Fields LoadedFrom services acc
  = foldl (kubernetes.checkField LoadedFrom) acc (visited Fields services).
Proof.
  unfold kubernetes.checkServices, visited. revert acc.
  induction services as [|service services IH]; intros acc; [done|].
  rewrite bind_cons, foldl_app. simpl. apply IH.
Qed.

Lemma checkField_cases LoadedFrom keysFound table f :
  (kubernetes.checkField LoadedFrom (keysFound, table) f = (keysFound, table)
   ∧ ¬ (table !! kubernetes.fieldName f = Some false ∧ used f = true))
  ∨ (kubernetes.checkField LoadedFrom (keysFound, table) f
     = (keysFound ++ [kubernetes.Tag f LoadedFrom],
        <[kubernetes.fieldName f := true]> table)
     ∧ table !! kubernetes.fieldName f = Some false ∧ used f = true).
Proof.
  unfold kubernetes.checkField, used.
  destruct (table !! kubernetes.fieldName f) as [[|]|];
    try (left; split; [done|]; intros [[=] _]).
  destruct (kubernetes.IsExported f), (kubernetes.IsZero f); simpl;
    try (left; split; [done|]; intros [_ [=]]).
  destruct (kubernetes.sliceLen f) as [[|n]|]; simpl.
  - left. split; [done|]. intros [_ [=]].
  - right. done.
  - right. done.
Qed.

Lemma unseen_insert (table : gmap string bool) key :
  table !! key = Some false →
  unseen table = S (unseen (<[key := true]> table)).
Proof.
  intros Hkey. unfold unseen.
  rewrite map_filter_insert_False by (simpl; done).
  rewrite map_filter_delete.
  set (m := filter _ table).
  assert (m !! key = Some false) as Hm.
  { apply map_lookup_filter_Some. done. }
  rewrite <- (insert_delete_id m key false Hm) at 1.
  rewrite map_size_insert, lookup_delete_eq. done.
Qed.

(** What the loops over the fields keep. *)
Lemma checkFields_invariant LoadedFrom fields keysFound table :
  ∃ new table',
    foldl (kubernetes.checkField LoadedFrom) (keysFound, table) fields
    = (keysFound ++ new, table')
    ∧ (∀ key, table' !! key = table !! key
              ∨ (table !! key = Some false ∧ table' !! key = Some true))
    ∧ unseen table = (length new + unseen table')%nat
    ∧ (∀ tag, tag ∈ new →
         ∃ f, f ∈ fields ∧ used f = true
              ∧ table !! kubernetes.fieldName f = Some false
              ∧ tag = kubernetes.Tag f LoadedFrom)
    ∧ (∀ f, f ∈ fields → used f = true →
            table' !! kubernetes.fieldName f ≠ Some false).
Proof.
  revert keysFound table.
  induction fields as [|f fields IH]; intros keysFound table; cbn [foldl].
  { exists [], table. rewrite app_nil_r. split; [done|]. split; [eauto|].
    split; [done|]. split; intros ? Hin; by apply elem_of_nil in Hin. }
  destruct (checkField_cases LoadedFrom keysFound table f)
    as [[-> Hnot]|(-> & Hfalse & Hused)].
  - destruct (IH keysFound table) as (new & table' & -> & Hmono & Hcount & Hsound & Hall).
    exists new, table'. split; [done|]. split; [done|]. split; [done|]. split.
    + intros tag Htag. destruct (Hsound tag Htag) as (f' & Hf' & H').
      exists f'. split; [by right|done].
    + intros f' [->|Hf']%elem_of_cons Hused'; [|by apply Hall].
      intros Hfinal. destruct (Hmono (kubernetes.fieldName f)) as [Heq|[Hwas _]].
      * apply Hnot. split; [congruence|done].
      * by apply Hnot.
  - destruct (IH (keysFound ++ [kubernetes.Tag f LoadedFrom])
                (<[kubernetes.fieldName f := true]> table))
      as (new & table' & -> & Hmono & Hcount & Hsound & Hall).
    exists (kubernetes.Tag f LoadedFrom :: new), table'.
    split; [by rewrite <- app_assoc|]. split; [|split; [|split]].
    + intros key. destruct (decide (key = kubernetes.fieldName f)) as [->|Hkey].
      * right. split; [done|].
        destruct (Hmono (kubernetes.fieldName f)) as [->|[Hwas _]].
        -- by rewrite lookup_insert_eq.
        -- by rewrite lookup_insert_eq in Hwas.
      * destruct (Hmono key) as [Heq|[Hwas Hnow]].
        -- left. by rewrite Heq, lookup_insert_ne.
        -- right. by rewrite lookup_insert_ne in Hwas.
    + rewrite (unseen_insert table _ Hfalse), Hcount. simpl. lia.
    + intros tag [->|Htag]%elem_of_cons.
      * exists f. split; [by left|done].
      * destruct (Hsound tag Htag) as (f' & Hf' & Hused' & Hwas & ->).
        exists f'. split; [by right|]. split; [done|]. split; [|done].
        destruct (decide (kubernetes.fieldName f' = kubernetes.fieldName f)) as [Heq|Hne].
        -- by rewrite Heq, lookup_insert_eq in Hwas.
        -- by rewrite lookup_insert_ne in Hwas.
    + intros f' [->|Hf']%elem_of_cons Hused'; [|by apply Hall].
      destruct (Hmono (kubernetes.fieldName f)) as [->|[Hwas _]].
      * by rewrite lookup_insert_eq.
      * by rewrite lookup_insert_eq in Hwas.
Qed.

(** X12: whatever the order in which the services are ranged over,
    [CheckUnsupportedKey] leaves the table with the keys it had, an entry
    changing only from not seen to seen, and it reports one key for each
    entry it changes: the number of keys not seen goes down by the number of
    keys reported, so that a key of the table is reported at most once, over
    all the services. *)
Theorem CheckUnsupportedKey_reports_once Fields LoadedFrom services table :
  ∃ keysFound table',
    kubernetes.checkServices Fields LoadedFrom services ([], table)
    = (keysFound, table')
    ∧ (∀ key, table' !! key = table !! key
              ∨ (table !! key = Some false ∧ table' !! key = Some true))
    ∧ unseen table = (length keysFound + unseen table')%nat.
Proof.
  rewrite checkServices_visited.
  destruct (checkFields_invariant LoadedFrom (visited Fields services) [] table)
    as (new & table' & -> & Hmono & Hcount & _).
  by exists new, table'.
Qed.

(** X13: the keys [CheckUnsupportedKey] reports are the tags, for the format
    the model was loaded from, of fields in use (exported, not zero, not an
    empty slice) whose name the table holds as not seen; and after the call
    the table holds no such field of any service as not seen. *)
Theorem CheckUnsupportedKey_reports_used_fields Fields LoadedFrom services table :
  ∃ keysFound table',
    kubernetes.checkServices Fields LoadedFrom services ([], table)
    = (keysFound, table')
    ∧ (∀ tag, tag ∈ keysFound →
         ∃ service f,
           service ∈ services ∧ f ∈ Fields service ∧ used f = true
           ∧ table !! kubernetes.fieldName f = Some false
           ∧ tag = kubernetes.Tag f LoadedFrom)
    ∧ (∀ service f,
         service ∈ services → f ∈ Fields service → used f = true →
         table !! kubernetes.fieldName f = Some false →
         table' !! kubernetes.fieldName f = Some true).
Proof.
  rewrite checkServices_visited.
  destruct (checkFields_invariant LoadedFrom (visited Fields services) [] table)
    as (new & table' & -> & Hmono & _ & Hsound & Hall).
  exists new, table'. split; [done|]. split.
  - intros tag Htag. destruct (Hsound tag Htag) as (f & Hf & H').
    apply list_elem_of_bind in Hf as (service & Hf & Hservice).
    by exists service, f.
  - intros service f Hservice Hf Hused Hwas.
    assert (f ∈ visited Fields services) as Hvisited.
    { apply list_elem_of_bind. by exists service. }
    destruct (Hmono (kubernetes.fieldName f)) as [Heq|[_ Hnow]]; [|done].
    destruct (Hall f Hvisited Hused). congruence.
Qed.

(** X14: a second call of [CheckUnsupportedKey] on the same services, with
    the table the first call left, reports nothing and leaves the table as
    it is: the warning about a key is given once. *)
Theorem CheckUnsupportedKey_second_call Fields LoadedFrom services table :
  let first := kubernetes.checkServices Fields LoadedFrom services ([], table) in
  kubernetes.checkServices Fields LoadedFrom services ([], first.2) = ([], first.2).
Proof.
  simpl. rewrite !checkServices_visited.
  destruct (checkFields_invariant LoadedFrom (visited Fields services) [] table)
    as (new & table' & -> & _ & _ & _ & Hall). simpl.
  assert (∀ fields keysFound,
            (∀ f, f ∈ fields → used f = true →
                  table' !! kubernetes.fieldName f ≠ Some false) →
            foldl (kubernetes.checkField LoadedFrom) (keysFound, table') fields
            = (keysFound, table')) as Hsame.
  { clear. induction fields as [|f fields IH]; intros keysFound Hall; [done|].
    cbn [foldl].
    destruct (checkField_cases LoadedFrom keysFound table' f)
      as [[-> _]|(_ & Hfalse & Hused)].
    - apply IH. intros f' Hf'. apply Hall. by right.
    - destruct (Hall f); [by left|done..]. }
  by apply Hsame.
Qed.

(** X15: the table of the OpenShift transformer is empty: whatever the model,
    [CheckUnsupportedKey] reports no key for it. *)
Theorem openshift_reports_no_key k Fields komposeObject :
  kubernetes.CheckUnsupportedKey k Fields komposeObject openshift.unsupportedKey
  = ([], openshift.unsupportedKey).
Proof.
  unfold kubernetes.CheckUnsupportedKey. rewrite checkServices_visited.
  destruct (checkFields_invariant (LoadedFrom komposeObject)
              (visited Fields (map_to_list (ServiceConfigs komposeObject)).*2)
              [] openshift.unsupportedKey)
    as (new & table' & -> & Hmono & Hcount & _).
  unfold openshift.unsupportedKey in *.
  assert (new = []) as ->.
  { destruct new; [done|]. unfold unseen in Hcount.
    rewrite map_filter_empty, map_size_empty in Hcount. simpl in Hcount. lia. }
  f_equal. apply map_eq. intros key.
  destruct (Hmono key) as [->|[Hwas _]]; [done|].
  by rewrite lookup_empty in Hwas.
Qed.

(** ** The output of git *)

Lemma list_ascii_of_string_app (s t : string) :
  list_ascii_of_string (s +:+ t) = list_ascii_of_string s ++ list_ascii_of_string t.
Proof. induction s as [|a s IH]; simpl; [done|]. by rewrite <- IH. Qed.

Lemma string_of_list_ascii_app (l k : list ascii) :
  string_of_list_ascii (l ++ k) = string_of_list_ascii l +:+ string_of_list_ascii k.
Proof. induction l as [|a l IH]; simpl; [done|]. by rewrite IH. Qed.

Lemma rev_app (s t : string) :
  strings.rev (s +:+ t) = strings.rev t +:+ strings.rev s.
Proof.
  unfold strings.rev.
  by rewrite list_ascii_of_string_app, List.rev_app_distr, string_of_list_ascii_app.
Qed.

Lemma rev_rev (s : string) : strings.rev (strings.rev s) = s.
Proof.
  unfold strings.rev.
  by rewrite list_ascii_of_string_of_list_ascii, List.rev_involutive,
    string_of_list_ascii_of_string.
Qed.

Lemma rev_repeat_string (c : ascii) (n : nat) :
  strings.rev (string_of_list_ascii (repeat c n)) = string_of_list_ascii (repeat c n).
Proof.
  unfold strings.rev. by rewrite list_ascii_of_string_of_list_ascii, List.rev_repeat.
Qed.

Lemma HasPrefix_app (prefix s : string) : strings.HasPrefix (prefix +:+ s) prefix = true.
Proof.
  induction prefix as [|a prefix IH]; simpl; [by destruct s|].
  by rewrite Ascii.eqb_refl.
Qed.

Lemma HasSuffix_app (s suffix : string) : strings.HasSuffix (s +:+ suffix) suffix = true.
Proof. unfold strings.HasSuffix. rewrite rev_app. apply HasPrefix_app. Qed.

Lemma trimLeft_spec (s : string) (c : ascii) :
  ∃ n,
    s = string_of_list_ascii (repeat c n) +:+ strings.trimLeft s c
    ∧ strings.HasPrefix (strings.trimLeft s c) (String c "") = false.
Proof.
  induction s as [|a s (n & Hs & Hprefix)]; simpl.
  { by exists 0%nat. }
  destruct (Ascii.eqb a c) eqn:Ha.
  - apply Ascii.eqb_eq in Ha as ->. exists (S n). split; [|done].
    change (String c s
            = String c (string_of_list_ascii (repeat c n) +:+ strings.trimLeft s c)).
    by rewrite <- Hs.
  - exists 0%nat. simpl. by rewrite Ha.
Qed.

Lemma TrimRight_spec (s : string) (c : ascii) :
  ∃ n,
    s = strings.TrimRight s c +:+ string_of_list_ascii (repeat c n)
    ∧ strings.HasSuffix (strings.TrimRight s c) (String c "") = false.
Proof.
  unfold strings.TrimRight, strings.HasSuffix.
  destruct (trimLeft_spec (strings.rev s) c) as (n & Hs & Hprefix).
  exists n. split.
  - rewrite <- (rev_rev s) at 1. rewrite Hs at 1.
    by rewrite rev_app, rev_repeat_string.
  - by rewrite rev_rev.
Qed.

(** X16: the URL [getGitCurrentRemoteURL] returns always ends in ".git": it
    is the output of git without its trailing newlines, with ".git" appended
    unless it is there already; it has no trailing newline left. *)
Theorem getGitCurrentRemoteURL_suffix h composeFileDir url :
  openshift.getGitCurrentRemoteURL h composeFileDir = Return url →
  strings.HasSuffix url ".git" = true
  ∧ ∃ body n,
      git h ["ls-remote"; "--get-url"] composeFileDir = Return (body +:+ newlines n)
      ∧ strings.HasSuffix body nl = false
      ∧ url = (if strings.HasSuffix body ".git" then body else body +:+ ".git").
Proof.
  unfold openshift.getGitCurrentRemoteURL.
  destruct (git h _ composeFileDir) as [out|err]; [|done].
  intros [= <-].
  destruct (TrimRight_spec out openshift.newline) as (n & Hout & Hsuffix).
  split.
  - destruct (strings.HasSuffix (strings.TrimRight out openshift.newline) ".git")
      eqn:Hgit; simpl; [done|apply HasSuffix_app].
  - exists (strings.TrimRight out openshift.newline), n.
    unfold newlines. split; [by rewrite <- Hout|]. split; [done|].
    by destruct (strings.HasSuffix _ ".git").
Qed.

Lemma getGitCurrentRemoteURL_suffix_witness :
  strings.HasSuffix "ls-remote --get-url.git" ".git" = true
  ∧ ∃ body n,
      git (sample.host false) ["ls-remote"; "--get-url"] "/app"
      = Return (body +:+ newlines n)
      ∧ strings.HasSuffix body nl = false
      ∧ "ls-remote --get-url.git"
        = (if strings.HasSuffix body ".git" then body else body +:+ ".git").
Proof.
  apply (getGitCurrentRemoteURL_suffix (sample.host false) "/app").
  vm_compute. reflexivity.
Defined.

(** X17: the branch [getGitCurrentBranch] returns is the output of git
    without its trailing newlines, all of them, and nothing else is
    removed. *)
Theorem getGitCurrentBranch_trimmed h composeFileDir branch :
  openshift.getGitCurrentBranch h composeFileDir = Return branch →
  strings.HasSuffix branch nl = false
  ∧ ∃ n,
      git h ["rev-parse"; "--abbrev-ref"; "HEAD"] composeFileDir
      = Return (branch +:+ newlines n).
Proof.
  unfold openshift.getGitCurrentBranch.
  destruct (git h _ composeFileDir) as [out|err]; [|done].
  intros [= <-].
  destruct (TrimRight_spec out openshift.newline) as (n & Hout & Hsuffix).
  split; [done|]. exists n. unfold newlines. by rewrite <- Hout.
Qed.

Lemma getGitCurrentBranch_trimmed_witness :
  strings.HasSuffix "rev-parse --abbrev-ref HEAD" nl = false
  ∧ ∃ n,
      git (sample.host false) ["rev-parse"; "--abbrev-ref"; "HEAD"] "/app"
      = Return ("rev-parse --abbrev-ref HEAD" +:+ newlines n).
Proof.
  apply (getGitCurrentBranch_trimmed (sample.host false) "/app").
  vm_compute. reflexivity.
Defined.

(** X18: the build context [getAbsBuildContext] returns is the output of git
    without its leading and its trailing newlines: it neither starts nor
    ends with one, and the newlines inside are kept. *)
Theorem getAbsBuildContext_trimmed h context contextDir :
  openshift.getAbsBuildContext h context = Return contextDir →
  strings.HasPrefix contextDir nl = false
  ∧ strings.HasSuffix contextDir nl = false
  ∧ ∃ m n,
      git h ["rev-parse"; "--show-prefix"] context
      = Return (newlines m +:+ contextDir +:+ newlines n).
Proof.
  unfold openshift.getAbsBuildContext, strings.Trim.
  destruct (git h _ context) as [out|err]; [|done].
  intros [= <-].
  destruct (trimLeft_spec out openshift.newline) as (m & Hout & Hprefix).
  destruct (TrimRight_spec (strings.trimLeft out openshift.newline) openshift.newline)
    as (n & Hleft & Hsuffix).
  split; [|split; [done|]].
  - rewrite Hleft in Hprefix.
    destruct (strings.TrimRight _ _) as [|a rest]; [done|].
    change (Ascii.eqb a openshift.newline && strings.HasPrefix rest "" = false).
    change (Ascii.eqb a openshift.newline
            && strings.HasPrefix
                 (rest +:+ string_of_list_ascii (repeat openshift.newline n)) ""
            = false) in Hprefix.
    assert (∀ s, strings.HasPrefix s "" = true) as Hempty by (by intros []).
    rewrite Hempty in Hprefix. by rewrite Hempty.
  - exists m, n. unfold newlines. by rewrite <- Hleft, <- Hout.
Qed.

Lemma getAbsBuildContext_trimmed_witness :
  strings.HasPrefix "rev-parse --show-prefix" nl = false
  ∧ strings.HasSuffix "rev-parse --show-prefix" nl = false
  ∧ ∃ m n,
      git (sample.host false) ["rev-parse"; "--show-prefix"] "/app/web"
      = Return (newlines m +:+ "rev-parse --show-prefix" +:+ newlines n).
Proof.
  apply (getAbsBuildContext_trimmed (sample.host false) "/app/web").
  vm_compute. reflexivity.
Defined.

(** ** The image stream tag *)

Lemma count_afterLast (c : ascii) (s : string) : count c (afterLast c s) = 0%nat.
Proof.
  induction s as [|a s IH]; simpl; [done|].
  destruct (count c s) as [|n] eqn:Hcount; simpl; [|done].
  destruct (Ascii.eqb a c) eqn:Ha; simpl; [done|].
  by rewrite Ha, Hcount.
Qed.

Lemma count_afterLast_le (d c : ascii) (s : string) :
  (count d (afterLast c s) ≤ count d s)%nat.
Proof.
  induction s as [|a s IH]; simpl; [done|].
  destruct (0 <? count c s)%nat; [lia|].
  destruct (Ascii.eqb a c); simpl; lia.
Qed.

Lemma getImageTag_no_separator (image : string) :
  count ":" (openshift.getImageTag image) = 0%nat
  ∧ count "/" (openshift.getImageTag image) = 0%nat.
Proof.
  unfold openshift.getImageTag.
  rewrite getImageTag_segment, Split_length.
  destruct (count ":" (afterLast "/" image)) as [|[|n]] eqn:Hcount; simpl; try done.
  rewrite (Split_second ":" _ Hcount). split; [apply count_afterLast|].
  pose proof (count_afterLast_le "/" ":" (afterLast "/" image)) as Hle.
  rewrite count_afterLast in Hle. lia.
Qed.

(** X19: the tag taken from an image reference holds neither a colon nor a
    slash, so that the name of an image stream tag, the service name, a
    colon and the tag, has the tag after its last colon; the BuildConfig of
    a service writes to the image stream tag that the trigger of its
    DeploymentConfig watches; and the ImageStream of the service defines
    that tag and no other. *)
Theorem image_stream_tag_shared o h name service opt replicas repo branch :
  let tag := openshift.getImageTag (Image service) in
  (count ":" tag = 0%nat ∧ count "/" tag = 0%nat)
  ∧ afterLast ":" (name +:+ ":" +:+ tag) = tag
  ∧ triggerOf (openshift.initDeploymentConfig o name service replicas)
    = Some (name +:+ ":" +:+ tag)
  ∧ (∀ bc, openshift.initBuildConfig h name service repo branch = Ok bc →
           outputOf bc
           = triggerOf (openshift.initDeploymentConfig o name service replicas))
  ∧ (∀ key, is_Some (tagsOf (openshift.initImageStream o name service opt) !! key) →
            key = tag).
Proof.
  intros tag. pose proof (getImageTag_no_separator (Image service)) as [Hcolon Hslash].
  split; [done|]. split; [|split; [done|split]].
  - fold tag in Hcolon. clearbody tag.
    induction name as [|a name IH].
    + change (afterLast ":" (String ":" tag) = tag). simpl. by rewrite Hcolon.
    + change (afterLast ":" (String a (name +:+ ":" +:+ tag)) = tag).
      simpl. rewrite IH.
      assert (count ":" (name +:+ ":" +:+ tag) ≠ 0%nat) as Hsome.
      { clear. induction name as [|b name IH]; [done|].
        change (count ":" (String b (name +:+ ":" +:+ tag)) ≠ 0%nat).
        simpl. lia. }
      destruct (count ":" (name +:+ ":" +:+ tag)); done.
  - intros bc. unfold openshift.initBuildConfig.
    destruct (openshift.getAbsBuildContext h (Build service)); [|done].
    by intros [= <-].
  - intros key. unfold openshift.initImageStream. simpl.
    destruct (_ || _); simpl.
    + intros [x Hx]. apply lookup_singleton_Some in Hx as [<- _]. done.
    + intros [x Hx]. by rewrite lookup_empty in Hx.
Qed.

(** ** The loop body of [Transform] *)

Lemma buildLocal_Ok p h opt name service :
  buildLocal p h opt name service = Ok () →
  builtLocally opt service →
  Image service ≠ ""
  ∧ ∃ composeFileDir,
      GetComposeFileDir h (InputFiles opt) = Return composeFileDir
      ∧ BuildDockerImage h service name composeFileDir = None
      ∧ PushDockerImage h service name = None.
Proof.
  intros Hrun (Hlocal & Hfiles & Hbuild).
  assert (String.eqb (Build_ opt) "local" && bool_decide (InputFiles opt ≠ None)
          && negb (String.eqb (Build service) "") = true) as Hcond.
  { rewrite Hlocal, bool_decide_eq_true_2 by done. simpl.
    apply negb_true_iff, String.eqb_neq. done. }
  destruct p as [k|o]; simpl in Hrun;
    unfold kubernetes.buildLocal, openshift.buildLocal in Hrun;
    rewrite Hcond in Hrun;
    (destruct (String.eqb (Image service) "") eqn:Himage; [done|]);
    apply String.eqb_neq in Himage;
    (destruct (GetComposeFileDir h (InputFiles opt)) as [dir|err]; [|done]);
    simpl in Hrun;
    (destruct (BuildDockerImage h service name dir) eqn:Hbuilt; [done|]);
    (destruct (PushDockerImage h service name) eqn:Hpushed; [done|]);
    (split; [done|]); by exists dir.
Qed.

(** X20: an iteration of the loop of [Transform], on either platform, emits
    objects for a service that is to be built with docker on the spot only
    after the build: the service has an image name, the directory of the
    compose file was found, and the build and the push both succeeded. *)
Theorem emits_after_local_build p h opt name service os :
  emits p h opt name service os →
  builtLocally opt service →
  Image service ≠ ""
  ∧ ∃ composeFileDir,
      GetComposeFileDir h (InputFiles opt) = Return composeFileDir
      ∧ BuildDockerImage h service name composeFileDir = None
      ∧ PushDockerImage h service name = None.
Proof.
  intros Hemits. apply (buildLocal_Ok p).
  destruct p as [k|o]; simpl in *.
  - unfold kubernetes.transformService in Hemits.
    by destruct (kubernetes.buildLocal h opt name service) as [[]| | |].
  - destruct Hemits as (vars & vars' & Hrun & _).
    unfold openshift.transformService in Hrun.
    by destruct (openshift.buildLocal h opt name service) as [[]| | |].
Qed.

Lemma emits_after_local_build_witness :
  Image built ≠ ""
  ∧ ∃ composeFileDir,
      GetComposeFileDir (sample.host false) (InputFiles (sample.options "local"))
      = Return composeFileDir
      ∧ BuildDockerImage (sample.host false) built "api" composeFileDir = None
      ∧ PushDockerImage (sample.host false) built "api" = None.
Proof.
  assert ({os | kubernetes.transformService sample.k (sample.host false)
                  (sample.options "local") "api" built = Ok os}) as [os Hos].
  { eexists. vm_compute. reflexivity. }
  apply (emits_after_local_build (onKubernetes sample.k) (sample.host false)
           (sample.options "local") "api" built os Hos).
  split; [reflexivity|]. split; [discriminate|discriminate].
Defined.

Lemma getGitCurrentRemoteURL_HasSuffix h composeFileDir url :
  openshift.getGitCurrentRemoteURL h composeFileDir = Return url →
  strings.HasSuffix url ".git" = true.
Proof.
  unfold openshift.getGitCurrentRemoteURL.
  destruct (git h _ composeFileDir) as [out|err]; [|done].
  intros [= <-].
  destruct (strings.HasSuffix (strings.TrimRight out openshift.newline) ".git")
    eqn:Hgit; simpl; [done|apply HasSuffix_app].
Qed.

(** X21: when the loop of the OpenShift [Transform] goes on with a service
    that is to be built in the cluster, the directory of the compose file
    was found and the loop has appended one BuildConfig, named after the
    service, that builds from the repository and the branch the loop carries
    on to the next services.  Git was there, or both were known already.  A
    branch known already is kept; otherwise the branch is the one
    [getGitCurrentBranch] returns for that directory.  The repository is the
    one carried when the options name one; otherwise it is the URL
    [getGitCurrentRemoteURL] returns for that directory, which ends in
    ".git". *)
Theorem buildConfigStep_source h opt name service objects buildRepo buildBranch
    objects' repo' branch' :
  builtInCluster opt service →
  openshift.buildConfigStep h opt name service objects buildRepo buildBranch
  = Ok (Some (objects', repo', branch')) →
  ∃ composeFileDir,
    GetComposeFileDir h (InputFiles opt) = Return composeFileDir
    ∧ (∃ bc, objects' = objects ++ [bc] ∧ kindOf bc = KBuildConfig
             ∧ GetName bc = name ∧ sourceOf bc = Some (repo', branch'))
    ∧ (openshift.hasGitBinary h = true ∨ (buildRepo ≠ "" ∧ buildBranch ≠ ""))
    ∧ (if String.eqb buildBranch ""
       then openshift.getGitCurrentBranch h composeFileDir = Return branch'
       else branch' = buildBranch)
    ∧ (if String.eqb (BuildRepo opt) ""
       then openshift.getGitCurrentRemoteURL h composeFileDir = Return repo'
            ∧ strings.HasSuffix repo' ".git" = true
       else repo' = buildRepo).
Proof.
  intros [Hbuild Hmode]. unfold openshift.buildConfigStep.
  assert (negb (String.eqb (Build service) "") && String.eqb (Build_ opt) "build-config"
          = true) as ->.
  { rewrite Hmode. simpl. rewrite andb_true_r.
    apply negb_true_iff, String.eqb_neq. done. }
  destruct (GetComposeFileDir h (InputFiles opt)) as [dir|err]; [|done].
  destruct (negb (openshift.hasGitBinary h)
            && (String.eqb buildRepo "" || String.eqb buildBranch "")) eqn:Hgit;
    [done|].
  assert (openshift.hasGitBinary h = true ∨ buildRepo ≠ "" ∧ buildBranch ≠ "") as Hknown.
  { destruct (openshift.hasGitBinary h); [by left|]. right. simpl in Hgit.
    apply orb_false_iff in Hgit as [Hr Hb]. by split; apply String.eqb_neq. }
  intros Hstep. exists dir. split; [done|]. revert Hstep.
  destruct (String.eqb buildBranch "") eqn:Hb;
    [destruct (openshift.getGitCurrentBranch h dir) as [branch|err] eqn:Hbranch;
       [|done]|];
    simpl;
    (destruct (String.eqb (BuildRepo opt) "") eqn:Hrepo;
       [destruct (openshift.getGitCurrentRemoteURL h dir) as [url|err] eqn:Hurl;
          [|done]|]);
    simpl; unfold openshift.initBuildConfig;
    (destruct (openshift.getAbsBuildContext h (Build service)); [|done]);
    intros [= <- <- <-];
    (split; [by eexists|]); (split; [done|]); (split; [done|]); try done;
    (split; [done|]); by eapply getGitCurrentRemoteURL_HasSuffix.
Qed.

Lemma buildConfigStep_source_witness :
  ∃ composeFileDir,
    GetComposeFileDir (sample.host false) (InputFiles (sample.options "build-config"))
    = Return composeFileDir
    ∧ openshift.getGitCurrentBranch (sample.host false) composeFileDir
      = Return "rev-parse --abbrev-ref HEAD"
    ∧ openshift.getGitCurrentRemoteURL (sample.host false) composeFileDir
      = Return "ls-remote --get-url.git".
Proof.
  assert ({bc | openshift.buildConfigStep (sample.host false)
                  (sample.options "build-config") "api" built [] "" ""
                = Ok (Some ([bc], "ls-remote --get-url.git",
                            "rev-parse --abbrev-ref HEAD"))}) as [bc Hbc].
  { eexists. vm_compute. reflexivity. }
  assert (builtInCluster (sample.options "build-config") built) as Hin.
  { split; [discriminate|reflexivity]. }
  destruct (buildConfigStep_source (sample.host false) (sample.options "build-config")
              "api" built [] "" "" [bc] "ls-remote --get-url.git"
              "rev-parse --abbrev-ref HEAD" Hin Hbc)
    as (dir & Hdir & _ & _ & Hbranch & Hrepo & _).
  exists dir. split; [exact Hdir|]. split; [exact Hbranch|exact Hrepo].
Defined.

(** ** [Deploy], then [Undeploy] *)

Lemma creates_removes p kind :
  match p with
  | onKubernetes _ => kubernetes.creates kind
  | onOpenShift _ => openshift.creates kind
  end = true
  ↔ is_Some (removes p kind).
Proof.
  destruct p, kind; simpl; split; try done; try (by eauto); by intros [? [=]].
Qed.

(** X22: [Undeploy] has a case for exactly the kinds [Deploy] has one for;
    so after a [Deploy] that returned no error, [Undeploy] on the same model
    and options lists, in the namespace the create requests were sent to,
    exactly the objects that were created, in the order of their creation. *)
Theorem Undeploy_lists_created {W : Type} p h (c : Cluster W) komposeObject opt
    w w' sent w0 :
  Deploy p h c komposeObject opt w = Ok (w', sent, None) →
  (∀ v, created p v ↔ removed p v)
  ∧ ∃ r namespace,
      Undeploy p h c komposeObject opt w0 = Ok r
      ∧ Forall (λ ev, ∃ obj, ev = EvCreate namespace obj None) sent
      ∧ listings (trace r) = listingOf namespace <$> requested sent.
Proof.
  intros Hdeploy.
  assert (∀ v, created p v ↔ removed p v) as Hsame.
  { intros v. unfold removed. rewrite <- creates_removes. by destruct p. }
  split; [exact Hsame|].
  apply Deploy_cases in Hdeploy
    as [(_ & _ & [e [=]] & _)|(objs & ns & Hobjs & Hready & Hloop)].
  exists (undeployLoop c 300 (removes p) (namespaceOf opt ns) objs
            {| world := w0; errorList := []; trace := [] |}), (namespaceOf opt ns).
  split; [by apply Undeploy_ready|].
  match type of Hloop with
  | _ = deployLoop c ?creates ?namespace objs w [] =>
      destruct (deployLoop_run c creates namespace objs w [])
        as (new & Hsent & Hall & Hnew)
  end.
  rewrite <- Hloop in Hsent, Hnew. simpl in Hsent, Hnew. subst sent.
  destruct Hnew as [Hreq Hnone].
  destruct (undeployLoop_requests c 300 (removes p) (namespaceOf opt ns) objs
              {| world := w0; errorList := []; trace := [] |})
    as (listed & [Htrace _] & _ & Hlist & _).
  simpl in Htrace. rewrite Htrace, Hlist, Hreq. split.
  - clear -Hall Hnone. induction Hall as [|ev new (obj & err & ->) _ IH]; [done|].
    apply Forall_cons in Hnone as [Herr Hnone]. simpl in Herr. subst err.
    constructor; [by exists obj|by apply IH].
  - f_equal. apply list_filter_iff. intros v. symmetry.
    destruct p as [k|o];
      [apply (creates_removes (onKubernetes k))|apply (creates_removes (onOpenShift o))].
Qed.

Lemma Undeploy_lists_created_witness :
  ∃ sent r namespace,
    Undeploy (onOpenShift sample.o) (sample.host false) (sample.controlPlane [])
      (sample.model [("web", sample.web); ("job", job)]) (sample.options "none") []
    = Ok r
    ∧ length sent = 5%nat
    ∧ listings (trace r) = listingOf namespace <$> requested sent.
Proof.
  assert ({x | Deploy (onOpenShift sample.o) (sample.host false)
                 (sample.controlPlane [])
                 (sample.model [("web", sample.web); ("job", job)])
                 (sample.options "none") [] = Ok (x.1, x.2, None)
               ∧ length x.2 = 5%nat}) as [[w' sent] [H Hlen]].
  { eexists (_, _). vm_compute. split; reflexivity. }
  destruct (Undeploy_lists_created (onOpenShift sample.o) (sample.host false)
              (sample.controlPlane [])
              (sample.model [("web", sample.web); ("job", job)])
              (sample.options "none") [] w' sent [] H)
    as (_ & r & namespace & Hr & _ & Hlist).
  exists sent, r, namespace. split; [exact Hr|]. split; [exact Hlen|exact Hlist].
Defined.
